(** * obs-cleanstream: the audio staging and classification pipeline

    A shallow embedding of [src/cleanstream-filter.cpp]: the voice-activity
    pre-filter, the classifier around the ASR call, the segment processor
    that assembles one inference window, the worker's readiness check and
    the host-facing push/pull entry point, followed by the properties of
    the specification that concern them.

    Conventions.
    - C integers are [Z] with their wrap-around written out ([wrap32] for
      [uint32_t], [wrap64] for [size_t]/[uint64_t] on an LP64 target).
    - [float] is IEEE-754 binary32, one rounding per operation, taken from
      the Standard Library's executable specification [SpecFloat].
    - A [circlebuf] holding floats is the list of its queued floats, oldest
      first; one holding packet descriptors is the list of descriptors.
    - A step that is undefined in the source (reading or writing outside a
      buffer, a [memcpy] between overlapping regions, a failed [assert] of
      [circlebuf_peek_front], a division by zero) makes the embedded
      function return [None].
    - What the filter calls but does not define is a parameter: the regular
      expression engine and [sinf] are classes, and each invocation of the
      segment processor is given what the resampler returns, what the ASR
      engine does if it is called, and the time the clock measures.
    - The three mutexes make the block that assembles a window, the block
      that publishes it and each half of the host's push/pull atomic, and
      nothing in between touches shared state, so a run is a sequence of
      pushes and worker polls. *)

From Stdlib Require Import String Ascii.
From Stdlib Require Import ZArith List Bool Lia.
From Stdlib Require Import Floats.SpecFloat.
Import ListNotations.

Local Open Scope Z_scope.

(** ** Machine integers *)

Definition wrap32 (z : Z) : Z := z mod 2 ^ 32.
Definition wrap64 (z : Z) : Z := z mod 2 ^ 64.

(** ** binary32 arithmetic *)

Module F32.

Definition prec : Z := 24.
Definition emax : Z := 128.

Definition t : Type := spec_float.

Definition add : t -> t -> t := SFadd prec emax.
Definition sub : t -> t -> t := SFsub prec emax.
Definition mul : t -> t -> t := SFmul prec emax.
Definition div : t -> t -> t := SFdiv prec emax.
Definition abs : t -> t := SFabs.
Definition ltb : t -> t -> bool := SFltb.

(** [m * 2^e] rounded to nearest-even: the value of a decimal literal
    whose exact value is [m * 2^e], and of a conversion from a wider
    type. *)
Definition round (m e : Z) : t := binary_normalize prec emax m e false.

(** [(float)n] for an integer [n]. *)
Definition of_Z (n : Z) : t := round n 0.

(** [(uint64_t)x] / [(size_t)x] for a finite non-negative [x]:
    truncation toward zero.  Other arguments are outside the domain of
    the C conversion; the embedding gives them 0. *)
Definition to_Z (x : t) : Z :=
  match x with
  | S754_finite false m e =>
      match e with
      | Zneg p => Z.shiftr (Zpos m) (Zpos p)
      | _ => Z.shiftl (Zpos m) e
      end
  | _ => 0
  end.

Definition zero : t := S754_zero false.

(** [(float)M_PI]: the double [0x400921FB54442D18] rounded to binary32. *)
Definition M_PI : t := round 7074237752028440 (-51).

(** [0.75f], [0.5f]: exact. *)
Definition three_quarters : t := round 3 (-2).
Definition half : t := round 1 (-1).

End F32.

Definition float32 : Type := F32.t.

Declare Scope f32_scope.
Delimit Scope f32_scope with f32.
Infix "+" := F32.add : f32_scope.
Infix "-" := F32.sub : f32_scope.
Infix "*" := F32.mul : f32_scope.
Infix "/" := F32.div : f32_scope.

(** ** Arrays *)

(** A read or a write outside a buffer is undefined behaviour: the
    function that makes it returns [None]. *)
Notation "x <- e ;; k" :=
  (match e with Some x => k | None => None end)
  (at level 61, e at next level, right associativity).
Notation "' p <- e ;; k" :=
  (match e with Some p => k | None => None end)
  (at level 61, p pattern, e at next level, right associativity).

(** [a[i]] for a C array held as a list; the default stands for a read the
    callers below never make. *)
Definition rd (a : list float32) (i : nat) : float32 := nth i a F32.zero.

(** [a[i] = v], in range. *)
Fixpoint wr (a : list float32) (i : nat) (v : float32) : list float32 :=
  match a, i with
  | [], _ => []
  | _ :: a', O => v :: a'
  | x :: a', S i' => x :: wr a' i' v
  end.

(** ** Voice-activity pre-filter *)

Definition hp_alpha (cutoff : float32) (sample_rate : Z) : float32 :=
  let rc := (F32.of_Z 1 / (F32.of_Z 2 * F32.M_PI * cutoff))%f32 in
  let dt := (F32.of_Z 1 / F32.of_Z sample_rate)%f32 in
  (dt / (rc + dt))%f32.

(** One iteration of the loop of [high_pass_filter]: the running [y] and
    the array, at index [i]. *)
Definition high_pass_step (alpha : float32)
    (st : float32 * list float32) (i : nat) : float32 * list float32 :=
  let '(y, pcmf32) := st in
  let y' := (alpha * (y + rd pcmf32 i - rd pcmf32 (i - 1)))%f32 in
  (y', wr pcmf32 i y').

(** [high_pass_filter(pcmf32, pcm32f_size, cutoff, sample_rate)], with
    [pcm32f_size] the length of the list.  [float y = pcmf32[0]] comes
    before the size is looked at: on an empty buffer it is a read outside
    the buffer. *)
Definition high_pass_filter (pcmf32 : list float32) (cutoff : float32)
    (sample_rate : Z) : option (list float32) :=
  let alpha := hp_alpha cutoff sample_rate in
  y <- nth_error pcmf32 0 ;;
  Some (snd (fold_left (high_pass_step alpha) (seq 1 (length pcmf32 - 1))
               (y, pcmf32))).

(** The recurrence of the specification, over the original samples:
    [y[0] = x[0]], [y[i] = alpha * (y[i-1] + x[i] - x[i-1])]. *)
Fixpoint high_pass_reference_from (alpha y xprev : float32)
    (xs : list float32) : list float32 :=
  match xs with
  | [] => []
  | x :: xs' =>
      let y' := (alpha * (y + x - xprev))%f32 in
      y' :: high_pass_reference_from alpha y' x xs'
  end.

Definition high_pass_reference (x : list float32) (cutoff : float32)
    (sample_rate : Z) : list float32 :=
  match x with
  | [] => []
  | x0 :: xs => x0 :: high_pass_reference_from (hp_alpha cutoff sample_rate) x0 x0 xs
  end.

(** [BUFFER_SIZE_MSEC], [OVERLAP_SIZE_MSEC], [WHISPER_SAMPLE_RATE] (from
    whisper.h), [VAD_THOLD] ([0.0001f]) and [FREQ_THOLD] ([100.0f]). *)
Definition BUFFER_SIZE_MSEC : Z := 1010.
Definition OVERLAP_SIZE_MSEC : Z := 340.
Definition WHISPER_SAMPLE_RATE : Z := 16000.
Definition VAD_THOLD : float32 := (F32.of_Z 1 / F32.of_Z 10000)%f32.
Definition FREQ_THOLD : float32 := F32.of_Z 100.

(** [vad_simple]: the filtered buffer (the filter works in place) and
    whether speech was detected. *)
Definition vad_simple (pcmf32 : list float32) (sample_rate : Z)
    (vad_thold freq_thold : float32) : option (list float32 * bool) :=
  let n_samples := Z.of_nat (length pcmf32) in
  pcmf32 <-
    (if F32.ltb F32.zero freq_thold
     then high_pass_filter pcmf32 freq_thold sample_rate
     else Some pcmf32) ;;
  let energy_all :=
    fold_left (fun e x => (e + F32.abs x)%f32) pcmf32 F32.zero in
  let energy_all := (energy_all / F32.of_Z n_samples)%f32 in
  Some (pcmf32, negb (F32.ltb energy_all vad_thold)).

(** ** Text normalisation *)

(** [::tolower] and [std::isspace] in the "C" locale. *)
Definition tolower (c : ascii) : ascii :=
  let n := nat_of_ascii c in
  if (Nat.leb 65 n && Nat.leb n 90)%bool then ascii_of_nat (n + 32) else c.

Definition isspace (c : ascii) : bool :=
  let n := nat_of_ascii c in
  (Nat.eqb n 32 || (Nat.leb 9 n && Nat.leb n 13))%bool.

Fixpoint lowercase (s : string) : string :=
  match s with
  | EmptyString => EmptyString
  | String c s' => String (tolower c) (lowercase s')
  end.

(** The [erase] of everything after the last non-space character. *)
Fixpoint rtrim (s : string) : string :=
  match s with
  | EmptyString => EmptyString
  | String c s' =>
      match rtrim s' with
      | EmptyString => if isspace c then EmptyString else String c EmptyString
      | t => String c t
      end
  end.

Definition is_empty (s : string) : bool :=
  match s with EmptyString => true | _ => false end.

(** ** Library interfaces *)

(** [std::regex]: construction from a pattern, which throws
    [std::regex_error] on a malformed one ([None]), and [std::regex_search]
    with [match_any]. *)
Class StdRegex : Type := {
  regex : Type;
  regex_compile : string -> option regex;
  regex_search : string -> regex -> bool
}.

(** [sinf] of the C library. *)
Class Libm : Type := {
  sinf : float32 -> float32
}.

(** ** Data model *)

Record cleanstream_audio_info : Type := {
  frames : Z;       (* uint32_t *)
  timestamp : Z     (* uint64_t *)
}.

(** [struct obs_audio_data]: planar samples, one list per channel. *)
Record obs_audio_data : Type := {
  data : list (list float32);
  audio_frames : Z;
  audio_timestamp : Z
}.

Inductive DetectionResult : Type :=
  | DETECTION_RESULT_UNKNOWN
  | DETECTION_RESULT_SILENCE
  | DETECTION_RESULT_SPEECH
  | DETECTION_RESULT_FILLER
  | DETECTION_RESULT_BEEP.

(** The ASR context is opaque; only whether the pointer is null matters. *)
Definition whisper_context_t : Type := unit.

(** [struct cleanstream_data], the fields the pipeline reads or writes.
    [window_frames] is the field [frames] (the name is taken by the
    descriptor's field).  The per-channel arrays are lists indexed by
    channel; [copy_buffers[c]] is the region of [window_frames] floats
    reserved for channel [c]. *)
Record cleanstream_data : Type := {
  channels : nat;
  sample_rate : Z;
  window_frames : Z;
  overlap_frames : Z;
  overlap_ms : Z;
  last_num_frames : Z;
  copy_buffers : list (list float32);
  copy_output_buffers : list (list float32);
  info_buffer : list cleanstream_audio_info;
  info_out_buffer : list cleanstream_audio_info;
  input_buffers : list (list float32);
  output_buffers : list (list float32);
  whisper_context : option whisper_context_t;
  do_silence : bool;
  vad_enabled : bool;
  detect_regex : option string;
  beep_regex : option string;
  active : bool
}.

(** Messages of [warn] and [error]; the [do_log]/[info] tracing, which has
    no effect on the state, is left out. *)
Inductive event : Type :=
  | EvWarn (msg : string)
  | EvError (msg : string)
  | EvWhisperFull (pcm32f_data : list float32)
  | EvWhisperFree.

(** What [whisper_full] does when it is called: it throws, or returns a
    code; the text of segment 0 is what [whisper_full_get_segment_text]
    then gives. *)
Inductive whisper_full_outcome : Type :=
  | WhisperThrows
  | WhisperReturns (code : Z) (segment_text : string).

(** ** Classifier *)

Section Classifier.
Context {R : StdRegex}.

Definition nonempty_pattern (p : option string) : option string :=
  match p with
  | Some s => if is_empty s then None else Some s
  | None => None
  end.

(** The [try] block of [run_whisper_inference]: [None] is the
    [catch (const std::regex_error &)], which leaves the block. *)
Definition regex_detect (detect beep : option string) (text_lower : string)
    : option DetectionResult :=
  match
    match nonempty_pattern detect with
    | Some pat =>
        match regex_compile pat with
        | Some filler_regex => Some (regex_search text_lower filler_regex)
        | None => None
        end
    | None => Some false
    end
  with
  | None => None
  | Some true => Some DETECTION_RESULT_FILLER
  | Some false =>
      match nonempty_pattern beep with
      | Some pat =>
          match regex_compile pat with
          | Some beep_regex =>
              Some (if regex_search text_lower beep_regex
                    then DETECTION_RESULT_BEEP
                    else DETECTION_RESULT_SPEECH)
          | None => None
          end
      | None => Some DETECTION_RESULT_SPEECH
      end
  end.

Definition set_whisper_context (gf : cleanstream_data)
    (ctx : option whisper_context_t) : cleanstream_data :=
  {| channels := channels gf; sample_rate := sample_rate gf;
     window_frames := window_frames gf; overlap_frames := overlap_frames gf;
     overlap_ms := overlap_ms gf; last_num_frames := last_num_frames gf;
     copy_buffers := copy_buffers gf;
     copy_output_buffers := copy_output_buffers gf;
     info_buffer := info_buffer gf; info_out_buffer := info_out_buffer gf;
     input_buffers := input_buffers gf; output_buffers := output_buffers gf;
     whisper_context := ctx;
     do_silence := do_silence gf; vad_enabled := vad_enabled gf;
     detect_regex := detect_regex gf; beep_regex := beep_regex gf;
     active := active gf |}.

(** [run_whisper_inference(gf, pcm32f_data, pcm32f_size)]; [asr] is what
    the ASR engine does if it is called. *)
Definition run_whisper_inference (gf : cleanstream_data)
    (pcm32f_data : list float32) (asr : whisper_full_outcome)
    : cleanstream_data * DetectionResult * list event :=
  match whisper_context gf with
  | None =>
      (gf, DETECTION_RESULT_UNKNOWN, [EvWarn "whisper context is null"])
  | Some _ =>
      match asr with
      | WhisperThrows =>
          (set_whisper_context gf None, DETECTION_RESULT_UNKNOWN,
           [EvWhisperFull pcm32f_data;
            EvError "Whisper exception. Filter restart is required";
            EvWhisperFree])
      | WhisperReturns whisper_full_result text =>
          if negb (whisper_full_result =? 0) then
            (gf, DETECTION_RESULT_UNKNOWN,
             [EvWhisperFull pcm32f_data; EvWarn "failed to process audio"])
          else
            let text_lower := rtrim (lowercase text) in
            if is_empty text_lower then
              (gf, DETECTION_RESULT_SILENCE, [EvWhisperFull pcm32f_data])
            else
              match regex_detect (detect_regex gf) (beep_regex gf) text_lower with
              | Some r => (gf, r, [EvWhisperFull pcm32f_data])
              | None =>
                  (gf, DETECTION_RESULT_SPEECH,
                   [EvWhisperFull pcm32f_data; EvError "Regex error"])
              end
      end
  end.

End Classifier.

(** ** Segment processor *)

(** [for (size_t c = 0; c < channels; c++)] over one or two of the
    per-channel arrays: the first [n] entries are processed in order, the
    others are left as they are. *)
Fixpoint for_channels {A : Type} (n : nat) (f : nat -> A -> option A)
    (c : nat) (xs : list A) : option (list A) :=
  match n with
  | O => Some xs
  | S n' =>
      match xs with
      | x :: xs' =>
          x' <- f c x ;;
          xs'' <- for_channels n' f (S c) xs' ;;
          Some (x' :: xs'')
      | [] => None
      end
  end.

Fixpoint for_channels2 {A B : Type} (n : nat) (f : A -> B -> option (A * B))
    (xs : list A) (ys : list B) : option (list A * list B) :=
  match n with
  | O => Some (xs, ys)
  | S n' =>
      match xs, ys with
      | x :: xs', y :: ys' =>
          '(x', y') <- f x y ;;
          '(xs'', ys'') <- for_channels2 n' f xs' ys' ;;
          Some (x' :: xs'', y' :: ys'')
      | _, _ => None
      end
  end.

(** [circlebuf_pop_front] of [n] entries; the source asserts that they are
    there. *)
Definition circlebuf_pop_front {A : Type} (cb : list A) (n : Z)
    : option (list A * list A) :=
  if n <=? Z.of_nat (length cb)
  then Some (firstn (Z.to_nat n) cb, skipn (Z.to_nat n) cb)
  else None.

Definition circlebuf_push_back {A : Type} (cb : list A) (xs : list A) : list A :=
  cb ++ xs.

Definition circlebuf_push_front {A : Type} (cb : list A) (xs : list A) : list A :=
  xs ++ cb.

(** The frames the next window needs from the input. *)
Definition how_many_frames_needed (gf : cleanstream_data) : Z :=
  if last_num_frames gf =? 0 then window_frames gf
  else wrap64 (window_frames gf - overlap_frames gf).

(** The [while] loop over [info_buffer]: the running
    [num_new_frames_from_infos] and [start_timestamp], and what stays in
    the ring. *)
Fixpoint drain_info_buffer (needed : Z) (buf : list cleanstream_audio_info)
    (num_new_frames_from_infos start_timestamp : Z)
    : Z * Z * list cleanstream_audio_info :=
  match buf with
  | [] => (num_new_frames_from_infos, start_timestamp, [])
  | info_from_buf :: rest =>
      let num_new := wrap32 (num_new_frames_from_infos + frames info_from_buf) in
      let start_timestamp :=
        if start_timestamp =? 0 then timestamp info_from_buf
        else start_timestamp in
      if num_new >? needed then
        (wrap32 (num_new - frames info_from_buf), start_timestamp,
         circlebuf_push_front rest [info_from_buf])
      else drain_info_buffer needed rest num_new start_timestamp
  end.

(** [memcpy(dst + at, src, len(src))] inside the region [dst]. *)
Definition write_at (dst : list float32) (at_ : Z) (src : list float32)
    : option (list float32) :=
  if (0 <=? at_) && (at_ + Z.of_nat (length src) <=? Z.of_nat (length dst))
  then Some (firstn (Z.to_nat at_) dst ++ src
               ++ skipn (Z.to_nat at_ + length src) dst)
  else None.

(** The [len] floats of the region [src] from index [from]. *)
Definition read_at (src : list float32) (from len : Z) : option (list float32) :=
  if (0 <=? from) && (0 <=? len) && (from + len <=? Z.of_nat (length src))
  then Some (firstn (Z.to_nat len) (skipn (Z.to_nat from) src))
  else None.

(** The body of the "Pop from input circlebuf" loop for one channel.  The
    [memcpy] of the overlap is undefined when source and destination
    overlap, that is when [last_num_frames < 2 * overlap_frames]. *)
Definition pop_input_channel (gf : cleanstream_data) (num_new : Z)
    (copy_buffer input_buffer : list float32)
    : option (list float32 * list float32) :=
  if last_num_frames gf >? 0 then
    if (overlap_frames gf =? 0)
       || (overlap_frames gf <=? last_num_frames gf - overlap_frames gf)
    then
      tail <- read_at copy_buffer (last_num_frames gf - overlap_frames gf)
                (overlap_frames gf) ;;
      copy_buffer <- write_at copy_buffer 0 tail ;;
      '(new_data, input_buffer) <- circlebuf_pop_front input_buffer num_new ;;
      copy_buffer <- write_at copy_buffer (overlap_frames gf) new_data ;;
      Some (copy_buffer, input_buffer)
    else None
  else
    '(new_data, input_buffer) <- circlebuf_pop_front input_buffer num_new ;;
    copy_buffer <- write_at copy_buffer 0 new_data ;;
    Some (copy_buffer, input_buffer).

(** [da_copy_array(copy_output_buffers[c], copy_buffers[c], n)]. *)
Definition da_copy_array (copy_buffer : list float32) (n : Z)
    : option (list float32) :=
  read_at copy_buffer 0 n.

(** [for (i = first_boundary; i < num_new; i++) array[i] = value i], with
    [first_boundary = 0]. *)
Definition overwrite_frames (value : Z -> float32) (num_new : Z)
    (array : list float32) : option (list float32) :=
  write_at array 0 (map (fun i => value (Z.of_nat i)) (seq 0 (Z.to_nat num_new))).

Section SegmentProcessor.
Context {R : StdRegex} {M : Libm}.

(** The sample of the 440 Hz tone at index [i]. *)
Definition beep_sample (sample_rate : Z) (i : Z) : float32 :=
  (F32.half *
     sinf (F32.of_Z 2 * F32.M_PI * F32.of_Z 440 * F32.of_Z i
             / F32.of_Z sample_rate))%f32.

(** The branches on [inference_result]. *)
Definition apply_detection (gf : cleanstream_data)
    (inference_result : DetectionResult) (num_new : Z)
    (snapshot : list (list float32)) : option (list (list float32)) :=
  match inference_result with
  | DETECTION_RESULT_FILLER =>
      if do_silence gf
      then for_channels (channels gf)
             (fun _ => overwrite_frames (fun _ => F32.zero) num_new) 0 snapshot
      else Some snapshot
  | DETECTION_RESULT_BEEP =>
      if do_silence gf
      then for_channels (channels gf)
             (fun _ => overwrite_frames (beep_sample (sample_rate gf)) num_new)
             0 snapshot
      else Some snapshot
  | _ => Some snapshot
  end.

(** What one invocation takes from outside the filter: the mono 16 kHz
    buffer the resampler returns for the window, what the ASR engine does
    if called, and the time measured around the processing, in ms. *)
Record window_env : Type := {
  resampled : list float32;
  asr : whisper_full_outcome;
  duration : Z
}.

Definition set_window (gf : cleanstream_data)
    (info : list cleanstream_audio_info)
    (copy input : list (list float32)) (last : Z) : cleanstream_data :=
  {| channels := channels gf; sample_rate := sample_rate gf;
     window_frames := window_frames gf; overlap_frames := overlap_frames gf;
     overlap_ms := overlap_ms gf; last_num_frames := last;
     copy_buffers := copy;
     copy_output_buffers := copy_output_buffers gf;
     info_buffer := info; info_out_buffer := info_out_buffer gf;
     input_buffers := input; output_buffers := output_buffers gf;
     whisper_context := whisper_context gf;
     do_silence := do_silence gf; vad_enabled := vad_enabled gf;
     detect_regex := detect_regex gf; beep_regex := beep_regex gf;
     active := active gf |}.

Definition set_output (gf : cleanstream_data)
    (snapshot : list (list float32))
    (info_out : list cleanstream_audio_info)
    (output : list (list float32)) : cleanstream_data :=
  {| channels := channels gf; sample_rate := sample_rate gf;
     window_frames := window_frames gf; overlap_frames := overlap_frames gf;
     overlap_ms := overlap_ms gf; last_num_frames := last_num_frames gf;
     copy_buffers := copy_buffers gf;
     copy_output_buffers := snapshot;
     info_buffer := info_buffer gf; info_out_buffer := info_out;
     input_buffers := input_buffers gf; output_buffers := output;
     whisper_context := whisper_context gf;
     do_silence := do_silence gf; vad_enabled := vad_enabled gf;
     detect_regex := detect_regex gf; beep_regex := beep_regex gf;
     active := active gf |}.

Definition set_overlap (gf : cleanstream_data) (ms : Z) : cleanstream_data :=
  {| channels := channels gf; sample_rate := sample_rate gf;
     window_frames := window_frames gf;
     overlap_frames := wrap64 (ms * sample_rate gf) / 1000;
     overlap_ms := ms; last_num_frames := last_num_frames gf;
     copy_buffers := copy_buffers gf;
     copy_output_buffers := copy_output_buffers gf;
     info_buffer := info_buffer gf; info_out_buffer := info_out_buffer gf;
     input_buffers := input_buffers gf; output_buffers := output_buffers gf;
     whisper_context := whisper_context gf;
     do_silence := do_silence gf; vad_enabled := vad_enabled gf;
     detect_regex := detect_regex gf; beep_regex := beep_regex gf;
     active := active gf |}.

(** The block under [whisper_buf_mutex]: the window's new frame count
    and start timestamp, and the state with the window staged. *)
Definition assemble_window (gf : cleanstream_data)
    : option (Z * Z * cleanstream_data) :=
  let '(num_new, start_timestamp, info) :=
    drain_info_buffer (how_many_frames_needed gf) (info_buffer gf) 0 0 in
  '(copy, input) <-
    for_channels2 (channels gf) (pop_input_channel gf num_new)
      (copy_buffers gf) (input_buffers gf) ;;
  let last :=
    if last_num_frames gf >? 0 then wrap64 (num_new + overlap_frames gf)
    else num_new in
  Some (num_new, start_timestamp, set_window gf info copy input last).

(** [new_frames_from_infos_ms]. *)
Definition new_frames_ms (gf : cleanstream_data) (num_new : Z) : Z :=
  wrap32 (num_new * 1000) / sample_rate gf.

(** [(uint64_t)((float)new_frames_from_infos_ms * 0.75f)]. *)
Definition three_quarters_of (new_frames_from_infos_ms : Z) : Z :=
  F32.to_Z (F32.of_Z new_frames_from_infos_ms * F32.three_quarters)%f32.

(** The adaptive overlap at the end of the invocation. *)
Definition adapt_overlap (gf : cleanstream_data) (num_new : Z)
    (skipped_inference : bool) (duration : Z) : cleanstream_data :=
  let new_frames_from_infos_ms := new_frames_ms gf num_new in
  if duration >? new_frames_from_infos_ms then
    set_overlap gf (Z.max (wrap64 (overlap_ms gf - 10)) 100)
  else if negb skipped_inference then
    set_overlap gf
      (Z.min (wrap64 (overlap_ms gf + 10))
         (three_quarters_of new_frames_from_infos_ms))
  else gf.

(** The block under [whisper_outbuf_mutex]. *)
Definition publish_window (gf : cleanstream_data) (num_new start_timestamp : Z)
    (snapshot : list (list float32)) : option cleanstream_data :=
  let info_out := {| frames := num_new; timestamp := start_timestamp |} in
  '(_, output) <-
    for_channels2 (channels gf)
      (fun array out =>
         head <- read_at array 0 num_new ;;
         Some (array, circlebuf_push_back out head))
      snapshot (output_buffers gf) ;;
  Some (set_output gf snapshot
          (circlebuf_push_back (info_out_buffer gf) [info_out]) output).

(** The voice-activity gate: the buffer handed to the ASR engine (the
    pre-filter works in place) and [skipped_inference]. *)
Definition vad_gate (env : window_env) (gf : cleanstream_data)
    : option (list float32 * bool) :=
  if vad_enabled gf then
    '(pcm, speech) <-
      vad_simple (resampled env) WHISPER_SAMPLE_RATE VAD_THOLD FREQ_THOLD ;;
    Some (pcm, negb speech)
  else Some (resampled env, false).

(** "copy output buffer before potentially modifying it". *)
Definition snapshot_copy_buffers (gf : cleanstream_data)
    : option (list (list float32)) :=
  '(_, snapshot) <-
    for_channels2 (channels gf)
      (fun copy _ => out <- da_copy_array copy (last_num_frames gf) ;;
                     Some (copy, out))
      (copy_buffers gf) (copy_output_buffers gf) ;;
  Some snapshot.

(** [process_audio_from_buffer(gf)]: one window. *)
Definition process_audio_from_buffer (env : window_env) (gf : cleanstream_data)
    : option (cleanstream_data * list event) :=
  '(num_new, start_timestamp, gf) <- assemble_window gf ;;
  if sample_rate gf =? 0 then None else
  '(output0, skipped_inference) <- vad_gate env gf ;;
  snapshot <- snapshot_copy_buffers gf ;;
  '(gf, snapshot, events) <-
    (if skipped_inference then Some (gf, snapshot, [])
     else
       let '(gf, inference_result, events) :=
         run_whisper_inference gf output0 (asr env) in
       snapshot <- apply_detection gf inference_result num_new snapshot ;;
       Some (gf, snapshot, events)) ;;
  gf <- publish_window gf num_new start_timestamp snapshot ;;
  Some (adapt_overlap gf num_new skipped_inference (duration env), events).

End SegmentProcessor.

(** ** Worker, host entry point, construction *)

Section Filter.
Context {R : StdRegex} {M : Libm}.

(** One pass of the inner loop of [whisper_loop]: a window is processed
    when [input_buffers[0]] holds at least [frames * sizeof(float)]
    bytes.  The flag tells whether one was. *)
Definition whisper_loop_poll (env : window_env) (gf : cleanstream_data)
    : option (cleanstream_data * list event * bool) :=
  let segment_size := wrap64 (window_frames gf * 4) in
  let input_buf_size := 4 * Z.of_nat (length (nth 0 (input_buffers gf) [])) in
  if input_buf_size >=? segment_size then
    '(gf, events) <- process_audio_from_buffer env gf ;;
    Some (gf, events, true)
  else Some (gf, [], false).

(** What [cleanstream_filter_audio] returns: the packet it was given, no
    packet ([NULL]), or [&gf->output_audio]. *)
Inductive filter_result : Type :=
  | PassThrough (audio : obs_audio_data)
  | NoOutput
  | Output (audio : obs_audio_data).

Definition set_input (gf : cleanstream_data)
    (info : list cleanstream_audio_info) (input : list (list float32))
    : cleanstream_data :=
  set_window gf info (copy_buffers gf) input (last_num_frames gf).

(** [cleanstream_filter_audio(data, audio)] for non-null arguments. *)
Definition cleanstream_filter_audio (gf : cleanstream_data)
    (audio : obs_audio_data) : option (cleanstream_data * filter_result) :=
  if negb (active gf) then Some (gf, PassThrough audio) else
  match whisper_context gf with
  | None => Some (gf, PassThrough audio)
  | Some _ =>
      '(_, input) <-
        for_channels2 (channels gf)
          (fun samples cb =>
             pushed <- read_at samples 0 (audio_frames audio) ;;
             Some (samples, circlebuf_push_back cb pushed))
          (data audio) (input_buffers gf) ;;
      let info := {| frames := audio_frames audio;
                     timestamp := audio_timestamp audio |} in
      let gf := set_input gf (circlebuf_push_back (info_buffer gf) [info]) input in
      match info_out_buffer gf with
      | [] => Some (gf, NoOutput)
      | info_out :: info_out_rest =>
          '(popped, output) <-
            for_channels2 (channels gf)
              (fun _ cb =>
                 '(samples, cb) <- circlebuf_pop_front cb (frames info_out) ;;
                 Some (samples, cb))
              (repeat [] (channels gf)) (output_buffers gf) ;;
          Some (set_output gf (copy_output_buffers gf) info_out_rest output,
                Output {| data := popped;
                          audio_frames := frames info_out;
                          audio_timestamp := timestamp info_out |})
      end
  end.

(** [cleanstream_create] followed by the assignments of
    [cleanstream_update], for a model that loaded. *)
Definition cleanstream_create (n_channels : nat) (rate : Z)
    (silence vad : bool) (detect beep : option string) : cleanstream_data :=
  let n_frames :=
    F32.to_Z (F32.of_Z rate / (F32.of_Z 1000 / F32.of_Z BUFFER_SIZE_MSEC))%f32 in
  {| channels := n_channels; sample_rate := rate;
     window_frames := n_frames;
     overlap_frames :=
       F32.to_Z (F32.of_Z rate / (F32.of_Z 1000 / F32.of_Z OVERLAP_SIZE_MSEC))%f32;
     overlap_ms := OVERLAP_SIZE_MSEC;
     last_num_frames := 0;
     copy_buffers := repeat (repeat F32.zero (Z.to_nat n_frames)) n_channels;
     copy_output_buffers := repeat [] n_channels;
     info_buffer := []; info_out_buffer := [];
     input_buffers := repeat [] n_channels;
     output_buffers := repeat [] n_channels;
     whisper_context := Some tt;
     do_silence := silence; vad_enabled := vad;
     detect_regex := detect; beep_regex := beep;
     active := true |}.

End Filter.

(** ** Traces *)

(** The host pushes a packet, or the worker polls once. *)
Inductive action : Type :=
  | Push (audio : obs_audio_data)
  | Poll (env : window_env).

(** Running a trace: the final state and the packets handed back to the
    host, in order. *)
Fixpoint run_trace {R : StdRegex} {M : Libm} (gf : cleanstream_data)
    (tr : list action) : option (cleanstream_data * list obs_audio_data) :=
  match tr with
  | [] => Some (gf, [])
  | Push audio :: tr' =>
      '(gf, res) <- cleanstream_filter_audio gf audio ;;
      '(gf, outs) <- run_trace gf tr' ;;
      Some (gf, match res with
                | Output o | PassThrough o => o :: outs
                | NoOutput => outs
                end)
  | Poll env :: tr' =>
      '(gf, _, _) <- whisper_loop_poll env gf ;;
      run_trace gf tr'
  end.

(** ** Instances for the examples *)

(** [std::regex] restricted to what the examples use: the pattern ["("]
    is malformed (an unmatched parenthesis, [error_paren]); a pattern of
    letters is searched as a substring. *)
Definition literal_regex : StdRegex :=
  {| regex := string;
     regex_compile := fun p => if String.eqb p "(" then None else Some p;
     regex_search := fun text p =>
       match index 0 p text with Some _ => true | None => false end |}.

(** The examples never produce a tone, so [sinf] is not reached. *)
Definition no_tone : Libm := {| sinf := fun x => x |}.

(** [n] consecutive sample values starting at [start]. *)
Definition ramp (start : Z) (n : nat) : list float32 :=
  map (fun i => F32.of_Z (start + Z.of_nat i)) (seq 0 n).

(** A filter for one channel at 1 kHz, with the voice-activity gate off:
    windows of 1010 frames, an initial overlap of 340 frames. *)
Definition example_filter (detect beep : option string) : cleanstream_data :=
  cleanstream_create 1 1000 true false detect beep.

(** A packet of [n] frames holding the sample values [first], [first + 1],
    ... *)
Definition example_packet (first : Z) (n : nat) (ts : Z) : obs_audio_data :=
  {| data := [ramp first n]; audio_frames := Z.of_nat n; audio_timestamp := ts |}.

(** Packets [from], ..., [from + count - 1] of a stream cut into packets of
    10 frames (10 ms): packet [k] holds the samples [10 k + 1 .. 10 k + 10]
    and is stamped [k * 10^7] ns, so the stream starts at timestamp 0. *)
Definition small_packets (from count : nat) : list action :=
  map (fun k => Push (example_packet (1 + 10 * Z.of_nat k) 10
                        (10000000 * Z.of_nat k)))
    (seq from count).

(** The ASR engine stubbed to an empty transcript (SILENCE), to a filler,
    to an error code; the processing takes 5 ms. *)
Definition silence_env : window_env :=
  {| resampled := []; asr := WhisperReturns 0 ""; duration := 5 |}.

Definition filler_env : window_env :=
  {| resampled := []; asr := WhisperReturns 0 "Um"; duration := 5 |}.

Definition failing_env : window_env :=
  {| resampled := []; asr := WhisperReturns 1 ""; duration := 5 |}.

Definition swearing_env : window_env :=
  {| resampled := []; asr := WhisperReturns 0 "Damn it "; duration := 5 |}.

(** The state a trace leads to (the initial state if the trace does not
    run through). *)
Definition state_after {R : StdRegex} {M : Libm} (gf : cleanstream_data)
    (tr : list action) : cleanstream_data :=
  match run_trace gf tr with
  | Some (gf', _) => gf'
  | None => gf
  end.

(** The samples of channel 0 in the packets handed back to the host. *)
Definition published (outs : list obs_audio_data) : list float32 :=
  concat (map (fun o => nth 0 (data o) []) outs).

(** An observation of the state and of the packets handed back at the end
    of a trace that runs through. *)
Definition observe {R : StdRegex} {M : Libm} {A : Type}
    (f : cleanstream_data -> list obs_audio_data -> A)
    (gf : cleanstream_data) (tr : list action) : option A :=
  option_map (fun r => f (fst r) (snd r)) (run_trace gf tr).

(** Two windows of a stream classified SILENCE throughout, and one more
    packet to pull the second window's output. *)
Definition two_silent_windows : list action :=
  small_packets 0 101 ++ [Poll silence_env]
    ++ small_packets 101 101 ++ [Poll silence_env]
    ++ small_packets 202 1.

(** The first window of the same stream, and one more packet to pull its
    output. *)
Definition first_window : list action :=
  small_packets 0 101 ++ [Poll silence_env] ++ small_packets 101 1.

(** The stream up to the point where the second window is due. *)
Definition until_second_window : list action :=
  small_packets 0 101 ++ [Poll silence_env] ++ small_packets 101 101.

(** A stream of uneven packets: after a first window of 1010 frames, a
    packet of 10 frames followed by packets of 1000 frames.  The second
    window takes the 10 frames, in 5 ms of processing (or in 100 ms, in
    the slow variant); the third takes one packet of 1000, in 2 s. *)
Definition uneven_second_window : list action :=
  small_packets 0 101 ++ [Poll silence_env]
    ++ [Push (example_packet 1011 10 1010000000);
        Push (example_packet 1021 1000 1020000000);
        Poll silence_env].

Definition uneven_second_window_slow : list action :=
  small_packets 0 101 ++ [Poll silence_env]
    ++ [Push (example_packet 1011 10 1010000000);
        Push (example_packet 1021 1000 1020000000);
        Poll {| resampled := []; asr := WhisperReturns 0 ""; duration := 100 |}].

Definition uneven_third_window : list action :=
  uneven_second_window
    ++ [Push (example_packet 2021 1000 2020000000);
        Poll {| resampled := []; asr := WhisperReturns 0 ""; duration := 2000 |}].

(** 100 packets of 10 frames and one of 20: the last one straddles the
    end of the first window. *)
Definition straddling_stream : list action :=
  small_packets 0 100 ++ [Push (example_packet 1001 20 1000000000)].

(** The descriptors of the first 100 packets of the stream. *)
Definition hundred_descriptors : list cleanstream_audio_info :=
  map (fun k => {| frames := 10; timestamp := 10000000 * Z.of_nat k |})
    (seq 0 100).

(** ** Reference definitions *)

(** The loop as a stream: the neighbour it subtracts is the value stored
    at [i - 1], which from the second iteration on is the previous
    output. *)
Fixpoint high_pass_in_place_from (alpha y stored_prev : float32)
    (xs : list float32) : list float32 :=
  match xs with
  | [] => []
  | x :: xs' =>
      let y' := (alpha * (y + x - stored_prev))%f32 in
      y' :: high_pass_in_place_from alpha y' y' xs'
  end.

(** The normalisation of the specification, in its own terms: the
    letters A to Z in lower case, and the text without the whitespace
    (space, tab, line feed, vertical tab, form feed, carriage return) at
    its end. *)
Definition ascii_lower (c : ascii) : ascii :=
  match c with
  | "A" => "a" | "B" => "b" | "C" => "c" | "D" => "d" | "E" => "e"
  | "F" => "f" | "G" => "g" | "H" => "h" | "I" => "i" | "J" => "j"
  | "K" => "k" | "L" => "l" | "M" => "m" | "N" => "n" | "O" => "o"
  | "P" => "p" | "Q" => "q" | "R" => "r" | "S" => "s" | "T" => "t"
  | "U" => "u" | "V" => "v" | "W" => "w" | "X" => "x" | "Y" => "y"
  | "Z" => "z"
  | _ => c
  end%char.

Definition ascii_whitespace (c : ascii) : bool :=
  match c with
  | " " | "009" | "010" | "011" | "012" | "013" => true
  | _ => false
  end%char.

Fixpoint lowercased (s : string) : string :=
  match s with
  | EmptyString => EmptyString
  | String c s' => String (ascii_lower c) (lowercased s')
  end.

Fixpoint only_whitespace (s : string) : bool :=
  match s with
  | EmptyString => true
  | String c s' => ascii_whitespace c && only_whitespace s'
  end.

(** The characters of [s] up to the point from which only whitespace
    follows. *)
Fixpoint right_trimmed (s : string) : string :=
  match s with
  | EmptyString => EmptyString
  | String c s' =>
      if only_whitespace s then EmptyString else String c (right_trimmed s')
  end.

(** The decision order of the specification, on the normalised text: a
    pattern matches when it is non-empty, compiles, and is found. *)
Section ClassifierReference.
Context {R : StdRegex}.

(** "A non-empty regex that matches anywhere", and a non-empty regex that
    is not a regular expression. *)
Definition matches_anywhere (p : option string) (text : string) : bool :=
  match p with
  | Some (String c rest) =>
      match regex_compile (String c rest) with
      | Some r => regex_search text r
      | None => false
      end
  | _ => false
  end.

Definition fails_to_compile (p : option string) : bool :=
  match p with
  | Some (String c rest) =>
      match regex_compile (String c rest) with
      | Some _ => false
      | None => true
      end
  | _ => false
  end.

Definition pattern_matches (p : option string) (text : string) : bool :=
  match nonempty_pattern p with
  | Some pat =>
      match regex_compile pat with
      | Some r => regex_search text r
      | None => false
      end
  | None => false
  end.

Definition pattern_compiles (p : option string) : Prop :=
  match nonempty_pattern p with
  | Some pat => regex_compile pat <> None
  | None => True
  end.

Definition pattern_malformed (p : option string) : Prop :=
  exists pat, nonempty_pattern p = Some pat /\ regex_compile pat = None.

Definition classify_in_order (detect beep : option string) (text : string)
    : DetectionResult :=
  match text with
  | EmptyString => DETECTION_RESULT_SILENCE
  | _ =>
      if matches_anywhere detect text then DETECTION_RESULT_FILLER
      else if matches_anywhere beep text then DETECTION_RESULT_BEEP
      else DETECTION_RESULT_SPEECH
  end.

(** The classification [run_whisper_inference] returns. *)
Definition classification (gf : cleanstream_data) (pcm : list float32)
    (asr : whisper_full_outcome) : DetectionResult :=
  snd (fst (run_whisper_inference gf pcm asr)).

End ClassifierReference.

(** The start timestamp the drain keeps: the first non-zero timestamp
    among the descriptors it pops, 0 standing for "not set yet". *)
Definition latch_timestamp (start_timestamp : Z)
    (popped : list cleanstream_audio_info) : Z :=
  fold_left (fun ts i => if ts =? 0 then timestamp i else ts)
    popped start_timestamp.

(** What the window assembly takes from the descriptor ring. *)
Definition window_new_frames (gf : cleanstream_data) : Z :=
  fst (fst (drain_info_buffer (how_many_frames_needed gf) (info_buffer gf) 0 0)).

Definition window_start_timestamp (gf : cleanstream_data) : Z :=
  snd (fst (drain_info_buffer (how_many_frames_needed gf) (info_buffer gf) 0 0)).

Definition window_remaining_infos (gf : cleanstream_data)
    : list cleanstream_audio_info :=
  snd (drain_info_buffer (how_many_frames_needed gf) (info_buffer gf) 0 0).

Definition sum_frames (infos : list cleanstream_audio_info) : Z :=
  fold_right (fun i acc => frames i + acc) 0 infos.

(** A state in which one invocation of the segment processor stays inside
    its buffers: a non-zero rate, one buffer per channel in each array,
    staging regions of [window_frames] floats, the frames the window takes
    queued in every input ring, and, after the first window, an overlap
    that fits twice into the previous window (so that the [memcpy] of the
    overlap is defined). *)
Record window_ready (gf : cleanstream_data) : Prop := {
  ready_rate : sample_rate gf <> 0;
  ready_copy : length (copy_buffers gf) = channels gf;
  ready_snapshot : length (copy_output_buffers gf) = channels gf;
  ready_input : length (input_buffers gf) = channels gf;
  ready_output : length (output_buffers gf) = channels gf;
  ready_regions :
    Forall (fun b => Z.of_nat (length b) = window_frames gf) (copy_buffers gf);
  ready_queued :
    Forall (fun b => window_new_frames gf <= Z.of_nat (length b))
      (input_buffers gf);
  ready_window : 0 <= window_frames gf < 2 ^ 64;
  ready_last : 0 <= last_num_frames gf;
  ready_overlap :
    0 < last_num_frames gf ->
    0 <= overlap_frames gf
    /\ 2 * overlap_frames gf <= last_num_frames gf <= window_frames gf
}.

(** The frame count the assembly commits as [last_num_frames]. *)
Definition committed_frames (gf : cleanstream_data) : Z :=
  if last_num_frames gf >? 0
  then window_new_frames gf + overlap_frames gf
  else window_new_frames gf.

(** What staging leaves in one channel's region: on every window but the
    first, the last [overlap_frames] frames of the previous window at the
    head; then the new frames; then what the region held before. *)
Definition staged_region (gf : cleanstream_data) (num_new : Z)
    (copy input : list float32) : list float32 :=
  if last_num_frames gf >? 0 then
    firstn (Z.to_nat (overlap_frames gf))
      (skipn (Z.to_nat (last_num_frames gf - overlap_frames gf)) copy)
    ++ firstn (Z.to_nat num_new) input
    ++ skipn (Z.to_nat (overlap_frames gf) + Z.to_nat num_new) copy
  else firstn (Z.to_nat num_new) input ++ skipn (Z.to_nat num_new) copy.

(** The window of [gf] published as it was staged, leading to [gf']: one
    descriptor with the window's frame count and start timestamp joins the
    output metadata ring and, in every channel, the snapshot is the staged
    region, unmodified, and the output ring gains its first [num_new]
    frames. *)
Definition published_as_staged (gf gf' : cleanstream_data) : Prop :=
  info_out_buffer gf'
  = info_out_buffer gf
      ++ [{| frames := window_new_frames gf;
             timestamp := window_start_timestamp gf |}]
  /\ forall c copy input output,
       nth_error (copy_buffers gf) c = Some copy ->
       nth_error (input_buffers gf) c = Some input ->
       nth_error (output_buffers gf) c = Some output ->
       let staged := staged_region gf (window_new_frames gf) copy input in
       nth_error (copy_output_buffers gf') c
       = Some (firstn (Z.to_nat (committed_frames gf)) staged)
       /\ nth_error (output_buffers gf') c
          = Some (output ++ firstn (Z.to_nat (window_new_frames gf)) staged).

(** [window_ready], decided. *)
Definition window_readyb (gf : cleanstream_data) : bool :=
  negb (sample_rate gf =? 0)
  && Nat.eqb (length (copy_buffers gf)) (channels gf)
  && Nat.eqb (length (copy_output_buffers gf)) (channels gf)
  && Nat.eqb (length (input_buffers gf)) (channels gf)
  && Nat.eqb (length (output_buffers gf)) (channels gf)
  && forallb (fun b => Z.of_nat (length b) =? window_frames gf) (copy_buffers gf)
  && forallb (fun b => window_new_frames gf <=? Z.of_nat (length b))
       (input_buffers gf)
  && (0 <=? window_frames gf) && (window_frames gf <? 2 ^ 64)
  && (0 <=? last_num_frames gf)
  && ((last_num_frames gf <=? 0)
      || ((0 <=? overlap_frames gf)
          && (2 * overlap_frames gf <=? last_num_frames gf)
          && (last_num_frames gf <=? window_frames gf))).

(** The gate reads inside the buffer the resampler returned: with the
    gate on, [vad_simple] starts by reading the first sample, so the
    buffer must hold one. *)
Definition gate_in_bounds (env : window_env) (gf : cleanstream_data) : Prop :=
  vad_enabled gf = true -> resampled env <> [].

(** What the gate returns when it reads inside the buffer: the buffer
    handed on and [skipped_inference]. *)
Definition gate_outcome (env : window_env) (gf : cleanstream_data)
    : list float32 * bool :=
  match vad_gate env gf with
  | Some outcome => outcome
  | None => (resampled env, false)
  end.

Section ProcessorReference.
Context {R : StdRegex} {M : Libm}.

(** One window published as it was staged: the assembly, the snapshot,
    the publication of the snapshot and the overlap update, with no
    classification in between. *)
Definition publish_untransformed (skipped_inference : bool) (duration : Z)
    (gf : cleanstream_data) : option cleanstream_data :=
  '(num_new, start_timestamp, gf) <- assemble_window gf ;;
  if sample_rate gf =? 0 then None else
  snapshot <- snapshot_copy_buffers gf ;;
  gf <- publish_window gf num_new start_timestamp snapshot ;;
  Some (adapt_overlap gf num_new skipped_inference duration).

(** The value the FILLER and BEEP branches store at index [i]. *)
Definition replacement_sample (gf : cleanstream_data) (r : DetectionResult)
    (i : Z) : float32 :=
  match r with
  | DETECTION_RESULT_BEEP => beep_sample (sample_rate gf) i
  | _ => F32.zero
  end.

(** An array with its first [num_new] entries replaced. *)
Definition overwritten (gf : cleanstream_data) (r : DetectionResult)
    (num_new : Z) (array : list float32) : list float32 :=
  map (fun i => replacement_sample gf r (Z.of_nat i)) (seq 0 (Z.to_nat num_new))
  ++ skipn (Z.to_nat num_new) array.

(** An ASR outcome that classifies as [r] and leaves the state alone, in
    every state configured as [gf]. *)
Definition classified_as (gf : cleanstream_data) (asr : whisper_full_outcome)
    (r : DetectionResult) : Prop :=
  forall staged pcm,
    whisper_context staged = whisper_context gf ->
    detect_regex staged = detect_regex gf ->
    beep_regex staged = beep_regex gf ->
    fst (run_whisper_inference staged pcm asr) = (staged, r).

(** The overlap controller on its own: what it reads of one window,
    and its run over a sequence of windows. *)
Record window_timing : Type := {
  timing_num_new : Z;
  timing_skipped : bool;
  timing_duration : Z
}.

Definition adapt_overlap_window (gf : cleanstream_data) (w : window_timing)
    : cleanstream_data :=
  adapt_overlap gf (timing_num_new w) (timing_skipped w) (timing_duration w).

Definition adapt_overlap_over (gf : cleanstream_data)
    (ws : list window_timing) : cleanstream_data :=
  fold_left adapt_overlap_window ws gf.

Definition window_new_ms (gf : cleanstream_data) (w : window_timing) : Z :=
  new_frames_ms gf (timing_num_new w).

(** The window takes the "increase" branch. *)
Definition raises_overlap (gf : cleanstream_data) (w : window_timing) : bool :=
  negb (timing_duration w >? window_new_ms gf w) && negb (timing_skipped w).

(** The window takes the "decrease" branch. *)
Definition lowers_overlap (gf : cleanstream_data) (w : window_timing) : bool :=
  timing_duration w >? window_new_ms gf w.

(** [three_quarters_of m] is the integer part of [0.75 * m] for each of
    the [k] values of [m] from [n] on. *)
Fixpoint three_quarters_exact_from (k : nat) (n : Z) : bool :=
  match k with
  | O => true
  | S k' =>
      (three_quarters_of n =? 3 * n / 4)
      && three_quarters_exact_from k' (n + 1)
  end.

End ProcessorReference.

(** * Further definitions *)

(** Strings of whitespace, and the last character of a string. *)
Fixpoint all_space (s : string) : bool :=
  match s with
  | EmptyString => true
  | String c s' => isspace c && all_space s'
  end.

Fixpoint last_char (s : string) : option ascii :=
  match s with
  | EmptyString => None
  | String c EmptyString => Some c
  | String _ s' => last_char s'
  end.

(** One window taken from [gf], leading to [gf']: what an invocation of
    the segment processor does to the rings and the staging buffers
    whatever the classification. *)
Definition window_taken (gf gf' : cleanstream_data) : Prop :=
  channels gf' = channels gf
  /\ sample_rate gf' = sample_rate gf
  /\ window_frames gf' = window_frames gf
  /\ info_buffer gf' = window_remaining_infos gf
  /\ input_buffers gf'
     = map (skipn (Z.to_nat (window_new_frames gf))) (input_buffers gf)
  /\ info_out_buffer gf'
     = info_out_buffer gf
         ++ [{| frames := window_new_frames gf;
                timestamp := window_start_timestamp gf |}]
  /\ output_buffers gf'
     = map (fun os => fst os
                      ++ firstn (Z.to_nat (window_new_frames gf)) (snd os))
         (combine (output_buffers gf) (copy_output_buffers gf'))
  /\ last_num_frames gf' = committed_frames gf
  /\ length (copy_buffers gf') = channels gf
  /\ Forall (fun b => Z.of_nat (length b) = window_frames gf) (copy_buffers gf')
  /\ length (copy_output_buffers gf') = channels gf
  /\ Forall (fun b => Z.of_nat (length b) = committed_frames gf)
       (copy_output_buffers gf').

(** The rings agree with their descriptors: there is one input and one
    output ring per channel, every input ring holds the frames the queued
    input descriptors announce, every output ring the frames the queued
    output descriptors announce. *)
Definition rings_consistent (gf : cleanstream_data) : Prop :=
  length (input_buffers gf) = channels gf
  /\ length (output_buffers gf) = channels gf
  /\ Forall (fun i => 0 <= frames i) (info_buffer gf)
  /\ Forall (fun i => 0 <= frames i) (info_out_buffer gf)
  /\ Forall (fun b => Z.of_nat (length b) = sum_frames (info_buffer gf))
       (input_buffers gf)
  /\ Forall (fun b => Z.of_nat (length b) = sum_frames (info_out_buffer gf))
       (output_buffers gf).

(** A packet the host may hand to a filter of [n] channels: one plane per
    channel, each with the [frames] samples the packet announces. *)
Definition packet_fits (n : nat) (audio : obs_audio_data) : Prop :=
  0 <= audio_frames audio
  /\ length (data audio) = n
  /\ Forall (fun plane => audio_frames audio <= Z.of_nat (length plane))
       (data audio).

(** [MAX_PREPROC_CHANNELS], the number of entries of the per-channel
    arrays of [struct cleanstream_data]. *)
Definition MAX_PREPROC_CHANNELS : nat := 2.

(** A state of the pipeline fed with packets of at most 100 ms: a rate
    between 1 kHz and 192 kHz, the window of [BUFFER_SIZE_MSEC] at that
    rate, consistent rings, staging regions in place, queued packets of at
    most [sample_rate / 10] frames, and an overlap between 100 ms and
    440 ms (at most 430 ms before the first window) that fits twice into the
    previous window. *)
Record pipeline_steady (gf : cleanstream_data) : Prop := {
  steady_rate : 1000 <= sample_rate gf <= 192000;
  steady_channels : (channels gf <= MAX_PREPROC_CHANNELS)%nat;
  steady_window :
    window_frames gf = sample_rate gf * BUFFER_SIZE_MSEC / 1000;
  steady_rings : rings_consistent gf;
  steady_copy : length (copy_buffers gf) = channels gf;
  steady_snapshot : length (copy_output_buffers gf) = channels gf;
  steady_regions :
    Forall (fun b => Z.of_nat (length b) = window_frames gf) (copy_buffers gf);
  steady_packets :
    Forall (fun i => frames i <= sample_rate gf / 10) (info_buffer gf);
  steady_overlap_ms : 100 <= overlap_ms gf <= 440;
  steady_overlap_frames :
    overlap_frames gf = overlap_ms gf * sample_rate gf / 1000;
  steady_first : last_num_frames gf = 0 -> overlap_ms gf <= 430;
  steady_last :
    last_num_frames gf = 0
    \/ 2 * overlap_frames gf <= last_num_frames gf <= window_frames gf
}.

(** A push of a packet that fits the filter and carries at most 100 ms, or
    a poll of the worker in any environment. *)
Definition steady_action (gf : cleanstream_data) (a : action) : Prop :=
  match a with
  | Push audio =>
      packet_fits (channels gf) audio
      /\ audio_frames audio <= sample_rate gf / 10
  | Poll _ => True
  end.

(** The same, where every poll comes with an environment in which the
    gate reads inside the resampled buffer. *)
Definition in_bounds_action (gf : cleanstream_data) (a : action) : Prop :=
  match a with
  | Push audio => steady_action gf (Push audio)
  | Poll env => gate_in_bounds env gf
  end.

(** Not-a-number samples. *)
Definition is_nan (x : float32) : bool :=
  match x with S754_nan => true | _ => false end.

(** [p] holds for each of the [k] integers from [n] on. *)
Fixpoint holds_from (p : Z -> bool) (k : nat) (n : Z) : bool :=
  match k with
  | O => true
  | S k' => p n && holds_from p k' (n + 1)
  end.

Section WindowReference.
Context {R : StdRegex} {M : Libm}.

(** Whether an invocation that was or was not skipped, and classified
    its window as [r], replaces audio. *)
Definition replaces_audio (gf : cleanstream_data) (skipped : bool)
    (r : DetectionResult) : bool :=
  negb skipped && do_silence gf
  && match r with
     | DETECTION_RESULT_FILLER | DETECTION_RESULT_BEEP => true
     | _ => false
     end.

(** The snapshot of one channel, from its staged region. *)
Definition window_snapshot (gf : cleanstream_data) (skipped : bool)
    (r : DetectionResult) (staged : list float32) : list float32 :=
  let snapshot := firstn (Z.to_nat (committed_frames gf)) staged in
  if replaces_audio gf skipped r
  then overwritten gf r (window_new_frames gf) snapshot
  else snapshot.

(** The classification of the window one invocation assembles. *)
Definition window_classification (env : window_env) (gf : cleanstream_data)
    : DetectionResult :=
  classification gf (fst (gate_outcome env gf)) (asr env).

End WindowReference.

(** [cleanstream_activate] and [cleanstream_deactivate]. *)
Definition set_active (gf : cleanstream_data) (b : bool) : cleanstream_data :=
  {| channels := channels gf; sample_rate := sample_rate gf;
     window_frames := window_frames gf; overlap_frames := overlap_frames gf;
     overlap_ms := overlap_ms gf; last_num_frames := last_num_frames gf;
     copy_buffers := copy_buffers gf;
     copy_output_buffers := copy_output_buffers gf;
     info_buffer := info_buffer gf; info_out_buffer := info_out_buffer gf;
     input_buffers := input_buffers gf; output_buffers := output_buffers gf;
     whisper_context := whisper_context gf;
     do_silence := do_silence gf; vad_enabled := vad_enabled gf;
     detect_regex := detect_regex gf; beep_regex := beep_regex gf;
     active := b |}.

Definition cleanstream_activate (gf : cleanstream_data) : cleanstream_data :=
  set_active gf true.

Definition cleanstream_deactivate (gf : cleanstream_data) : cleanstream_data :=
  set_active gf false.

(** The frames the host pushes along a trace, the frames of the packets
    handed back, and the frames announced by the descriptors queued on
    either side of the worker. *)
Definition pushed_frames (tr : list action) : Z :=
  fold_right (fun a acc => match a with
                           | Push audio => audio_frames audio + acc
                           | Poll _ => acc
                           end) 0 tr.

Definition returned_frames (outs : list obs_audio_data) : Z :=
  fold_right (fun o acc => audio_frames o + acc) 0 outs.

Definition frames_in_flight (gf : cleanstream_data) : Z :=
  sum_frames (info_buffer gf) + sum_frames (info_out_buffer gf).

(** The sample rates in common use, among them the two OBS offers
    (44.1 kHz and 48 kHz) and the ASR engine's 16 kHz. *)
Definition standard_rates : list Z :=
  [8000; 11025; 16000; 22050; 32000; 44100; 48000; 88200; 96000; 176400;
   192000].

(** ** Word boundaries *)

(** The [n] floats of [pcmf32] from index [window_i] that the two energy
    loops read; nothing is read when [n] is 0. *)
Definition read_window (pcmf32 : list float32) (window_i n : Z)
    : option (list float32) :=
  if n =? 0 then Some [] else read_at pcmf32 window_i n.

(** [avg_energy_in_window(pcmf32, window_i, n_samples_window)]. *)
Definition avg_energy_in_window (pcmf32 : list float32)
    (window_i n_samples_window : Z) : option float32 :=
  window <- read_window pcmf32 window_i n_samples_window ;;
  Some (fold_left (fun e x => (e + F32.abs x)%f32) window F32.zero
        / F32.of_Z n_samples_window)%f32.

(** [max_energy_in_window(pcmf32, window_i, n_samples_window)];
    [std::max(a, b)] is [a < b ? b : a]. *)
Definition max_energy_in_window (pcmf32 : list float32)
    (window_i n_samples_window : Z) : option float32 :=
  window <- read_window pcmf32 window_i n_samples_window ;;
  Some (fold_left (fun e x => if F32.ltb e (F32.abs x) then F32.abs x else e)
          window F32.zero).

(** [word_boundary_simple(pcmf32, pcm32f_size, sample_rate, thold,
    verbose)], with [pcm32f_size] the length of the list.  [None] stands
    for a read outside the buffer and for the logging loop of the verbose
    mode when it does not end (its step [n_samples_window] is 0 and the
    buffer is not empty). *)
Definition word_boundary_simple (pcmf32 : list float32) (sample_rate : Z)
    (thold : float32) (verbose : bool) : option Z :=
  let pcm32f_size := Z.of_nat (length pcmf32) in
  let n_samples_window := wrap32 (sample_rate * 50) / 1000 in
  first_window_energy <- avg_energy_in_window pcmf32 0 n_samples_window ;;
  last_window_energy <-
    avg_energy_in_window pcmf32 (wrap64 (pcm32f_size - n_samples_window))
      n_samples_window ;;
  max_energy_in_middle <-
    max_energy_in_window pcmf32 n_samples_window
      (wrap64 (pcm32f_size - n_samples_window)) ;;
  if verbose && (n_samples_window =? 0) && (0 <? pcm32f_size) then None else
  let max_energy_thold := (max_energy_in_middle * thold)%f32 in
  if F32.ltb first_window_energy max_energy_thold
     && F32.ltb last_window_energy max_energy_thold
  then Some n_samples_window
  else Some 0.

(** ** Timestamps of the log *)

(** [(int)x] for a 64-bit [x], [int] being 32 bits wide. *)
Definition to_int (x : Z) : Z := (x + 2 ^ 31) mod 2 ^ 32 - 2 ^ 31.

Definition decimal_digit (d : Z) : ascii := ascii_of_nat (48 + Z.to_nat d).

(** The decimal digits of a non-negative integer in front of [acc]. *)
Fixpoint decimal_digits (fuel : nat) (n : Z) (acc : string) : string :=
  match fuel with
  | O => acc
  | S fuel' =>
      let acc := String (decimal_digit (n mod 10)) acc in
      if n <? 10 then acc else decimal_digits fuel' (n / 10) acc
  end.

Fixpoint zeros (k : nat) : string :=
  match k with
  | O => EmptyString
  | S k' => String "0" (zeros k')
  end.

(** The conversion [%0<width>d] of [printf] for an [int]: the sign, then
    zeros up to the width, then the digits. *)
Definition printf_0d (width : nat) (n : Z) : string :=
  let digits := decimal_digits 10 (Z.abs n) EmptyString in
  let sign := if n <? 0 then "-"%string else EmptyString in
  (sign ++ zeros (width - String.length sign - String.length digits)
     ++ digits)%string.

(** The three fields [to_timestamp] prints: [min], [sec] and [msec]. *)
Definition timestamp_fields (t : Z) : Z * Z * Z :=
  let sec := Z.quot t 100 in
  let msec := t - sec * 100 in
  let min := Z.quot sec 60 in
  let sec := sec - min * 60 in
  (min, sec, msec).

(** [to_timestamp(t)] for an [int64_t] [t]: [snprintf] into 32 bytes with
    the format ["%02d:%02d.%03d"]. *)
Definition to_timestamp (t : Z) : string :=
  let '(min, sec, msec) := timestamp_fields t in
  substring 0 31
    (printf_0d 2 (to_int min) ++ ":" ++ printf_0d 2 (to_int sec) ++ "."
       ++ printf_0d 3 (to_int msec))%string.

(** Two decimal digits. *)
Definition two_digits (n : Z) : string :=
  String (decimal_digit (n / 10)) (String (decimal_digit (n mod 10)) EmptyString).

(** [packet_fits], decided. *)
Definition packet_fitsb (n : nat) (audio : obs_audio_data) : bool :=
  (0 <=? audio_frames audio)
  && Nat.eqb (length (data audio)) n
  && forallb (fun plane => audio_frames audio <=? Z.of_nat (length plane))
       (data audio).

(** ** Further examples *)

(** The example filter with the voice-activity gate on, and with
    [do_silence] off. *)
Definition gated_filter : cleanstream_data :=
  cleanstream_create 1 1000 true true None None.

Definition unsilenced_filter : cleanstream_data :=
  cleanstream_create 1 1000 false false (Some "um"%string) None.

(** The resampler returns 16 samples of digital silence; the ASR engine
    throws whenever it is called. *)
Definition silent_input_env : window_env :=
  {| resampled := repeat F32.zero 16; asr := WhisperThrows; duration := 5 |}.

Definition throwing_env : window_env :=
  {| resampled := []; asr := WhisperThrows; duration := 5 |}.

(** One packet of 2000 frames, longer than the window of 1010. *)
Definition oversized_stream : list action :=
  [Push (example_packet 1 2000 0)].

(** A filter for one channel at 8 kHz (a window of 8080 frames), and a
    stream cut into packets of 800 frames, 100 ms each: packet [k] holds
    the samples [800 k + 1 .. 800 k + 800]. *)
Definition telephone_filter : cleanstream_data :=
  cleanstream_create 1 8000 true false (Some "um"%string) None.

Definition telephone_packet (k : nat) : obs_audio_data :=
  example_packet (1 + 800 * Z.of_nat k) 800 (100000000 * Z.of_nat k).

Definition telephone_packets (from count : nat) : list action :=
  map (fun k => Push (telephone_packet k)) (seq from count).

(** An environment as [env] in which the resampler returns 16 samples,
    loud enough for the gate to let the window through. *)
Definition heard (env : window_env) : window_env :=
  {| resampled := ramp 1 16; asr := asr env; duration := duration env |}.

(** The 1 kHz filter with the gate on and its first window queued, and
    the telephone filter with the gate on. *)
Definition gated_window_queued {R : StdRegex} {M : Libm}
    (detect beep : option string) : cleanstream_data :=
  state_after (cleanstream_create 1 1000 true true detect beep)
    (small_packets 0 101).

Definition gated_telephone_filter : cleanstream_data :=
  cleanstream_create 1 8000 true true (Some "um"%string) None.

(** * Properties *)

(** ** The high-pass pre-filter *)

Lemma rd_app_mid (pre : list float32) (v : float32) (post : list float32) :
  rd (pre ++ v :: post) (length pre) = v.
Proof.
  unfold rd. rewrite app_nth2 by lia. now rewrite Nat.sub_diag.
Qed.

Lemma wr_app_mid (pre : list float32) (v w : float32) (post : list float32) :
  wr (pre ++ v :: post) (length pre) w = pre ++ w :: post.
Proof.
  induction pre as [|p pre IH]; simpl; [reflexivity | now rewrite IH].
Qed.

Lemma high_pass_loop (alpha : float32) (xs : list float32) :
  forall (pre : list float32) (y prev : float32),
    snd (fold_left (high_pass_step alpha)
           (seq (S (length pre)) (length xs)) (y, pre ++ prev :: xs))
    = pre ++ prev :: high_pass_in_place_from alpha y prev xs.
Proof.
  induction xs as [|x xs IH]; intros pre y prev; [reflexivity|].
  cbn [length seq fold_left high_pass_step].
  replace (S (length pre) - 1)%nat with (length pre) by lia.
  rewrite rd_app_mid.
  replace (pre ++ prev :: x :: xs) with ((pre ++ [prev]) ++ x :: xs)
    by now rewrite <- app_assoc.
  replace (S (length pre)) with (length (pre ++ [prev]))
    by (rewrite length_app; simpl; lia).
  rewrite rd_app_mid, wr_app_mid.
  rewrite IH. cbn [high_pass_in_place_from].
  now rewrite <- app_assoc.
Qed.

(** What [high_pass_filter] computes on a non-empty buffer. *)
Lemma high_pass_filter_in_place (x0 : float32) (xs : list float32)
    (cutoff : float32) (sample_rate : Z) :
  high_pass_filter (x0 :: xs) cutoff sample_rate
  = Some (x0 :: high_pass_in_place_from (hp_alpha cutoff sample_rate) x0 x0 xs).
Proof.
  unfold high_pass_filter. cbn [length nth_error].
  replace (S (length xs) - 1)%nat with (length xs) by lia.
  f_equal. exact (high_pass_loop _ xs [] x0 x0).
Qed.

(** The first sample passes through, and the second agrees with the
    reference recurrence: the two part at index 2. *)
Lemma high_pass_filter_first_two (x0 x1 : float32) (xs : list float32)
    (cutoff : float32) (sample_rate : Z) :
  option_map (firstn 2) (high_pass_filter (x0 :: x1 :: xs) cutoff sample_rate)
  = Some (firstn 2 (high_pass_reference (x0 :: x1 :: xs) cutoff sample_rate)).
Proof.
  now rewrite high_pass_filter_in_place.
Qed.

(** C4. On the buffer [1.0, 2.0, 4.0], filtered as the voice-activity gate
    does (cutoff 100 Hz at 16 kHz), [high_pass_filter] stores
    [alpha * 4.0] at index 2, where the recurrence over the original
    samples, [y[2] = alpha * (y[1] + x[2] - x[1])], gives
    [alpha * (2 * alpha + 2.0)]: the loop subtracts the already filtered
    [pcmf32[1]] instead of the original [x[1]]. *)
Theorem high_pass_filter_subtracts_filtered_sample :
  let x := [F32.of_Z 1; F32.of_Z 2; F32.of_Z 4] in
  let alpha := hp_alpha FREQ_THOLD WHISPER_SAMPLE_RATE in
  high_pass_filter x FREQ_THOLD WHISPER_SAMPLE_RATE
    = Some [F32.of_Z 1; (alpha * F32.of_Z 2)%f32; (alpha * F32.of_Z 4)%f32]
  /\ high_pass_reference x FREQ_THOLD WHISPER_SAMPLE_RATE
    = [F32.of_Z 1; (alpha * F32.of_Z 2)%f32;
       (alpha * (alpha * F32.of_Z 2 + F32.of_Z 2))%f32]
  /\ high_pass_filter x FREQ_THOLD WHISPER_SAMPLE_RATE
     <> Some (high_pass_reference x FREQ_THOLD WHISPER_SAMPLE_RATE).
Proof.
  vm_compute. repeat split; discriminate.
Qed.

(** ** The classifier *)

Section ClassifierProperties.
Context {R : StdRegex}.

Lemma ascii_lower_tolower (c : ascii) : ascii_lower c = tolower c.
Proof. destruct c as [[] [] [] [] [] [] [] []]; reflexivity. Qed.

Lemma ascii_whitespace_isspace (c : ascii) : ascii_whitespace c = isspace c.
Proof. destruct c as [[] [] [] [] [] [] [] []]; reflexivity. Qed.

Lemma lowercased_lowercase (s : string) : lowercased s = lowercase s.
Proof.
  induction s as [|c s IH]; [reflexivity|].
  cbn [lowercased lowercase]. now rewrite ascii_lower_tolower, IH.
Qed.

(** The [erase] of the source removes the whitespace at the end, and
    leaves nothing exactly when the text is whitespace throughout. *)
Lemma right_trimmed_rtrim (s : string) :
  right_trimmed s = rtrim s /\ only_whitespace s = is_empty (rtrim s).
Proof.
  induction s as [|c s [IHt IHw]]; [split; reflexivity|].
  cbn [right_trimmed only_whitespace rtrim].
  rewrite IHt, IHw, ascii_whitespace_isspace.
  destruct (rtrim s) as [|a t]; cbn [is_empty].
  - rewrite andb_true_r. destruct (isspace c); split; reflexivity.
  - rewrite andb_false_r. split; reflexivity.
Qed.

Lemma normalised_as_specified (text : string) :
  rtrim (lowercase text) = right_trimmed (lowercased text).
Proof.
  rewrite lowercased_lowercase. symmetry. apply right_trimmed_rtrim.
Qed.

Lemma matches_anywhere_nonempty (p : option string) (text : string) :
  matches_anywhere p text
  = match nonempty_pattern p with
    | Some pat =>
        match regex_compile pat with
        | Some r => regex_search text r
        | None => false
        end
    | None => false
    end.
Proof. destruct p as [[|c rest]|]; reflexivity. Qed.

Lemma fails_to_compile_nonempty (p : option string) :
  fails_to_compile p
  = match nonempty_pattern p with
    | Some pat =>
        match regex_compile pat with Some _ => false | None => true end
    | None => false
    end.
Proof. destruct p as [[|c rest]|]; reflexivity. Qed.

(** The [try] block decides in the order of the specification unless the
    filler pattern fails to compile; then it is left at once. *)
Lemma regex_detect_in_order (detect beep : option string) (text : string) :
  match regex_detect detect beep text with
  | Some r => r
  | None => DETECTION_RESULT_SPEECH
  end
  = if fails_to_compile detect then DETECTION_RESULT_SPEECH
    else if matches_anywhere detect text then DETECTION_RESULT_FILLER
    else if matches_anywhere beep text then DETECTION_RESULT_BEEP
    else DETECTION_RESULT_SPEECH.
Proof.
  rewrite fails_to_compile_nonempty, !matches_anywhere_nonempty.
  unfold regex_detect.
  destruct (nonempty_pattern detect) as [pd|].
  - destruct (regex_compile pd) as [rd_|]; [|reflexivity].
    destruct (regex_search text rd_); [reflexivity|].
    destruct (nonempty_pattern beep) as [pb|]; [|reflexivity].
    destruct (regex_compile pb) as [rb|]; [|reflexivity].
    now destruct (regex_search text rb).
  - destruct (nonempty_pattern beep) as [pb|]; [|reflexivity].
    destruct (regex_compile pb) as [rb|]; [|reflexivity].
    now destruct (regex_search text rb).
Qed.

Lemma regex_detect_no_filler (detect beep : option string) (text : string) :
  nonempty_pattern detect = None ->
  regex_detect detect beep text <> Some DETECTION_RESULT_FILLER.
Proof.
  unfold regex_detect. intros ->.
  destruct (nonempty_pattern beep) as [pb|]; [|discriminate].
  destruct (regex_compile pb) as [rb|]; [|discriminate].
  destruct (regex_search text rb); discriminate.
Qed.

(** C5, as the code has it.  With a loaded ASR context and a result code
    of 0, the text is lowercased and right-trimmed, and the classification
    follows the fixed order SILENCE (empty text), FILLER (the filler
    pattern matches), BEEP (the beep pattern matches), SPEECH, with one
    exception: a non-empty filler pattern that is not a regular
    expression makes every non-empty text SPEECH, whether or not the beep
    pattern matches.  With [detect_regex] empty (or null) no ASR outcome
    whatever is classified FILLER, whatever [beep_regex] is. *)
Theorem classifier_decides_in_order (gf : cleanstream_data)
    (pcm : list float32) (text : string) :
  whisper_context gf <> None ->
  classification gf pcm (WhisperReturns 0 text)
  = match right_trimmed (lowercased text) with
    | EmptyString => DETECTION_RESULT_SILENCE
    | normalised =>
        if fails_to_compile (detect_regex gf) then DETECTION_RESULT_SPEECH
        else classify_in_order (detect_regex gf) (beep_regex gf) normalised
    end
  /\ (detect_regex gf = None \/ detect_regex gf = Some EmptyString ->
      forall asr, classification gf pcm asr <> DETECTION_RESULT_FILLER).
Proof.
  intros Hctx. unfold classification, run_whisper_inference.
  destruct (whisper_context gf) as [ctx|]; [clear Hctx | congruence].
  split.
  - cbn. rewrite <- normalised_as_specified.
    destruct (rtrim (lowercase text)) as [|c normalised] eqn:Hn;
      [reflexivity|].
    cbn [is_empty classify_in_order].
    rewrite <- regex_detect_in_order.
    now destruct (regex_detect _ _ _).
  - intros Hd [|code text']; cbn; [discriminate|].
    destruct (negb (code =? 0)); [discriminate|].
    destruct (is_empty _); [discriminate|].
    assert (nonempty_pattern (detect_regex gf) = None) as Hnone
      by (destruct Hd as [-> | ->]; reflexivity).
    pose proof (regex_detect_no_filler _ (beep_regex gf)
                  (rtrim (lowercase text')) Hnone) as Hn.
    destruct (regex_detect _ _ _) as [r|]; cbn; [congruence | discriminate].
Qed.

(** A pattern that fails to compile ends the detection with SPEECH. *)
Lemma regex_failure_speech (gf : cleanstream_data)
    (pcm : list float32) (text : string) :
  whisper_context gf <> None ->
  is_empty (rtrim (lowercase text)) = false ->
  pattern_malformed (detect_regex gf)
  \/ (pattern_compiles (detect_regex gf)
      /\ pattern_matches (detect_regex gf) (rtrim (lowercase text)) = false
      /\ pattern_malformed (beep_regex gf)) ->
  run_whisper_inference gf pcm (WhisperReturns 0 text)
  = (gf, DETECTION_RESULT_SPEECH, [EvWhisperFull pcm; EvError "Regex error"]).
Proof.
  intros Hctx He Hbad. unfold run_whisper_inference.
  destruct (whisper_context gf) as [ctx|]; [clear Hctx | congruence].
  cbn. rewrite He.
  assert (regex_detect (detect_regex gf) (beep_regex gf)
            (rtrim (lowercase text)) = None) as ->; [|reflexivity].
  unfold regex_detect.
  destruct Hbad as [(pd & Hpd & Hcd) | (Hc & Hm & pb & Hpb & Hcb)].
  - now rewrite Hpd, Hcd.
  - unfold pattern_compiles, pattern_matches in Hc, Hm.
    destruct (nonempty_pattern (detect_regex gf)) as [pd|].
    + destruct (regex_compile pd) as [rd_|]; [|congruence].
      rewrite Hm. now rewrite Hpb, Hcb.
    + now rewrite Hpb, Hcb.
Qed.

End ClassifierProperties.

(** ** Buffers *)

Lemma read_at_defined (src : list float32) (from len : Z) :
  0 <= from -> 0 <= len -> from + len <= Z.of_nat (length src) ->
  exists r, read_at src from len = Some r /\ Z.of_nat (length r) = len.
Proof.
  intros Hf Hl Hb. unfold read_at.
  replace ((0 <=? from) && (0 <=? len) && (from + len <=? Z.of_nat (length src)))
    with true by (symmetry; rewrite !andb_true_iff, !Z.leb_le; lia).
  eexists; split; [reflexivity|].
  rewrite length_firstn, length_skipn. lia.
Qed.

Lemma write_at_defined (dst : list float32) (at_ : Z) (src : list float32) :
  0 <= at_ -> at_ + Z.of_nat (length src) <= Z.of_nat (length dst) ->
  exists r, write_at dst at_ src = Some r /\ length r = length dst.
Proof.
  intros Ha Hb. unfold write_at.
  replace ((0 <=? at_) && (at_ + Z.of_nat (length src) <=? Z.of_nat (length dst)))
    with true by (symmetry; rewrite andb_true_iff, !Z.leb_le; lia).
  eexists; split; [reflexivity|].
  rewrite !length_app, length_firstn, length_skipn. lia.
Qed.

Lemma circlebuf_pop_front_defined {A : Type} (cb : list A) (n : Z) :
  0 <= n <= Z.of_nat (length cb) ->
  circlebuf_pop_front cb n
  = Some (firstn (Z.to_nat n) cb, skipn (Z.to_nat n) cb)
  /\ Z.of_nat (length (firstn (Z.to_nat n) cb)) = n.
Proof.
  intros Hn. unfold circlebuf_pop_front.
  replace (n <=? Z.of_nat (length cb)) with true
    by (symmetry; rewrite Z.leb_le; lia).
  split; [reflexivity|]. rewrite length_firstn. lia.
Qed.

(** A loop over all the channels succeeds when its body does on every
    pair of buffers, and its results are related as the body relates
    them. *)
Lemma for_channels2_all {A B : Type} (f : A -> B -> option (A * B))
    (P : A -> Prop) (Q : B -> Prop)
    (RA : A -> A -> Prop) (RB : B -> B -> Prop) :
  (forall x y, P x -> Q y ->
     exists x' y', f x y = Some (x', y') /\ RA x x' /\ RB y y') ->
  forall n xs ys,
    length xs = n -> length ys = n -> Forall P xs -> Forall Q ys ->
    exists xs' ys',
      for_channels2 n f xs ys = Some (xs', ys')
      /\ Forall2 RA xs xs' /\ Forall2 RB ys ys'.
Proof.
  intros Hf. induction n as [|n IH]; intros xs ys Hx Hy HP HQ.
  - destruct xs, ys; try discriminate. now exists [], [].
  - destruct xs as [|x xs], ys as [|y ys]; try discriminate.
    inversion HP; inversion HQ; subst.
    destruct (Hf x y) as (x' & y' & Hxy & Ha & Hb); trivial.
    destruct (IH xs ys) as (xs' & ys' & Hrec & Has & Hbs); auto.
    exists (x' :: xs'), (y' :: ys'). cbn. rewrite Hxy, Hrec. auto.
Qed.

Lemma Forall2_length_eq {A B : Type} (Rel : A -> B -> Prop) xs ys :
  Forall2 Rel xs ys -> length ys = length xs.
Proof. induction 1; simpl; congruence. Qed.

Lemma Forall2_Forall_r {A B : Type} (Rel : A -> B -> Prop) (P : B -> Prop) xs ys :
  Forall2 Rel xs ys -> (forall x y, Rel x y -> P y) -> Forall P ys.
Proof. induction 1; intros; constructor; eauto. Qed.

Lemma Forall2_map_r {A : Type} (h : A -> A) xs ys :
  Forall2 (fun x y => y = h x) xs ys -> ys = map h xs.
Proof. induction 1; simpl; congruence. Qed.

(** ** The descriptor drain *)

Lemma wrap32_small (z : Z) : 0 <= z < 2 ^ 32 -> wrap32 z = z.
Proof. apply Z.mod_small. Qed.

Lemma wrap64_small (z : Z) : 0 <= z < 2 ^ 64 -> wrap64 z = z.
Proof. apply Z.mod_small. Qed.

Lemma wrap32_range (z : Z) : 0 <= wrap32 z < 2 ^ 32.
Proof. apply Z.mod_pos_bound. lia. Qed.

Lemma wrap32_undo (acc f : Z) :
  0 <= acc < 2 ^ 32 -> wrap32 (wrap32 (acc + f) - f) = acc.
Proof.
  intros H. unfold wrap32. rewrite Zminus_mod_idemp_l.
  replace (acc + f - f) with acc by lia. now apply Z.mod_small.
Qed.

Lemma drain_info_buffer_bounds (needed : Z) (buf : list cleanstream_audio_info) :
  forall acc ts,
    0 <= acc <= needed -> acc < 2 ^ 32 ->
    0 <= fst (fst (drain_info_buffer needed buf acc ts)) <= needed.
Proof.
  induction buf as [|i buf IH]; intros acc ts Ha Hb; cbn; [lia|].
  destruct (Z.gtb_spec (wrap32 (acc + frames i)) needed) as [Hgt|Hle]; cbn.
  - rewrite wrap32_undo; lia.
  - pose proof (wrap32_range (acc + frames i)). apply IH; lia.
Qed.

(** The drain on a ring whose descriptors [pre] fit and whose next one,
    [p], does not. *)
Lemma drain_info_buffer_straddle (needed : Z) (p : cleanstream_audio_info)
    (rest : list cleanstream_audio_info) :
  forall (pre : list cleanstream_audio_info) (acc ts : Z),
    0 <= acc ->
    Forall (fun i => 0 <= frames i) pre -> 0 <= frames p ->
    acc + sum_frames pre <= needed ->
    needed < acc + sum_frames pre + frames p < 2 ^ 32 ->
    drain_info_buffer needed (pre ++ p :: rest) acc ts
    = (acc + sum_frames pre, latch_timestamp ts (pre ++ [p]), p :: rest).
Proof.
  induction pre as [|i pre IH]; intros acc ts Ha Hpre Hp Hfit Hover.
  - change (sum_frames []) with 0 in *. rewrite Z.add_0_r in *.
    cbn [app drain_info_buffer circlebuf_push_front].
    rewrite (wrap32_small (acc + frames p)) by lia.
    destruct (Z.gtb_spec (acc + frames p) needed); [|lia].
    replace (acc + frames p - frames p) with acc by lia.
    rewrite wrap32_small by lia. reflexivity.
  - inversion Hpre as [|? ? Hi Hpre']; subst.
    change (sum_frames (i :: pre)) with (frames i + sum_frames pre) in *.
    assert (0 <= sum_frames pre) as Hs.
    { clear -Hpre'. induction Hpre' as [|j l Hj _ IHl]; [cbn; lia|].
      change (sum_frames (j :: l)) with (frames j + sum_frames l). lia. }
    cbn [app drain_info_buffer circlebuf_push_front].
    rewrite (wrap32_small (acc + frames i)) by lia.
    destruct (Z.gtb_spec (acc + frames i) needed); [lia|].
    rewrite IH; trivial; try lia.
    f_equal. f_equal. lia.
Qed.

(** A start timestamp that is set stays. *)
Lemma drain_info_buffer_keeps_timestamp (needed : Z)
    (buf : list cleanstream_audio_info) :
  forall acc ts,
    ts <> 0 -> snd (fst (drain_info_buffer needed buf acc ts)) = ts.
Proof.
  induction buf as [|i buf IH]; intros acc ts Hts; [reflexivity|].
  cbn [drain_info_buffer].
  apply Z.eqb_neq in Hts as Hts'. rewrite Hts'.
  destruct (_ >? _); [reflexivity | now apply IH].
Qed.

(** A window is stamped with the timestamp of the first descriptor popped
    when that timestamp is not 0. *)
Lemma window_start_timestamp_first (gf : cleanstream_data)
    (i : cleanstream_audio_info) (rest : list cleanstream_audio_info) :
  info_buffer gf = i :: rest ->
  timestamp i <> 0 ->
  window_start_timestamp gf = timestamp i.
Proof.
  intros Hbuf Hts. unfold window_start_timestamp. rewrite Hbuf.
  cbn [drain_info_buffer Z.eqb].
  destruct (_ >? _); [reflexivity|].
  now apply drain_info_buffer_keeps_timestamp.
Qed.

(** ** Window assembly *)

Lemma needed_frames_range (gf : cleanstream_data) :
  window_ready gf ->
  0 <= how_many_frames_needed gf
  /\ (0 < last_num_frames gf ->
      how_many_frames_needed gf = window_frames gf - overlap_frames gf)
  /\ (last_num_frames gf = 0 -> how_many_frames_needed gf = window_frames gf).
Proof.
  intros H. unfold how_many_frames_needed.
  pose proof (ready_window gf H). pose proof (ready_last gf H).
  destruct (Z.eqb_spec (last_num_frames gf) 0) as [E|E].
  - repeat split; lia.
  - destruct (ready_overlap gf H) as (? & ? & ?); [lia|].
    rewrite wrap64_small by lia. repeat split; lia.
Qed.

Lemma window_new_frames_range (gf : cleanstream_data) :
  window_ready gf ->
  0 <= window_new_frames gf <= how_many_frames_needed gf.
Proof.
  intros H. destruct (needed_frames_range gf H) as (Hn & _).
  apply drain_info_buffer_bounds; lia.
Qed.

Lemma pop_input_channel_defined (gf : cleanstream_data)
    (copy input : list float32) :
  window_ready gf ->
  Z.of_nat (length copy) = window_frames gf ->
  window_new_frames gf <= Z.of_nat (length input) ->
  exists copy',
    pop_input_channel gf (window_new_frames gf) copy input
    = Some (copy', skipn (Z.to_nat (window_new_frames gf)) input)
    /\ Z.of_nat (length copy') = window_frames gf.
Proof.
  intros H Hc Hq.
  pose proof (window_new_frames_range gf H) as Hn.
  destruct (needed_frames_range gf H) as (_ & Hlater & Hfirst).
  pose proof (ready_last gf H) as Hl.
  set (n := window_new_frames gf) in *.
  destruct (circlebuf_pop_front_defined input n) as (Hpop & Hlen); [lia|].
  unfold pop_input_channel.
  destruct (Z.gtb_spec (last_num_frames gf) 0) as [Hpos|Hzero].
  - destruct (ready_overlap gf H) as (Ho & Ho2 & Hw); [lia|].
    replace ((overlap_frames gf =? 0)
             || (overlap_frames gf <=? last_num_frames gf - overlap_frames gf))
      with true
      by (symmetry; rewrite orb_true_iff, Z.leb_le; right; lia).
    destruct (read_at_defined copy (last_num_frames gf - overlap_frames gf)
                (overlap_frames gf)) as (tail & -> & Ht); try lia.
    destruct (write_at_defined copy 0 tail) as (c1 & -> & Hc1); try lia.
    rewrite Hpop.
    destruct (write_at_defined c1 (overlap_frames gf)
                (firstn (Z.to_nat n) input)) as (c2 & -> & Hc2); try lia.
    exists c2. split; [reflexivity | lia].
  - rewrite Hpop.
    destruct (write_at_defined copy 0 (firstn (Z.to_nat n) input))
      as (c1 & -> & Hc1); try lia.
    exists c1. split; [reflexivity | lia].
Qed.

Lemma drain_info_buffer_window (gf : cleanstream_data) :
  drain_info_buffer (how_many_frames_needed gf) (info_buffer gf) 0 0
  = (window_new_frames gf, window_start_timestamp gf, window_remaining_infos gf).
Proof.
  unfold window_new_frames, window_start_timestamp, window_remaining_infos.
  now destruct (drain_info_buffer _ _ _ _) as [[n ts] rest].
Qed.

Lemma committed_frames_range (gf : cleanstream_data) :
  window_ready gf ->
  window_new_frames gf <= committed_frames gf <= window_frames gf.
Proof.
  intros H. unfold committed_frames.
  pose proof (window_new_frames_range gf H) as Hn.
  destruct (needed_frames_range gf H) as (_ & Hlater & Hfirst).
  pose proof (ready_last gf H).
  destruct (Z.gtb_spec (last_num_frames gf) 0).
  - destruct (ready_overlap gf H) as (? & ? & ?); lia.
  - lia.
Qed.

Lemma assemble_window_shape (gf staged : cleanstream_data) (n ts : Z) :
  assemble_window gf = Some (n, ts, staged) ->
  exists info copy input last, staged = set_window gf info copy input last.
Proof.
  unfold assemble_window.
  destruct (drain_info_buffer _ _ _ _) as [[n' ts'] info].
  destruct (for_channels2 _ _ _ _) as [[copy input]|]; [|discriminate].
  intros [= <- <- <-]. eauto.
Qed.

Lemma assemble_window_defined (gf : cleanstream_data) :
  window_ready gf ->
  exists copy,
    assemble_window gf
    = Some (window_new_frames gf, window_start_timestamp gf,
            set_window gf (window_remaining_infos gf) copy
              (map (skipn (Z.to_nat (window_new_frames gf))) (input_buffers gf))
              (committed_frames gf))
    /\ length copy = channels gf
    /\ Forall (fun b => Z.of_nat (length b) = window_frames gf) copy.
Proof.
  intros H. unfold assemble_window. rewrite drain_info_buffer_window.
  destruct (for_channels2_all (pop_input_channel gf (window_new_frames gf))
              (fun b => Z.of_nat (length b) = window_frames gf)
              (fun b => window_new_frames gf <= Z.of_nat (length b))
              (fun _ b' => Z.of_nat (length b') = window_frames gf)
              (fun b b' => b' = skipn (Z.to_nat (window_new_frames gf)) b))
    with (n := channels gf) (xs := copy_buffers gf) (ys := input_buffers gf)
    as (copy & input & -> & Hcopy & Hinput).
  - intros x y Hx Hy.
    destruct (pop_input_channel_defined gf x y H Hx Hy) as (c & Hc & Hl).
    eauto.
  - apply (ready_copy gf H).
  - apply (ready_input gf H).
  - apply (ready_regions gf H).
  - apply (ready_queued gf H).
  - exists copy. rewrite (Forall2_map_r _ _ _ Hinput).
    split; [|split].
    + unfold committed_frames.
      destruct (Z.gtb_spec (last_num_frames gf) 0); [|reflexivity].
      pose proof (window_new_frames_range gf H).
      destruct (needed_frames_range gf H) as (_ & Hlater & _).
      pose proof (ready_window gf H).
      destruct (ready_overlap gf H) as (? & ? & ?); [lia|].
      rewrite wrap64_small by lia. reflexivity.
    + rewrite (Forall2_length_eq _ _ _ Hcopy). apply (ready_copy gf H).
    + apply (Forall2_Forall_r _ _ _ _ Hcopy). auto.
Qed.

Lemma snapshot_copy_buffers_defined (gf : cleanstream_data) :
  length (copy_buffers gf) = channels gf ->
  length (copy_output_buffers gf) = channels gf ->
  0 <= last_num_frames gf ->
  Forall (fun b => last_num_frames gf <= Z.of_nat (length b)) (copy_buffers gf) ->
  exists snapshot,
    snapshot_copy_buffers gf = Some snapshot
    /\ length snapshot = channels gf
    /\ Forall (fun b => Z.of_nat (length b) = last_num_frames gf) snapshot.
Proof.
  intros Hc Ho Hl Hr. unfold snapshot_copy_buffers.
  destruct (for_channels2_all
              (fun copy (_ : list float32) =>
                 out <- da_copy_array copy (last_num_frames gf) ;;
                 Some (copy, out))
              (fun b => last_num_frames gf <= Z.of_nat (length b))
              (fun _ => True)
              (fun _ _ => True)
              (fun _ b' => Z.of_nat (length b') = last_num_frames gf))
    with (n := channels gf) (xs := copy_buffers gf)
         (ys := copy_output_buffers gf)
    as (copy & snapshot & -> & _ & Hs); trivial.
  - intros x y Hx _. unfold da_copy_array.
    destruct (read_at_defined x 0 (last_num_frames gf)) as (r & -> & Hlen);
      try lia.
    eauto.
  - now apply Forall_forall.
  - exists snapshot. split; [reflexivity|]. split.
    + now rewrite (Forall2_length_eq _ _ _ Hs).
    + apply (Forall2_Forall_r _ _ _ _ Hs). auto.
Qed.

Lemma publish_window_defined (gf : cleanstream_data) (num_new ts : Z)
    (snapshot : list (list float32)) :
  length snapshot = channels gf ->
  length (output_buffers gf) = channels gf ->
  0 <= num_new ->
  Forall (fun b => num_new <= Z.of_nat (length b)) snapshot ->
  exists output,
    publish_window gf num_new ts snapshot
    = Some (set_output gf snapshot
              (info_out_buffer gf
                 ++ [{| frames := num_new; timestamp := ts |}]) output)
    /\ length output = channels gf.
Proof.
  intros Hs Ho Hn Hr. unfold publish_window.
  destruct (for_channels2_all
              (fun array out =>
                 head <- read_at array 0 num_new ;;
                 Some (array, circlebuf_push_back out head))
              (fun b => num_new <= Z.of_nat (length b))
              (fun _ => True)
              (fun _ _ => True) (fun _ _ => True))
    with (n := channels gf) (xs := snapshot) (ys := output_buffers gf)
    as (arrays & output & -> & _ & Hout); trivial.
  - intros x y Hx _.
    destruct (read_at_defined x 0 num_new) as (r & -> & _); try lia.
    eauto.
  - now apply Forall_forall.
  - exists output. split; [reflexivity|].
    now rewrite (Forall2_length_eq _ _ _ Hout).
Qed.

Lemma for_channels2_nth {A B : Type} (f : A -> B -> option (A * B)) :
  forall n xs ys xs' ys',
    for_channels2 n f xs ys = Some (xs', ys') ->
    forall c x y,
      (c < n)%nat -> nth_error xs c = Some x -> nth_error ys c = Some y ->
      exists x' y',
        f x y = Some (x', y')
        /\ nth_error xs' c = Some x' /\ nth_error ys' c = Some y'.
Proof.
  induction n as [|n IH]; intros xs ys xs' ys' Hf c x y Hc Hx Hy; [lia|].
  destruct xs as [|x0 xs], ys as [|y0 ys]; try discriminate.
  cbn in Hf.
  destruct (f x0 y0) as [[x0' y0']|] eqn:H0; [|discriminate].
  destruct (for_channels2 n f xs ys) as [[xs'' ys'']|] eqn:Hrec; [|discriminate].
  injection Hf as <- <-.
  destruct c as [|c]; cbn in Hx, Hy |- *.
  - injection Hx as <-. injection Hy as <-. eauto.
  - apply (IH xs ys xs'' ys'' Hrec c x y); trivial. lia.
Qed.

Lemma pop_input_channel_staged (gf : cleanstream_data)
    (copy input : list float32) :
  window_ready gf ->
  Z.of_nat (length copy) = window_frames gf ->
  window_new_frames gf <= Z.of_nat (length input) ->
  pop_input_channel gf (window_new_frames gf) copy input
  = Some (staged_region gf (window_new_frames gf) copy input,
          skipn (Z.to_nat (window_new_frames gf)) input).
Proof.
  intros H Hc Hq.
  pose proof (window_new_frames_range gf H) as Hn.
  destruct (needed_frames_range gf H) as (_ & Hlater & Hfirst).
  pose proof (ready_last gf H) as Hl.
  set (n := window_new_frames gf) in *.
  destruct (circlebuf_pop_front_defined input n) as (Hpop & Hlen); [lia|].
  assert (length (firstn (Z.to_nat n) input) = Z.to_nat n) as Hlen' by lia.
  unfold pop_input_channel, staged_region.
  destruct (Z.gtb_spec (last_num_frames gf) 0) as [Hpos|Hzero].
  - destruct (ready_overlap gf H) as (Ho & Ho2 & Hw); [lia|].
    replace ((overlap_frames gf =? 0)
             || (overlap_frames gf <=? last_num_frames gf - overlap_frames gf))
      with true
      by (symmetry; rewrite orb_true_iff, Z.leb_le; right; lia).
    set (tail := firstn (Z.to_nat (overlap_frames gf))
                   (skipn (Z.to_nat (last_num_frames gf - overlap_frames gf))
                      copy)).
    assert (length tail = Z.to_nat (overlap_frames gf)) as Ht.
    { unfold tail. rewrite length_firstn, length_skipn. lia. }
    assert (read_at copy (last_num_frames gf - overlap_frames gf)
              (overlap_frames gf) = Some tail) as ->.
    { unfold read_at.
      replace ((0 <=? last_num_frames gf - overlap_frames gf)
               && (0 <=? overlap_frames gf)
               && (last_num_frames gf - overlap_frames gf + overlap_frames gf
                   <=? Z.of_nat (length copy)))
        with true
        by (symmetry; rewrite !andb_true_iff, !Z.leb_le; lia).
      reflexivity. }
    assert (write_at copy 0 tail
            = Some (tail ++ skipn (Z.to_nat (overlap_frames gf)) copy)) as ->.
    { unfold write_at.
      replace ((0 <=? 0)
               && (0 + Z.of_nat (length tail) <=? Z.of_nat (length copy)))
        with true
        by (symmetry; rewrite andb_true_iff, !Z.leb_le; lia).
      rewrite Ht. reflexivity. }
    rewrite Hpop. unfold write_at.
    replace ((0 <=? overlap_frames gf)
             && (overlap_frames gf
                   + Z.of_nat (length (firstn (Z.to_nat n) input))
                 <=? Z.of_nat
                       (length
                          (tail ++ skipn (Z.to_nat (overlap_frames gf)) copy))))
      with true
      by (symmetry; rewrite andb_true_iff, !Z.leb_le, length_app, length_skipn;
          lia).
    rewrite Hlen'.
    rewrite firstn_app, Ht, Nat.sub_diag, firstn_O, app_nil_r.
    rewrite (firstn_all2 tail) by lia.
    rewrite skipn_app, Ht.
    rewrite (skipn_all2 tail) by lia.
    rewrite skipn_skipn.
    replace (Z.to_nat (overlap_frames gf) + Z.to_nat n
             - Z.to_nat (overlap_frames gf)
             + Z.to_nat (overlap_frames gf))%nat
      with (Z.to_nat (overlap_frames gf) + Z.to_nat n)%nat by lia.
    reflexivity.
  - rewrite Hpop. unfold write_at.
    replace ((0 <=? 0)
             && (0 + Z.of_nat (length (firstn (Z.to_nat n) input))
                 <=? Z.of_nat (length copy)))
      with true
      by (symmetry; rewrite andb_true_iff, !Z.leb_le; lia).
    rewrite Hlen'. reflexivity.
Qed.

(** ** One window *)

Section ProcessorProperties.
Context {R : StdRegex} {M : Libm}.

Lemma adapt_overlap_buffers (gf : cleanstream_data) (n : Z) (s : bool) (d : Z) :
  let gf' := adapt_overlap gf n s d in
  info_buffer gf' = info_buffer gf
  /\ info_out_buffer gf' = info_out_buffer gf
  /\ input_buffers gf' = input_buffers gf
  /\ output_buffers gf' = output_buffers gf
  /\ copy_buffers gf' = copy_buffers gf
  /\ copy_output_buffers gf' = copy_output_buffers gf
  /\ last_num_frames gf' = last_num_frames gf
  /\ whisper_context gf' = whisper_context gf.
Proof.
  unfold adapt_overlap.
  destruct (d >? new_frames_ms gf n); [cbn; tauto|].
  destruct (negb s); cbn; tauto.
Qed.

Lemma vad_gate_staged (env : window_env) (gf : cleanstream_data)
    info copy input last :
  vad_gate env (set_window gf info copy input last) = vad_gate env gf.
Proof. reflexivity. Qed.

(** The gate returns exactly when it reads inside the buffer. *)
Lemma vad_gate_in_bounds (env : window_env) (gf : cleanstream_data) :
  gate_in_bounds env gf -> vad_gate env gf = Some (gate_outcome env gf).
Proof.
  unfold gate_in_bounds, gate_outcome, vad_gate. intros H.
  destruct (vad_enabled gf); [|reflexivity].
  destruct (resampled env) as [|x0 xs]; [now destruct H|].
  unfold vad_simple.
  replace (F32.ltb F32.zero FREQ_THOLD) with true by (vm_compute; reflexivity).
  now rewrite high_pass_filter_in_place.
Qed.

Lemma vad_gate_out_of_bounds (env : window_env) (gf : cleanstream_data) :
  ~ gate_in_bounds env gf -> vad_gate env gf = None.
Proof.
  unfold gate_in_bounds, vad_gate. intros H.
  destruct (vad_enabled gf); [|now destruct H].
  destruct (resampled env) as [|x0 xs]; [reflexivity|].
  destruct H. discriminate.
Qed.

Lemma gate_in_bounds_same (env : window_env) (gf gf' : cleanstream_data) :
  vad_enabled gf' = vad_enabled gf ->
  gate_in_bounds env gf -> gate_in_bounds env gf'.
Proof. unfold gate_in_bounds. now intros ->. Qed.

(** A window whose classification is neither FILLER nor BEEP, and whose
    classification leaves the state alone, is published as staged. *)
Lemma process_audio_untransformed (env : window_env) (gf : cleanstream_data)
    (r : DetectionResult)
    (ev : cleanstream_data -> list float32 -> list event) :
  (forall staged pcm,
     whisper_context staged = whisper_context gf ->
     detect_regex staged = detect_regex gf ->
     beep_regex staged = beep_regex gf ->
     run_whisper_inference staged pcm (asr env) = (staged, r, ev staged pcm)) ->
  r <> DETECTION_RESULT_FILLER -> r <> DETECTION_RESULT_BEEP ->
  gate_in_bounds env gf ->
  process_audio_from_buffer env gf
  = match assemble_window gf with
    | Some (_, _, staged) =>
        option_map
          (fun gf' =>
             (gf', if snd (gate_outcome env gf) then []
                   else ev staged (fst (gate_outcome env gf))))
          (publish_untransformed (snd (gate_outcome env gf)) (duration env) gf)
    | None => None
    end.
Proof.
  intros Hrun Hf Hb Hgate.
  unfold process_audio_from_buffer, publish_untransformed.
  destruct (assemble_window gf) as [[[n ts] staged]|] eqn:Ha; [|reflexivity].
  destruct (assemble_window_shape _ _ _ _ Ha) as (i & c & inp & l & ->).
  rewrite vad_gate_staged, (vad_gate_in_bounds env gf Hgate).
  destruct (sample_rate _ =? 0); [reflexivity|].
  destruct (gate_outcome env gf) as [pcm skipped]. cbn [fst snd].
  destruct (snapshot_copy_buffers _) as [snapshot|]; [|reflexivity].
  destruct skipped.
  - now destruct (publish_window _ _ _ _).
  - rewrite Hrun by reflexivity.
    assert (apply_detection (set_window gf i c inp l) r n snapshot
            = Some snapshot) as ->
      by (destruct r; try reflexivity; congruence).
    now destruct (publish_window _ _ _ _).
Qed.

(** The same, for the state alone. *)
Lemma process_audio_untransformed_state (env : window_env)
    (gf : cleanstream_data) (r : DetectionResult) :
  (forall staged pcm,
     whisper_context staged = whisper_context gf ->
     detect_regex staged = detect_regex gf ->
     beep_regex staged = beep_regex gf ->
     fst (run_whisper_inference staged pcm (asr env)) = (staged, r)) ->
  r <> DETECTION_RESULT_FILLER -> r <> DETECTION_RESULT_BEEP ->
  gate_in_bounds env gf ->
  option_map fst (process_audio_from_buffer env gf)
  = publish_untransformed (snd (gate_outcome env gf)) (duration env) gf.
Proof.
  intros Hrun Hf Hb Hgate.
  rewrite (process_audio_untransformed env gf r
             (fun staged pcm => snd (run_whisper_inference staged pcm (asr env))));
    trivial.
  - unfold publish_untransformed.
    destruct (assemble_window gf) as [[[n ts] staged]|]; [|reflexivity].
    destruct (sample_rate staged =? 0); [reflexivity|].
    destruct (snapshot_copy_buffers staged); [|reflexivity].
    now destruct (publish_window _ _ _ _).
  - intros staged pcm H1 H2 H3.
    rewrite <- (Hrun staged pcm H1 H2 H3).
    now destruct (run_whisper_inference staged pcm (asr env)).
Qed.

(** Nothing after the assembly touches the input side. *)
Lemma publish_keeps_input (g gf' : cleanstream_data) (n ts : Z)
    (s : list (list float32)) (skipped : bool) (d : Z) (events : list event) :
  (g' <- publish_window g n ts s ;;
   Some (adapt_overlap g' n skipped d, events)) = Some (gf', events) ->
  info_buffer gf' = info_buffer g /\ input_buffers gf' = input_buffers g.
Proof.
  unfold publish_window.
  destruct (for_channels2 _ _ _ _) as [[arrays output]|]; [|discriminate].
  intros [= <-].
  match goal with
  | |- context [adapt_overlap ?g0 ?n0 ?s0 ?d0] =>
      destruct (adapt_overlap_buffers g0 n0 s0 d0) as (-> & _ & -> & _)
  end.
  cbn. auto.
Qed.

(** The end of [process_audio_from_buffer] once the classification [r] is
    known, in a state [g] that has the input side of [staged]. *)
Ltac publish_classified Hp Hrest :=
  match type of Hp with
  | context [apply_detection ?g ?r ?n ?snap] =>
      destruct (apply_detection g r n snap) as [s|]; [|discriminate Hp];
      match type of Hp with
      | context [publish_window ?g' ?n' ?ts' s] =>
          destruct (publish_window g' n' ts' s) as [gp|] eqn:Hpub;
          [|discriminate Hp];
          injection Hp as <- <-;
          apply (Hrest g' s); rewrite Hpub; reflexivity
      end
  end.

Lemma process_keeps_input (env : window_env) (gf gf' : cleanstream_data)
    (events : list event) :
  process_audio_from_buffer env gf = Some (gf', events) ->
  exists n ts staged,
    assemble_window gf = Some (n, ts, staged)
    /\ info_buffer gf' = info_buffer staged
    /\ input_buffers gf' = input_buffers staged.
Proof.
  unfold process_audio_from_buffer.
  destruct (assemble_window gf) as [[[n ts] staged]|]; [|discriminate].
  destruct (sample_rate staged =? 0); [discriminate|].
  destruct (vad_gate env staged) as [[pcm skipped]|]; [|discriminate].
  destruct (snapshot_copy_buffers staged) as [snapshot|]; [|discriminate].
  intros Hp. exists n, ts, staged. split; [reflexivity|].
  assert (forall g s,
            (g' <- publish_window g n ts s ;;
             Some (adapt_overlap g' n skipped (duration env), events))
            = Some (gf', events) ->
            info_buffer gf' = info_buffer g
            /\ input_buffers gf' = input_buffers g) as Hrest
    by (intros g s; apply publish_keeps_input).
  destruct skipped.
  - destruct (publish_window staged n ts snapshot) as [g'|] eqn:Hpub;
      [|discriminate].
    injection Hp as <- <-.
    apply (Hrest staged snapshot). now rewrite Hpub.
  - unfold run_whisper_inference in Hp.
    destruct (whisper_context staged) as [ctx|];
      [destruct (asr env) as [|code text];
       [|destruct (negb (code =? 0));
         [|destruct (is_empty _);
           [|destruct (regex_detect _ _ _) as [r|]]]]|];
      publish_classified Hp Hrest.
Qed.

(** In a ready state the untransformed window is published: its
    descriptor carries the drained frame count and timestamp, and the
    drained frames have left every input ring. *)
Lemma publish_untransformed_defined (skipped : bool) (d : Z)
    (gf : cleanstream_data) :
  window_ready gf ->
  exists gf',
    publish_untransformed skipped d gf = Some gf'
    /\ info_out_buffer gf'
       = info_out_buffer gf
           ++ [{| frames := window_new_frames gf;
                  timestamp := window_start_timestamp gf |}]
    /\ info_buffer gf' = window_remaining_infos gf
    /\ input_buffers gf'
       = map (skipn (Z.to_nat (window_new_frames gf))) (input_buffers gf)
    /\ Forall (fun b => Z.of_nat (length b) = committed_frames gf)
         (copy_output_buffers gf').
Proof.
  intros H. unfold publish_untransformed.
  destruct (assemble_window_defined gf H) as (copy & -> & Hlen & Hreg).
  pose proof (committed_frames_range gf H) as Hc.
  pose proof (window_new_frames_range gf H) as Hn.
  set (staged := set_window gf _ _ _ _).
  replace (sample_rate staged =? 0) with false
    by (symmetry; apply Z.eqb_neq, (ready_rate gf H)).
  destruct (snapshot_copy_buffers_defined staged)
    as (snapshot & -> & Hsl & Hsr).
  { exact Hlen. }
  { apply (ready_snapshot gf H). }
  { cbn. lia. }
  { eapply Forall_impl; [|exact Hreg]. cbn. intros b Hb. lia. }
  destruct (publish_window_defined staged (window_new_frames gf)
              (window_start_timestamp gf) snapshot)
    as (output & -> & Hol).
  { exact Hsl. }
  { apply (ready_output gf H). }
  { lia. }
  { eapply Forall_impl; [|exact Hsr]. cbn. intros b Hb. lia. }
  eexists. split; [reflexivity|].
  match goal with
  | |- context [adapt_overlap ?g ?n ?s ?dd] =>
      destruct (adapt_overlap_buffers g n s dd)
        as (-> & -> & -> & _ & _ & -> & _)
  end.
  cbn. auto.
Qed.

Lemma read_at_inv (src : list float32) (from len : Z) (r : list float32) :
  read_at src from len = Some r ->
  r = firstn (Z.to_nat len) (skipn (Z.to_nat from) src).
Proof.
  unfold read_at. destruct (_ && _); [|discriminate]. now intros [= <-].
Qed.

(** What an untransformed window moves, channel by channel: the frames
    the drain counted leave the input ring, the region is staged, and the
    output ring gains the first [num_new] frames of the staged region. *)
Lemma publish_untransformed_frames (skipped : bool) (d : Z)
    (gf gf' : cleanstream_data) :
  window_ready gf ->
  publish_untransformed skipped d gf = Some gf' ->
  forall c copy input output,
    nth_error (copy_buffers gf) c = Some copy ->
    nth_error (input_buffers gf) c = Some input ->
    nth_error (output_buffers gf) c = Some output ->
    let staged := staged_region gf (window_new_frames gf) copy input in
    nth_error (copy_buffers gf') c = Some staged
    /\ nth_error (input_buffers gf') c
       = Some (skipn (Z.to_nat (window_new_frames gf)) input)
    /\ nth_error (copy_output_buffers gf') c
       = Some (firstn (Z.to_nat (committed_frames gf)) staged)
    /\ nth_error (output_buffers gf') c
       = Some (output ++ firstn (Z.to_nat (window_new_frames gf)) staged).
Proof.
  intros H Hpub c copy input output Hcopy Hinput Houtput.
  assert (c < channels gf)%nat as Hc.
  { rewrite <- (ready_copy gf H). apply nth_error_Some. congruence. }
  pose proof (committed_frames_range gf H) as Hcommit.
  pose proof (window_new_frames_range gf H) as Hn.
  destruct (assemble_window_defined gf H) as (copy0 & Ha & _).
  unfold publish_untransformed, assemble_window in Hpub, Ha.
  rewrite drain_info_buffer_window in Hpub, Ha.
  destruct (for_channels2 (channels gf) (pop_input_channel gf _) _ _)
    as [[copies inputs]|] eqn:Hpop; [|discriminate].
  injection Ha as Hlast _ _.
  cbn [sample_rate set_window] in Hpub.
  destruct (sample_rate gf =? 0); [discriminate|].
  unfold snapshot_copy_buffers in Hpub.
  cbn [channels copy_buffers copy_output_buffers last_num_frames set_window]
    in Hpub.
  rewrite Hlast in Hpub.
  destruct (for_channels2 (channels gf) _ copies (copy_output_buffers gf))
    as [[copies' snapshot]|] eqn:Hsnap; [|discriminate].
  unfold publish_window in Hpub.
  cbn [channels output_buffers set_window] in Hpub.
  destruct (for_channels2 (channels gf) _ snapshot (output_buffers gf))
    as [[arrays outputs]|] eqn:Hout; [|discriminate].
  injection Hpub as <-.
  match goal with
  | |- context [adapt_overlap ?g ?n ?s ?dd] =>
      destruct (adapt_overlap_buffers g n s dd)
        as (_ & _ & -> & -> & -> & -> & _)
  end.
  cbn [copy_buffers copy_output_buffers input_buffers output_buffers
       set_output set_window].
  destruct (for_channels2_nth _ _ _ _ _ _ Hpop c copy input Hc Hcopy Hinput)
    as (copy' & input' & Hf & Hcopy' & Hinput').
  rewrite pop_input_channel_staged in Hf; trivial.
  2: { pose proof (ready_regions gf H) as Hr. rewrite Forall_forall in Hr.
       apply Hr. eapply nth_error_In; eassumption. }
  2: { pose proof (ready_queued gf H) as Hq. rewrite Forall_forall in Hq.
       apply Hq. eapply nth_error_In; eassumption. }
  injection Hf as <- <-.
  destruct (nth_error (copy_output_buffers gf) c) as [old|] eqn:Hold.
  2: { apply nth_error_None in Hold. rewrite (ready_snapshot gf H) in Hold. lia. }
  destruct (for_channels2_nth _ _ _ _ _ _ Hsnap c _ old Hc Hcopy' Hold)
    as (copy'' & snap & Hf & Hcopy'' & Hsnap').
  unfold da_copy_array in Hf.
  destruct (read_at _ 0 _) as [snap0|] eqn:Hread; [|discriminate].
  injection Hf as <- <-. apply read_at_inv in Hread. cbn [skipn Z.to_nat] in Hread.
  destruct (for_channels2_nth _ _ _ _ _ _ Hout c _ output Hc Hsnap' Houtput)
    as (array & out' & Hf & _ & Hout').
  destruct (read_at snap0 0 _) as [head|] eqn:Hhead; [|discriminate].
  injection Hf as _ <-. apply read_at_inv in Hhead. cbn [skipn Z.to_nat] in Hhead.
  subst snap0.
  split; [exact Hcopy'|]. split; [exact Hinput'|]. split; [exact Hsnap'|].
  rewrite Hout'. unfold circlebuf_push_back. f_equal. f_equal.
  subst head. rewrite firstn_firstn. f_equal. lia.
Qed.

(** The first window hands the host exactly the frames it took from the
    input. *)
Lemma first_window_passes_input (skipped : bool) (d : Z)
    (gf gf' : cleanstream_data) :
  window_ready gf ->
  last_num_frames gf = 0 ->
  publish_untransformed skipped d gf = Some gf' ->
  forall c copy input output,
    nth_error (copy_buffers gf) c = Some copy ->
    nth_error (input_buffers gf) c = Some input ->
    nth_error (output_buffers gf) c = Some output ->
    nth_error (output_buffers gf') c
    = Some (output ++ firstn (Z.to_nat (window_new_frames gf)) input).
Proof.
  intros H Hfirst Hpub c copy input output Hcopy Hinput Houtput.
  destruct (publish_untransformed_frames skipped d gf gf' H Hpub c copy input
              output Hcopy Hinput Houtput) as (_ & _ & _ & ->).
  unfold staged_region. rewrite Hfirst. cbn [Z.gtb Z.compare].
  pose proof (window_new_frames_range gf H) as Hn.
  pose proof (ready_queued gf H) as Hq. rewrite Forall_forall in Hq.
  pose proof (Hq input (nth_error_In _ _ Hinput)).
  rewrite firstn_app, length_firstn.
  replace (Z.to_nat (window_new_frames gf)
           - Nat.min (Z.to_nat (window_new_frames gf)) (length input))%nat
    with 0%nat by lia.
  rewrite firstn_O, app_nil_r, firstn_firstn.
  now rewrite Nat.min_id.
Qed.

(** Every later window that takes at least [overlap_frames] new frames
    hands the host the last [overlap_frames] frames of the previous
    window again, followed by all but the last [overlap_frames] of the
    frames it took. *)
Lemma later_window_repeats_overlap (skipped : bool) (d : Z)
    (gf gf' : cleanstream_data) :
  window_ready gf ->
  0 < last_num_frames gf ->
  overlap_frames gf <= window_new_frames gf ->
  publish_untransformed skipped d gf = Some gf' ->
  forall c copy input output,
    nth_error (copy_buffers gf) c = Some copy ->
    nth_error (input_buffers gf) c = Some input ->
    nth_error (output_buffers gf) c = Some output ->
    nth_error (output_buffers gf') c
    = Some (output
              ++ firstn (Z.to_nat (overlap_frames gf))
                   (skipn (Z.to_nat (last_num_frames gf - overlap_frames gf))
                      copy)
              ++ firstn (Z.to_nat (window_new_frames gf - overlap_frames gf))
                   input).
Proof.
  intros H Hlater Hov Hpub c copy input output Hcopy Hinput Houtput.
  destruct (publish_untransformed_frames skipped d gf gf' H Hpub c copy input
              output Hcopy Hinput Houtput) as (_ & _ & _ & ->).
  unfold staged_region.
  destruct (Z.gtb_spec (last_num_frames gf) 0); [|lia].
  destruct (ready_overlap gf H Hlater) as (Ho & Ho2 & Hw).
  pose proof (ready_regions gf H) as Hr. rewrite Forall_forall in Hr.
  pose proof (Hr copy (nth_error_In _ _ Hcopy)) as Hlen.
  set (tail := firstn (Z.to_nat (overlap_frames gf))
                 (skipn (Z.to_nat (last_num_frames gf - overlap_frames gf))
                    copy)).
  assert (length tail = Z.to_nat (overlap_frames gf)) as Ht.
  { unfold tail. rewrite length_firstn, length_skipn. lia. }
  do 2 f_equal.
  rewrite firstn_app, Ht, (firstn_all2 tail) by lia. f_equal.
  rewrite firstn_app, firstn_firstn.
  replace (Nat.min (Z.to_nat (window_new_frames gf)
                    - Z.to_nat (overlap_frames gf))
             (Z.to_nat (window_new_frames gf)))
    with (Z.to_nat (window_new_frames gf - overlap_frames gf)) by lia.
  rewrite length_firstn.
  pose proof (ready_queued gf H) as Hq. rewrite Forall_forall in Hq.
  pose proof (Hq input (nth_error_In _ _ Hinput)).
  replace (Z.to_nat (window_new_frames gf) - Z.to_nat (overlap_frames gf)
           - Nat.min (Z.to_nat (window_new_frames gf)) (length input))%nat
    with 0%nat by lia.
  now rewrite firstn_O, app_nil_r.
Qed.

Lemma publish_untransformed_as_staged (skipped : bool) (d : Z)
    (gf : cleanstream_data) :
  window_ready gf ->
  exists gf',
    publish_untransformed skipped d gf = Some gf'
    /\ published_as_staged gf gf'.
Proof.
  intros H.
  destruct (publish_untransformed_defined skipped d gf H)
    as (gf' & Hpub & Hout & _).
  exists gf'. split; [exact Hpub|]. split; [exact Hout|].
  intros c copy input output Hcopy Hinput Houtput.
  destruct (publish_untransformed_frames skipped d gf gf' H Hpub c copy input
              output Hcopy Hinput Houtput) as (_ & _ & Hsnap & Hframes).
  split; assumption.
Qed.

End ProcessorProperties.

Lemma window_readyb_sound (gf : cleanstream_data) :
  window_readyb gf = true -> window_ready gf.
Proof.
  unfold window_readyb. rewrite !andb_true_iff.
  intros ((((((((((Hr & Hc) & Hs) & Hi) & Ho) & Hreg) & Hq) & Hw0)
             & Hw1) & Hl) & Hov).
  constructor.
  - apply negb_true_iff, Z.eqb_neq in Hr. exact Hr.
  - now apply Nat.eqb_eq.
  - now apply Nat.eqb_eq.
  - now apply Nat.eqb_eq.
  - now apply Nat.eqb_eq.
  - rewrite forallb_forall in Hreg. apply Forall_forall.
    intros b Hb. now apply Z.eqb_eq, Hreg.
  - rewrite forallb_forall in Hq. apply Forall_forall.
    intros b Hb. now apply Z.leb_le, Hq.
  - apply Z.leb_le in Hw0. apply Z.ltb_lt in Hw1. lia.
  - now apply Z.leb_le.
  - intros Hpos. apply orb_true_iff in Hov as [Hz|Hov].
    + apply Z.leb_le in Hz. lia.
    + rewrite !andb_true_iff, !Z.leb_le in Hov. lia.
Qed.

(** ** Replacement of a FILLER or BEEP window *)

Lemma for_channels_all {A : Type} (f : nat -> A -> option A)
    (P : A -> Prop) (h : A -> A) :
  (forall c x, P x -> f c x = Some (h x)) ->
  forall n c xs,
    length xs = n -> Forall P xs -> for_channels n f c xs = Some (map h xs).
Proof.
  intros Hf. induction n as [|n IH]; intros c xs Hl HP.
  - now destruct xs.
  - destruct xs as [|x xs]; [discriminate|].
    inversion HP; subst. cbn.
    rewrite Hf by trivial. rewrite IH by auto. reflexivity.
Qed.

Lemma rd_app_l (a b : list float32) (i : nat) :
  (i < length a)%nat -> rd (a ++ b) i = rd a i.
Proof. intros. unfold rd. now apply app_nth1. Qed.

Lemma rd_app_r (a b : list float32) (i : nat) :
  (length a <= i)%nat -> rd (a ++ b) i = rd b (i - length a).
Proof. intros. unfold rd. now apply app_nth2. Qed.

Lemma rd_skipn (a : list float32) (n i : nat) :
  rd (skipn n a) i = rd a (n + i).
Proof.
  unfold rd. revert a. induction n as [|n IH]; intros a; [reflexivity|].
  destruct a as [|x a]; [now destruct i | apply IH].
Qed.

Section ReplacementProperties.
Context {R : StdRegex} {M : Libm}.

Lemma overwrite_frames_defined (value : Z -> float32) (num_new : Z)
    (array : list float32) :
  0 <= num_new <= Z.of_nat (length array) ->
  overwrite_frames value num_new array
  = Some (map (fun i => value (Z.of_nat i)) (seq 0 (Z.to_nat num_new))
            ++ skipn (Z.to_nat num_new) array).
Proof.
  intros Hn. unfold overwrite_frames, write_at.
  rewrite length_map, length_seq.
  replace ((0 <=? 0)
           && (0 + Z.of_nat (Z.to_nat num_new) <=? Z.of_nat (length array)))
    with true by (symmetry; rewrite andb_true_iff, !Z.leb_le; lia).
  reflexivity.
Qed.

Lemma overwritten_entries (gf : cleanstream_data) (r : DetectionResult)
    (num_new : Z) (array : list float32) :
  (forall i, (i < Z.to_nat num_new)%nat ->
     rd (overwritten gf r num_new array) i
     = replacement_sample gf r (Z.of_nat i))
  /\ (forall i, (Z.to_nat num_new <= i)%nat ->
        rd (overwritten gf r num_new array) i = rd array i).
Proof.
  unfold overwritten. split; intros i Hi.
  - rewrite rd_app_l by now rewrite length_map, length_seq.
    unfold rd.
    rewrite (nth_indep _ _ (replacement_sample gf r (Z.of_nat 0)))
      by now rewrite length_map, length_seq.
    rewrite (map_nth (fun i => replacement_sample gf r (Z.of_nat i))).
    now rewrite seq_nth.
  - rewrite rd_app_r by now rewrite length_map, length_seq.
    rewrite length_map, length_seq, rd_skipn. f_equal. lia.
Qed.

(** What the FILLER and BEEP branches do to a snapshot whose arrays hold
    at least [num_new] entries. *)
Lemma apply_detection_overwrites (gf : cleanstream_data)
    (r : DetectionResult) (num_new : Z) (snapshot : list (list float32)) :
  do_silence gf = true ->
  r = DETECTION_RESULT_FILLER \/ r = DETECTION_RESULT_BEEP ->
  length snapshot = channels gf ->
  0 <= num_new ->
  Forall (fun array => num_new <= Z.of_nat (length array)) snapshot ->
  apply_detection gf r num_new snapshot
  = Some (map (overwritten gf r num_new) snapshot).
Proof.
  intros Hs Hr Hl Hn Hfit. unfold apply_detection.
  destruct Hr as [-> | ->]; rewrite Hs;
    apply (for_channels_all _ (fun a => num_new <= Z.of_nat (length a)));
    trivial;
    intros c a Ha; apply overwrite_frames_defined; lia.
Qed.

Lemma overwritten_length (gf : cleanstream_data) (r : DetectionResult)
    (num_new : Z) (array : list float32) :
  0 <= num_new <= Z.of_nat (length array) ->
  length (overwritten gf r num_new array) = length array.
Proof.
  intros H. unfold overwritten.
  rewrite length_app, length_map, length_seq, length_skipn. lia.
Qed.

Lemma overwritten_head (gf : cleanstream_data) (r : DetectionResult)
    (num_new : Z) (array : list float32) :
  firstn (Z.to_nat num_new) (overwritten gf r num_new array)
  = map (fun i => replacement_sample gf r (Z.of_nat i))
      (seq 0 (Z.to_nat num_new)).
Proof.
  unfold overwritten.
  rewrite firstn_app, length_map, length_seq, Nat.sub_diag, firstn_O, app_nil_r.
  apply firstn_all2. now rewrite length_map, length_seq.
Qed.

(** The frames a FILLER or BEEP window moves, once it has run. *)
Lemma process_transformed_frames (env : window_env)
    (gf gf' : cleanstream_data) (events : list event) (r : DetectionResult) :
  window_ready gf ->
  do_silence gf = true ->
  gate_in_bounds env gf ->
  snd (gate_outcome env gf) = false ->
  r = DETECTION_RESULT_FILLER \/ r = DETECTION_RESULT_BEEP ->
  classified_as gf (asr env) r ->
  process_audio_from_buffer env gf = Some (gf', events) ->
  forall c copy input output,
    nth_error (copy_buffers gf) c = Some copy ->
    nth_error (input_buffers gf) c = Some input ->
    nth_error (output_buffers gf) c = Some output ->
    let staged := staged_region gf (window_new_frames gf) copy input in
    nth_error (copy_buffers gf') c = Some staged
    /\ nth_error (copy_output_buffers gf') c
       = Some (overwritten gf r (window_new_frames gf)
                 (firstn (Z.to_nat (committed_frames gf)) staged))
    /\ nth_error (output_buffers gf') c
       = Some (output
                 ++ map (fun i => replacement_sample gf r (Z.of_nat i))
                      (seq 0 (Z.to_nat (window_new_frames gf)))).
Proof.
  intros H Hsil Hgate Hvad Hr Hcls Hproc c copy input output Hcopy Hinput
    Houtput.
  assert (c < channels gf)%nat as Hc.
  { rewrite <- (ready_copy gf H). apply nth_error_Some. congruence. }
  pose proof (committed_frames_range gf H) as Hcommit.
  pose proof (window_new_frames_range gf H) as Hn.
  destruct (assemble_window_defined gf H) as (copy0 & Ha & Hlen0 & Hreg0).
  unfold process_audio_from_buffer, assemble_window in Hproc, Ha.
  rewrite drain_info_buffer_window in Hproc, Ha.
  destruct (for_channels2 (channels gf) (pop_input_channel gf _) _ _)
    as [[copies inputs]|] eqn:Hpop; [|discriminate].
  injection Ha as Hlast Hcopies Hinputs. subst copies inputs.
  rewrite vad_gate_staged, (vad_gate_in_bounds env gf Hgate) in Hproc.
  cbn [sample_rate set_window] in Hproc.
  destruct (sample_rate gf =? 0); [discriminate|].
  destruct (gate_outcome env gf) as [pcm skipped]. cbn [snd] in Hvad.
  subst skipped.
  unfold snapshot_copy_buffers in Hproc.
  cbn [channels copy_buffers copy_output_buffers last_num_frames set_window]
    in Hproc.
  rewrite Hlast in Hproc.
  destruct (for_channels2 (channels gf) _ copy0 (copy_output_buffers gf))
    as [[copies' snapshot]|] eqn:Hsnap; [|discriminate].
  match type of Hproc with
  | context [run_whisper_inference ?g ?p ?a] =>
      pose proof (Hcls g p eq_refl eq_refl eq_refl) as Hrun;
      destruct (run_whisper_inference g p a) as [[g1 r1] ev1]
  end.
  cbn [fst] in Hrun. injection Hrun as -> ->.
  assert (length snapshot = channels gf
          /\ Forall (fun b => Z.of_nat (length b) = committed_frames gf)
               snapshot) as (Hsl & Hsr).
  { match type of Hsnap with
    | for_channels2 _ _ _ _ = Some (_, ?s) =>
        destruct (snapshot_copy_buffers_defined
                    (set_window gf (window_remaining_infos gf) copy0
                       (map (skipn (Z.to_nat (window_new_frames gf)))
                          (input_buffers gf))
                       (committed_frames gf)))
          as (s' & Hs' & Hl' & Hr')
    end.
    - exact Hlen0.
    - apply (ready_snapshot gf H).
    - cbn. lia.
    - eapply Forall_impl; [|exact Hreg0]. cbn. intros b Hb. lia.
    - unfold snapshot_copy_buffers in Hs'.
      cbn [channels copy_buffers copy_output_buffers last_num_frames set_window]
        in Hs'.
      rewrite Hsnap in Hs'. injection Hs' as ->.
      split; assumption. }
  rewrite apply_detection_overwrites in Hproc; trivial; try lia.
  2: { eapply Forall_impl; [|exact Hsr]. cbn. intros b Hb. lia. }
  unfold publish_window in Hproc.
  cbn [channels output_buffers set_window] in Hproc.
  destruct (for_channels2 (channels gf) _ _ (output_buffers gf))
    as [[arrays outputs]|] eqn:Hout; [|discriminate].
  injection Hproc as <- _.
  match goal with
  | |- context [adapt_overlap ?g ?n ?s ?dd] =>
      destruct (adapt_overlap_buffers g n s dd)
        as (_ & _ & _ & -> & -> & -> & _)
  end.
  cbn [copy_buffers copy_output_buffers output_buffers set_output set_window].
  destruct (for_channels2_nth _ _ _ _ _ _ Hpop c copy input Hc Hcopy Hinput)
    as (copy' & input' & Hf & Hcopy' & _).
  rewrite pop_input_channel_staged in Hf; trivial.
  2: { pose proof (ready_regions gf H) as Hr0. rewrite Forall_forall in Hr0.
       apply Hr0. eapply nth_error_In; eassumption. }
  2: { pose proof (ready_queued gf H) as Hq. rewrite Forall_forall in Hq.
       apply Hq. eapply nth_error_In; eassumption. }
  injection Hf as <- _.
  destruct (nth_error (copy_output_buffers gf) c) as [old|] eqn:Hold.
  2: { apply nth_error_None in Hold. rewrite (ready_snapshot gf H) in Hold. lia. }
  destruct (for_channels2_nth _ _ _ _ _ _ Hsnap c _ old Hc Hcopy' Hold)
    as (copy'' & snap & Hf & _ & Hsnap').
  unfold da_copy_array in Hf.
  destruct (read_at _ 0 _) as [snap0|] eqn:Hread; [|discriminate].
  injection Hf as _ <-. apply read_at_inv in Hread.
  cbn [skipn Z.to_nat] in Hread.
  assert (nth_error
            (map (overwritten
                    (set_window gf (window_remaining_infos gf) copy0
                       (map (skipn (Z.to_nat (window_new_frames gf)))
                          (input_buffers gf))
                       (committed_frames gf)) r (window_new_frames gf))
               snapshot) c
          = Some (overwritten gf r (window_new_frames gf) snap0)) as Hover
    by (rewrite nth_error_map, Hsnap'; reflexivity).
  destruct (for_channels2_nth _ _ _ _ _ _ Hout c _ output Hc Hover Houtput)
    as (array & out' & Hf & _ & Hout').
  destruct (read_at _ 0 _) as [head|] eqn:Hhead; [|discriminate].
  injection Hf as _ <-. apply read_at_inv in Hhead.
  cbn [skipn Z.to_nat] in Hhead. rewrite overwritten_head in Hhead.
  subst head snap0.
  split; [exact Hcopy'|]. split; [exact Hover | exact Hout'].
Qed.

(** With [do_silence] on, a window classified FILLER or BEEP is
    published, and in every channel the entries [0 .. num_new) of the
    snapshot are overwritten, with zeros for FILLER and the tone for
    BEEP, while the entries from [num_new] on stay as staged; the staging
    region itself is not touched.  The overwritten entries are the ones
    published.  On every window after the first the staged region starts
    with the overlap carried over from the previous window
    ([staged_region]), so the range overwritten begins with the overlap
    and stops [overlap_frames] entries short of the end of the new
    data. *)
Lemma detection_overwrites_leading_frames (env : window_env)
    (gf : cleanstream_data) (r : DetectionResult) :
  window_ready gf ->
  do_silence gf = true ->
  gate_in_bounds env gf ->
  snd (gate_outcome env gf) = false ->
  r = DETECTION_RESULT_FILLER \/ r = DETECTION_RESULT_BEEP ->
  classified_as gf (asr env) r ->
  exists gf' events,
    process_audio_from_buffer env gf = Some (gf', events)
    /\ forall c copy input output,
         nth_error (copy_buffers gf) c = Some copy ->
         nth_error (input_buffers gf) c = Some input ->
         nth_error (output_buffers gf) c = Some output ->
         let staged := staged_region gf (window_new_frames gf) copy input in
         let snapshot := firstn (Z.to_nat (committed_frames gf)) staged in
         nth_error (copy_buffers gf') c = Some staged
         /\ nth_error (copy_output_buffers gf') c
            = Some (map (fun i => replacement_sample gf r (Z.of_nat i))
                      (seq 0 (Z.to_nat (window_new_frames gf)))
                    ++ skipn (Z.to_nat (window_new_frames gf)) snapshot)
         /\ nth_error (output_buffers gf') c
            = Some (output
                      ++ map (fun i => replacement_sample gf r (Z.of_nat i))
                           (seq 0 (Z.to_nat (window_new_frames gf)))).
Proof.
  intros H Hsil Hgate Hvad Hr Hcls.
  assert (exists gf' events,
            process_audio_from_buffer env gf = Some (gf', events))
    as (gf' & events & Hproc).
  { pose proof (committed_frames_range gf H) as Hcommit.
    pose proof (window_new_frames_range gf H) as Hn.
    unfold process_audio_from_buffer.
    destruct (assemble_window_defined gf H) as (copy0 & -> & Hlen0 & Hreg0).
    set (staged := set_window gf _ _ _ _).
    replace (sample_rate staged =? 0) with false
      by (symmetry; apply Z.eqb_neq, (ready_rate gf H)).
    unfold staged at 1.
    rewrite vad_gate_staged, (vad_gate_in_bounds env gf Hgate).
    destruct (gate_outcome env gf) as [pcm skipped]. cbn [snd] in Hvad.
    subst skipped.
    destruct (snapshot_copy_buffers_defined staged)
      as (snapshot & -> & Hsl & Hsr).
    { exact Hlen0. }
    { apply (ready_snapshot gf H). }
    { cbn. lia. }
    { eapply Forall_impl; [|exact Hreg0]. cbn. intros b Hb. lia. }
    pose proof (Hcls staged pcm eq_refl eq_refl eq_refl) as Hrun.
    destruct (run_whisper_inference staged pcm (asr env)) as [[g1 r1] ev1].
    cbn [fst] in Hrun. injection Hrun as -> ->.
    rewrite apply_detection_overwrites; trivial; try lia.
    2: { eapply Forall_impl; [|exact Hsr]. cbn. intros b Hb. lia. }
    destruct (publish_window_defined staged (window_new_frames gf)
                (window_start_timestamp gf)
                (map (overwritten staged r (window_new_frames gf)) snapshot))
      as (output & -> & _).
    { now rewrite length_map. }
    { apply (ready_output gf H). }
    { lia. }
    { apply Forall_map. eapply Forall_impl; [|exact Hsr].
      cbn. intros b Hb. rewrite overwritten_length; lia. }
    eauto. }
  exists gf', events. split; [exact Hproc|].
  intros c copy input output Hcopy Hinput Houtput.
  exact (process_transformed_frames env gf gf' events r H Hsil Hgate Hvad Hr
           Hcls Hproc c copy input output Hcopy Hinput Houtput).
Qed.

End ReplacementProperties.

(** ** Windows that are published unchanged *)

Section WindowProperties.
Context {R : StdRegex} {M : Libm}.

Lemma vad_gate_resampled (env env' : window_env) (gf : cleanstream_data) :
  resampled env' = resampled env -> vad_gate env' gf = vad_gate env gf.
Proof. unfold vad_gate. now intros ->. Qed.

Lemma gate_outcome_resampled (env env' : window_env) (gf : cleanstream_data) :
  resampled env' = resampled env ->
  gate_outcome env' gf = gate_outcome env gf
  /\ (gate_in_bounds env gf -> gate_in_bounds env' gf).
Proof.
  intros Hres. unfold gate_outcome, gate_in_bounds.
  now rewrite (vad_gate_resampled env env' gf Hres), Hres.
Qed.

(** C8. When the ASR call returns a non-zero code the classifier
    returns UNKNOWN and leaves the state as it was; the segment
    processor, in a ready state and with the gate reading inside the
    resampled buffer (the gate is off, or the buffer is not empty), then
    publishes the window as staged, one descriptor with the window's frame
    count and start timestamp and the snapshot's samples unmodified, and
    ends in the very state a SPEECH classification of the same window ends
    in. *)
Theorem asr_failure_publishes_unmodified (env : window_env)
    (gf : cleanstream_data) (code : Z) (text : string) :
  window_ready gf ->
  whisper_context gf <> None ->
  asr env = WhisperReturns code text ->
  code <> 0 ->
  (forall pcm,
     run_whisper_inference gf pcm (asr env)
     = (gf, DETECTION_RESULT_UNKNOWN,
        [EvWhisperFull pcm; EvWarn "failed to process audio"]))
  /\ (gate_in_bounds env gf ->
      exists gf' events,
        process_audio_from_buffer env gf = Some (gf', events)
        /\ published_as_staged gf gf'
        /\ forall env',
             resampled env' = resampled env ->
             duration env' = duration env ->
             classified_as gf (asr env') DETECTION_RESULT_SPEECH ->
             option_map fst (process_audio_from_buffer env' gf) = Some gf').
Proof.
  intros Hready Hctx Hasr Hcode.
  assert (forall staged pcm,
            whisper_context staged = whisper_context gf ->
            run_whisper_inference staged pcm (asr env)
            = (staged, DETECTION_RESULT_UNKNOWN,
               [EvWhisperFull pcm; EvWarn "failed to process audio"]))
    as Hrun.
  { intros staged pcm Hsame. unfold run_whisper_inference.
    rewrite Hsame, Hasr.
    destruct (whisper_context gf); [|congruence].
    now apply Z.eqb_neq in Hcode as ->. }
  split; [intros pcm; now apply Hrun|].
  intros Hgate.
  destruct (publish_untransformed_as_staged (snd (gate_outcome env gf))
              (duration env) gf Hready) as (gf' & Hpub & Hstaged).
  pose proof (process_audio_untransformed env gf DETECTION_RESULT_UNKNOWN
                (fun _ pcm => [EvWhisperFull pcm;
                               EvWarn "failed to process audio"])) as Hp.
  rewrite Hpub in Hp.
  destruct (assemble_window_defined gf Hready) as (copy & Ha & _).
  rewrite Ha in Hp. cbn [option_map] in Hp.
  eexists gf', _. split; [|split; [exact Hstaged|]].
  - apply Hp; try discriminate; [|exact Hgate].
    intros staged pcm H1 _ _. now apply Hrun.
  - intros env' Hres Hdur Hspeech.
    destruct (gate_outcome_resampled env env' gf Hres) as [Hsame Hgate'].
    rewrite (process_audio_untransformed_state env' gf DETECTION_RESULT_SPEECH);
      try discriminate; [|exact Hspeech|exact (Hgate' Hgate)].
    now rewrite Hsame, Hdur.
Qed.

(** C10. With a null ASR context the classifier returns UNKNOWN for
    every buffer and every behaviour of the engine, which is therefore
    not called (the only event is the warning), and returns the state it
    was given; in a ready state and with the gate reading inside the
    resampled buffer (the gate is off, or the buffer is not empty) the
    window is published as staged, with its frame count and start
    timestamp and the snapshot's samples unmodified. *)
Theorem null_context_returns_unknown (env : window_env)
    (gf : cleanstream_data) :
  window_ready gf ->
  whisper_context gf = None ->
  (forall pcm asr,
     run_whisper_inference gf pcm asr
     = (gf, DETECTION_RESULT_UNKNOWN, [EvWarn "whisper context is null"]))
  /\ (gate_in_bounds env gf ->
      exists gf',
        process_audio_from_buffer env gf
        = Some (gf', if snd (gate_outcome env gf) then []
                     else [EvWarn "whisper context is null"])
        /\ published_as_staged gf gf').
Proof.
  intros Hready Hctx.
  assert (forall staged pcm asr,
            whisper_context staged = whisper_context gf ->
            run_whisper_inference staged pcm asr
            = (staged, DETECTION_RESULT_UNKNOWN,
               [EvWarn "whisper context is null"])) as Hrun.
  { intros staged pcm asr Hsame. unfold run_whisper_inference.
    now rewrite Hsame, Hctx. }
  split; [intros pcm asr; now apply Hrun|].
  intros Hgate.
  destruct (publish_untransformed_as_staged (snd (gate_outcome env gf))
              (duration env) gf Hready) as (gf' & Hpub & Hstaged).
  pose proof (process_audio_untransformed env gf DETECTION_RESULT_UNKNOWN
                (fun _ _ => [EvWarn "whisper context is null"])) as Hp.
  rewrite Hpub in Hp.
  destruct (assemble_window_defined gf Hready) as (copy & Ha & _).
  rewrite Ha in Hp. cbn [option_map] in Hp.
  exists gf'. split; [|exact Hstaged].
  apply Hp; try discriminate; [|exact Hgate].
  intros staged pcm H1 _ _. now apply Hrun.
Qed.

(** C9. When the descriptors [pre] at the front of the input metadata
    ring fit the target and the next one, [p], would take the
    accumulated count past it, the drain stops there: the window's new
    frame count is the sum over [pre], [p] is back at the front of the
    ring as it was, with everything behind it, and only the frames of
    [pre] leave the input rings, whatever the rest of the invocation
    does. *)
Theorem straddling_packet_is_pushed_back (gf : cleanstream_data)
    (pre : list cleanstream_audio_info) (p : cleanstream_audio_info)
    (rest : list cleanstream_audio_info) :
  window_ready gf ->
  info_buffer gf = pre ++ p :: rest ->
  Forall (fun i => 0 <= frames i) pre -> 0 <= frames p ->
  sum_frames pre <= how_many_frames_needed gf ->
  how_many_frames_needed gf < sum_frames pre + frames p < 2 ^ 32 ->
  drain_info_buffer (how_many_frames_needed gf) (info_buffer gf) 0 0
  = (sum_frames pre, latch_timestamp 0 (pre ++ [p]), p :: rest)
  /\ (exists staged,
        assemble_window gf
        = Some (sum_frames pre, latch_timestamp 0 (pre ++ [p]), staged)
        /\ info_buffer staged = p :: rest
        /\ input_buffers staged
           = map (skipn (Z.to_nat (sum_frames pre))) (input_buffers gf))
  /\ forall env gf' events,
       process_audio_from_buffer env gf = Some (gf', events) ->
       info_buffer gf' = p :: rest
       /\ input_buffers gf'
          = map (skipn (Z.to_nat (sum_frames pre))) (input_buffers gf).
Proof.
  intros Hready Hbuf Hpre Hp Hfit Hover.
  assert (drain_info_buffer (how_many_frames_needed gf) (info_buffer gf) 0 0
          = (sum_frames pre, latch_timestamp 0 (pre ++ [p]), p :: rest))
    as Hdrain.
  { rewrite Hbuf.
    rewrite (drain_info_buffer_straddle _ p rest pre 0 0); trivial; lia. }
  pose proof (drain_info_buffer_window gf) as Hw. rewrite Hdrain in Hw.
  injection Hw as Hn Hts Hrest.
  destruct (assemble_window_defined gf Hready) as (copy & Ha & _).
  rewrite <- Hn, <- Hts, <- Hrest in Ha.
  split; [exact Hdrain|]. split.
  - eexists. split; [exact Ha|]. split; reflexivity.
  - intros env gf' events Hproc.
    destruct (process_keeps_input env gf gf' events Hproc)
      as (n & ts & staged & Ha' & -> & ->).
    rewrite Ha in Ha'. injection Ha' as _ _ <-. split; reflexivity.
Qed.

(** C6, as the code has it.  A pattern that fails to compile ends the
    detection: when the filler pattern is malformed, or the beep pattern
    is malformed and the filler pattern (empty, or compiled) did not
    match, a non-empty text is classified SPEECH with the error logged,
    whether or not the other pattern would have matched.  The window is
    then published as staged (in a ready state, the gate reading inside
    the resampled buffer), and the state is returned with the patterns as
    they were: nothing compiled is retained, so the next window compiles
    them again. *)
Theorem regex_failure_classifies_as_speech (env : window_env)
    (gf : cleanstream_data) (text : string) :
  whisper_context gf <> None ->
  asr env = WhisperReturns 0 text ->
  is_empty (rtrim (lowercase text)) = false ->
  pattern_malformed (detect_regex gf)
  \/ (pattern_compiles (detect_regex gf)
      /\ pattern_matches (detect_regex gf) (rtrim (lowercase text)) = false
      /\ pattern_malformed (beep_regex gf)) ->
  (forall pcm,
     run_whisper_inference gf pcm (asr env)
     = (gf, DETECTION_RESULT_SPEECH,
        [EvWhisperFull pcm; EvError "Regex error"]))
  /\ (window_ready gf ->
      gate_in_bounds env gf ->
      exists gf' events,
        process_audio_from_buffer env gf = Some (gf', events)
        /\ published_as_staged gf gf').
Proof.
  intros Hctx Hasr He Hbad.
  assert (forall staged pcm,
            whisper_context staged = whisper_context gf ->
            detect_regex staged = detect_regex gf ->
            beep_regex staged = beep_regex gf ->
            run_whisper_inference staged pcm (asr env)
            = (staged, DETECTION_RESULT_SPEECH,
               [EvWhisperFull pcm; EvError "Regex error"])) as Hrun.
  { intros staged pcm H1 H2 H3. rewrite Hasr.
    apply regex_failure_speech; [congruence | exact He |].
    rewrite H2, H3. exact Hbad. }
  split; [intros pcm; now apply Hrun|].
  intros Hready Hgate.
  destruct (publish_untransformed_as_staged (snd (gate_outcome env gf))
              (duration env) gf Hready) as (gf' & Hpub & Hstaged).
  pose proof (process_audio_untransformed env gf DETECTION_RESULT_SPEECH
                (fun _ pcm => [EvWhisperFull pcm; EvError "Regex error"]))
    as Hp.
  rewrite Hpub in Hp.
  destruct (assemble_window_defined gf Hready) as (copy & Ha & _).
  rewrite Ha in Hp. cbn [option_map] in Hp.
  eexists gf', _. split; [|exact Hstaged].
  apply Hp; try discriminate; [exact Hrun | exact Hgate].
Qed.

End WindowProperties.

(** ** The adaptive overlap *)

Section OverlapProperties.
Context {R : StdRegex} {M : Libm}.

Lemma three_quarters_exact_from_sound (k : nat) :
  forall n,
    three_quarters_exact_from k n = true ->
    forall m, n <= m < n + Z.of_nat k -> three_quarters_of m = 3 * m / 4.
Proof.
  induction k as [|k IH]; intros n Hc m Hm; [lia|].
  cbn [three_quarters_exact_from] in Hc.
  apply andb_true_iff in Hc as [Hn Hrest].
  destruct (Z.eq_dec m n) as [->|Hne]; [now apply Z.eqb_eq|].
  apply (IH (n + 1) Hrest). lia.
Qed.

(** On windows shorter than 65.536 s the binary32 product is exact:
    the bound the increase branch applies is the integer part of
    [0.75 * new_ms]. *)
Lemma three_quarters_of_exact (new_ms : Z) :
  0 <= new_ms < 65536 -> three_quarters_of new_ms = 3 * new_ms / 4.
Proof.
  intros H.
  apply (three_quarters_exact_from_sound (Z.to_nat 65536) 0); [|lia].
  vm_compute. reflexivity.
Qed.

Lemma adapt_overlap_window_rate (gf : cleanstream_data) (w : window_timing) :
  sample_rate (adapt_overlap_window gf w) = sample_rate gf.
Proof.
  unfold adapt_overlap_window, adapt_overlap.
  destruct (_ >? _); [reflexivity|]. now destruct (negb _).
Qed.

Lemma adapt_overlap_window_ms (gf : cleanstream_data) (w : window_timing) :
  overlap_ms (adapt_overlap_window gf w)
  = if lowers_overlap gf w then Z.max (wrap64 (overlap_ms gf - 10)) 100
    else if raises_overlap gf w
         then Z.min (wrap64 (overlap_ms gf + 10))
                (three_quarters_of (window_new_ms gf w))
         else overlap_ms gf.
Proof.
  unfold adapt_overlap_window, adapt_overlap, raises_overlap, lowers_overlap,
    window_new_ms.
  destruct (_ >? _); [reflexivity|]. now destruct (timing_skipped w).
Qed.

Lemma window_timing_same_rate (g gf : cleanstream_data) (w : window_timing) :
  sample_rate g = sample_rate gf ->
  window_new_ms g w = window_new_ms gf w
  /\ raises_overlap g w = raises_overlap gf w
  /\ lowers_overlap g w = lowers_overlap gf w.
Proof.
  unfold raises_overlap, lowers_overlap, window_new_ms, new_frames_ms.
  now intros ->.
Qed.

Lemma adapt_overlap_window_keeps_range (g : cleanstream_data)
    (w : window_timing) :
  100 <= overlap_ms g < 65536 ->
  (raises_overlap g w = true -> 134 <= window_new_ms g w < 65536) ->
  100 <= overlap_ms (adapt_overlap_window g w) < 65536.
Proof.
  intros Hov Hw. rewrite adapt_overlap_window_ms.
  destruct (lowers_overlap g w).
  - rewrite wrap64_small by lia. lia.
  - destruct (raises_overlap g w); [|exact Hov].
    specialize (Hw eq_refl).
    rewrite wrap64_small by lia.
    rewrite three_quarters_of_exact by lia.
    assert (100 <= 3 * window_new_ms g w / 4 < 65536)
      by (split; [apply Z.div_le_lower_bound | apply Z.div_lt_upper_bound];
          lia).
    lia.
Qed.

Lemma adapt_overlap_over_keeps_range (gf : cleanstream_data)
    (ws : list window_timing) :
  forall g,
    sample_rate g = sample_rate gf ->
    100 <= overlap_ms g < 65536 ->
    Forall (fun w => raises_overlap gf w = true ->
                     134 <= window_new_ms gf w < 65536) ws ->
    sample_rate (adapt_overlap_over g ws) = sample_rate gf
    /\ 100 <= overlap_ms (adapt_overlap_over g ws) < 65536.
Proof.
  induction ws as [|w ws IH]; intros g Hr Hov Hws; [now split|].
  inversion Hws as [|? ? Hw Hws']; subst.
  destruct (window_timing_same_rate g gf w Hr) as (En & Er & _).
  cbn [adapt_overlap_over fold_left]. apply IH; trivial.
  - now rewrite adapt_overlap_window_rate.
  - apply adapt_overlap_window_keeps_range; trivial.
    now rewrite Er, En.
Qed.

(** The controller reads the overlap and the sample rate only. *)
Lemma adapt_overlap_window_congr (g1 g2 : cleanstream_data) (w : window_timing) :
  overlap_ms g1 = overlap_ms g2 ->
  sample_rate g1 = sample_rate g2 ->
  overlap_ms (adapt_overlap_window g1 w) = overlap_ms (adapt_overlap_window g2 w)
  /\ sample_rate (adapt_overlap_window g1 w)
     = sample_rate (adapt_overlap_window g2 w).
Proof.
  intros Ho Hr. rewrite !adapt_overlap_window_rate, !adapt_overlap_window_ms.
  destruct (window_timing_same_rate g1 g2 w Hr) as (-> & -> & ->).
  now rewrite Ho.
Qed.

Lemma adapt_overlap_over_congr (ws : list window_timing) :
  forall g1 g2,
    overlap_ms g1 = overlap_ms g2 ->
    sample_rate g1 = sample_rate g2 ->
    overlap_ms (adapt_overlap_over g1 ws) = overlap_ms (adapt_overlap_over g2 ws)
    /\ sample_rate (adapt_overlap_over g1 ws)
       = sample_rate (adapt_overlap_over g2 ws).
Proof.
  induction ws as [|w ws IH]; intros g1 g2 Ho Hr; [now split|].
  cbn [adapt_overlap_over fold_left].
  destruct (adapt_overlap_window_congr g1 g2 w Ho Hr). now apply IH.
Qed.

(** One invocation of the segment processor moves the overlap as the
    controller does on the window's frame count and duration. *)
Lemma process_adapts_overlap (env : window_env) (gf gf' : cleanstream_data)
    (events : list event) :
  process_audio_from_buffer env gf = Some (gf', events) ->
  exists w,
    timing_num_new w = window_new_frames gf
    /\ timing_duration w = duration env
    /\ overlap_ms gf' = overlap_ms (adapt_overlap_window gf w)
    /\ sample_rate gf' = sample_rate gf.
Proof.
  unfold process_audio_from_buffer, assemble_window.
  rewrite drain_info_buffer_window.
  destruct (for_channels2 _ _ _ _) as [[copy input]|]; [|discriminate].
  set (staged := set_window gf _ _ _ _).
  destruct (sample_rate staged =? 0); [discriminate|].
  destruct (vad_gate env staged) as [[pcm skipped]|]; [|discriminate].
  destruct (snapshot_copy_buffers staged) as [snapshot|]; [|discriminate].
  intros Hp.
  exists {| timing_num_new := window_new_frames gf;
            timing_skipped := skipped;
            timing_duration := duration env |}.
  split; [reflexivity|]. split; [reflexivity|].
  assert (forall g s,
            overlap_ms g = overlap_ms gf -> sample_rate g = sample_rate gf ->
            (g' <- publish_window g (window_new_frames gf)
                     (window_start_timestamp gf) s ;;
             Some (adapt_overlap g' (window_new_frames gf) skipped
                     (duration env), events))
            = Some (gf', events) ->
            overlap_ms gf'
            = overlap_ms
                (adapt_overlap_window gf
                   {| timing_num_new := window_new_frames gf;
                      timing_skipped := skipped;
                      timing_duration := duration env |})
            /\ sample_rate gf' = sample_rate gf) as Hrest.
  { intros g s Ho Hr. unfold publish_window.
    destruct (for_channels2 _ _ _ _) as [[arrays output]|]; [|discriminate].
    intros [= <-].
    match goal with
    | |- context [adapt_overlap ?g0 ?n0 ?s0 ?d0] =>
        change (adapt_overlap g0 n0 s0 d0)
          with (adapt_overlap_window g0
                  {| timing_num_new := n0; timing_skipped := s0;
                     timing_duration := d0 |})
    end.
    rewrite adapt_overlap_window_rate.
    split; [|exact Hr].
    now apply adapt_overlap_window_congr. }
  destruct skipped.
  - destruct (publish_window staged _ _ snapshot) as [g'|] eqn:Hpub;
      [|discriminate].
    injection Hp as <- <-.
    apply (Hrest staged snapshot); trivial. now rewrite Hpub.
  - unfold run_whisper_inference in Hp.
    destruct (whisper_context staged) as [ctx|];
      [destruct (asr env) as [|code text];
       [|destruct (negb (code =? 0));
         [|destruct (is_empty _);
           [|destruct (regex_detect _ _ _) as [r|]]]]|];
      match type of Hp with
      | context [apply_detection ?g ?r ?n ?snap] =>
          destruct (apply_detection g r n snap) as [s|]; [|discriminate Hp];
          match type of Hp with
          | context [publish_window ?g' ?n' ?ts' s] =>
              destruct (publish_window g' n' ts' s) as [gp|] eqn:Hpub;
              [|discriminate Hp];
              injection Hp as <- <-;
              apply (Hrest g' s); trivial; rewrite Hpub; reflexivity
          end
      end.
Qed.

(** Along a trace the overlap is the controller's, run over the windows
    the worker processed: pushes leave it alone. *)
Lemma run_trace_overlap (tr : list action) :
  forall gf gf' outs,
    run_trace gf tr = Some (gf', outs) ->
    exists ws,
      overlap_ms gf' = overlap_ms (adapt_overlap_over gf ws)
      /\ sample_rate gf' = sample_rate gf.
Proof.
  induction tr as [|a tr IH]; intros gf gf' outs Hrun.
  - injection Hrun as <- _. now exists [].
  - destruct a as [audio|env]; cbn [run_trace] in Hrun.
    + destruct (cleanstream_filter_audio gf audio) as [[g1 res]|] eqn:Hpush;
        [|discriminate].
      destruct (run_trace g1 tr) as [[g2 outs']|] eqn:Hrest; [|discriminate].
      injection Hrun as <- _.
      destruct (IH g1 g2 outs' Hrest) as (ws & Ho & Hr).
      assert (overlap_ms g1 = overlap_ms gf /\ sample_rate g1 = sample_rate gf)
        as (Ho1 & Hr1).
      { unfold cleanstream_filter_audio in Hpush.
        destruct (negb (active gf)); [now injection Hpush as <- _|].
        destruct (whisper_context gf); [|now injection Hpush as <- _].
        destruct (for_channels2 _ _ _ _) as [[samples input]|]; [|discriminate].
        cbn in Hpush.
        destruct (info_out_buffer gf) as [|info_out rest];
          [now injection Hpush as <- _|].
        destruct (for_channels2 _ _ _ _) as [[popped output]|]; [|discriminate].
        now injection Hpush as <- _. }
      exists ws. destruct (adapt_overlap_over_congr ws g1 gf Ho1 Hr1).
      split; congruence.
    + destruct (whisper_loop_poll env gf) as [[[g1 ev] ran]|] eqn:Hpoll;
        [|discriminate].
      destruct (IH g1 gf' outs Hrun) as (ws & Ho & Hr).
      unfold whisper_loop_poll in Hpoll.
      destruct (_ >=? _).
      * destruct (process_audio_from_buffer env gf) as [[g1' ev']|] eqn:Hproc;
          [|discriminate].
        injection Hpoll as <- _ _.
        destruct (process_adapts_overlap env gf g1' ev' Hproc)
          as (w & _ & _ & Ho1 & Hr1).
        exists (w :: ws). cbn [adapt_overlap_over fold_left].
        rewrite <- (adapt_overlap_window_rate gf w) in Hr1.
        destruct (adapt_overlap_over_congr ws g1' (adapt_overlap_window gf w)
                    Ho1 Hr1) as (E1 & E2).
        rewrite adapt_overlap_window_rate in Hr1.
        split; [fold (adapt_overlap_over (adapt_overlap_window gf w) ws)|];
          congruence.
      * injection Hpoll as <- _ _. now exists ws.
Qed.

(** C7, as the code has it.  From the initial 340 ms, [overlap_ms] stays
    at or above 100 (and below 65536) over every sequence of windows in
    which each window that raises it carries at least 134 ms, and less
    than 65.536 s, of new data.  In every state so reached: a window
    that took longer than its new data lowers it to
    [max(overlap_ms - 10, 100)], without wrap-around; a window that did
    not, and was not skipped, raises it to
    [min(overlap_ms + 10, floor(0.75 * new_ms))], which is at most
    [0.75 * new_ms] of that window; a skipped window that was in time
    leaves it alone.  The upper bound is that of the raising window
    only. *)
Theorem overlap_stays_above_minimum (gf : cleanstream_data)
    (ws : list window_timing) :
  overlap_ms gf = OVERLAP_SIZE_MSEC ->
  Forall (fun w => raises_overlap gf w = true ->
                   134 <= window_new_ms gf w < 65536) ws ->
  let g := adapt_overlap_over gf ws in
  100 <= overlap_ms g < 65536
  /\ forall w,
       let g' := adapt_overlap_window g w in
       (lowers_overlap g w = true ->
        overlap_ms g' = Z.max (overlap_ms g - 10) 100)
       /\ (raises_overlap g w = true ->
           overlap_ms g'
           = Z.min (overlap_ms g + 10) (three_quarters_of (window_new_ms g w))
           /\ (0 <= window_new_ms g w < 65536 ->
               overlap_ms g' = Z.min (overlap_ms g + 10)
                                 (3 * window_new_ms g w / 4)
               /\ 4 * overlap_ms g' <= 3 * window_new_ms g w))
       /\ (lowers_overlap g w = false -> raises_overlap g w = false ->
           overlap_ms g' = overlap_ms g).
Proof.
  intros H0 Hws g.
  destruct (adapt_overlap_over_keeps_range gf ws gf eq_refl) as (_ & Hov);
    trivial.
  { rewrite H0. unfold OVERLAP_SIZE_MSEC. lia. }
  fold g in Hov. split; [exact Hov|].
  intros w g'. unfold g'. rewrite adapt_overlap_window_ms.
  split; [|split].
  - intros ->. now rewrite wrap64_small by lia.
  - intros Hr.
    assert (lowers_overlap g w = false) as ->.
    { unfold raises_overlap, lowers_overlap in *.
      now destruct (_ >? _). }
    rewrite Hr, wrap64_small by lia.
    split; [reflexivity|]. intros Hn.
    rewrite three_quarters_of_exact by exact Hn.
    split; [reflexivity|].
    pose proof (Z.mul_div_le (3 * window_new_ms g w) 4). lia.
  - now intros -> ->.
Qed.

End OverlapProperties.

(** ** The example runs *)

Section Examples.
#[local] Existing Instance literal_regex.
#[local] Existing Instance no_tone.

(** C1. A stream of 10-frame packets, classified SILENCE throughout:
    the first window takes the samples 1..1010 and publishes them; the
    second takes 1011..1670 (the samples 1671..2030 stay queued) and
    publishes 660 samples starting at sample 661, the head of its
    window, which is the overlap carried over from the first.  The
    samples 661..1010 have then been handed to the host twice, and the
    published stream is not the consumed input 1..1670. *)
Theorem overlap_is_published_again :
  observe (fun _ outs => map audio_frames outs)
    (example_filter None None) two_silent_windows = Some [1010; 660]
  /\ observe (fun _ outs => published outs)
       (example_filter None None) two_silent_windows
     = Some (ramp 1 1010 ++ ramp 661 660)
  /\ observe (fun gf _ => input_buffers gf)
       (example_filter None None) two_silent_windows
     = Some [ramp 1671 360]
  /\ ramp 1 1010 ++ ramp 661 660 <> ramp 1 1670.
Proof.
  repeat split; try (vm_compute; reflexivity).
  vm_compute. discriminate.
Qed.

(** C2. The same stream starts at timestamp 0.  The first window is
    made of the packets 0..100, the first of them stamped 0, and is
    published with the timestamp of the second packet, 10^7: a start
    timestamp of 0 reads as "not set yet" and is overwritten by the next
    descriptor popped. *)
Theorem zero_start_timestamp_is_overwritten :
  observe (fun _ outs => map audio_frames outs)
    (example_filter None None) first_window = Some [1010]
  /\ observe (fun _ outs => map audio_timestamp outs)
       (example_filter None None) first_window = Some [10000000]
  /\ drain_info_buffer 1010
       [{| frames := 1000; timestamp := 0 |};
        {| frames := 10; timestamp := 7 |};
        {| frames := 10; timestamp := 8 |}] 0 0
     = (1010, 7, [{| frames := 10; timestamp := 8 |}]).
Proof.
  repeat split; vm_compute; reflexivity.
Qed.

(** C3. The second window of the stream, classified FILLER with
    [do_silence] on.  The window is staged with the 350 overlap samples
    661..1010 at its head and the 660 new samples 1011..1670 after them.
    The snapshot comes out with zeros in its first 660 entries, the
    overlap head included, and with its last 350 entries, the new samples
    1321..1670, as staged: the replacement starts at the head of the
    snapshot, not at the new data. *)
Theorem filler_overwrites_overlap_head :
  let before := state_after (example_filter (Some "um"%string) None)
                  until_second_window in
  overlap_frames before = 350
  /\ window_new_frames before = 660
  /\ option_map (fun r => copy_buffers (fst r))
       (process_audio_from_buffer filler_env before)
     = Some [ramp 661 350 ++ ramp 1011 660]
  /\ option_map (fun r => copy_output_buffers (fst r))
       (process_audio_from_buffer filler_env before)
     = Some [repeat F32.zero 660 ++ ramp 1321 350].
Proof.
  repeat split; vm_compute; reflexivity.
Qed.

(** C5 fails when the filler pattern is not a regular expression: on the
    transcript "Um " with the beep pattern "um" the order of the claim
    gives BEEP, the filler pattern matching nothing, and the classifier
    returns SPEECH. *)
Lemma malformed_filler_breaks_the_order :
  let gf := example_filter (Some "("%string) (Some "um"%string) in
  whisper_context gf <> None
  /\ right_trimmed (lowercased "Um ") = "um"%string
  /\ classify_in_order (detect_regex gf) (beep_regex gf) "um"
     = DETECTION_RESULT_BEEP
  /\ classification gf [] (WhisperReturns 0 "Um ")
     = DETECTION_RESULT_SPEECH.
Proof.
  split; [discriminate|]. repeat split; vm_compute; reflexivity.
Qed.

(** C6 fails when the filler pattern is malformed and the beep pattern
    matches: the window is classified SPEECH. *)
Lemma malformed_filler_hides_beep :
  let gf := example_filter (Some "("%string) (Some "damn"%string) in
  pattern_malformed (detect_regex gf)
  /\ pattern_matches (beep_regex gf) (rtrim (lowercase "Damn it ")) = true
  /\ classification gf [] (WhisperReturns 0 "Damn it ")
     = DETECTION_RESULT_SPEECH.
Proof.
  split; [|split; vm_compute; reflexivity].
  exists "("%string. split; vm_compute; reflexivity.
Qed.

(** C7 fails on a stream of uneven packets.  A second window with 10 ms
    of new data that takes 100 ms lowers [overlap_ms] from 350 to 340,
    far above 0.75 * 10: the decrease has no upper bound.  Processed in
    5 ms instead, the same window takes [overlap_ms] to 7, below 100; and
    a third window, processed too slowly, then computes [7 - 10] in
    [uint64_t] and leaves [overlap_ms] at 2^64 - 3. *)
Lemma overlap_leaves_its_bounds :
  observe (fun gf _ => overlap_ms gf)
    (example_filter None None) uneven_second_window_slow = Some 340
  /\ new_frames_ms (example_filter None None) 10 = 10
  /\ observe (fun gf _ => overlap_ms gf)
       (example_filter None None) uneven_second_window = Some 7
  /\ observe (fun gf _ => overlap_ms gf)
       (example_filter None None) uneven_third_window
     = Some (2 ^ 64 - 3).
Proof.
  repeat split; vm_compute; reflexivity.
Qed.

End Examples.

(** ** The theorems at work on the example runs *)

Section Witnesses.
#[local] Existing Instance literal_regex.
#[local] Existing Instance no_tone.

(** Splits the conjunctions of a goal, and nothing else. *)
Ltac conjuncts := repeat match goal with |- _ /\ _ => split end.

(** Proves [gate_in_bounds] of a concrete environment and state: the gate
    is off, or the resampled buffer is not empty. *)
Ltac gate_reads :=
  let Hv := fresh in
  let Hnil := fresh in
  intros Hv;
  first [ vm_compute in Hv; discriminate Hv
        | intros Hnil; vm_compute in Hnil; discriminate Hnil ].

Lemma classifier_decides_in_order_witness :
  let gf := example_filter (Some "um"%string) (Some "damn"%string) in
  let gf' := example_filter (Some ""%string) (Some "damn"%string) in
  whisper_context gf <> None
  /\ classification gf [] (WhisperReturns 0 "Um... damn  ")
     = DETECTION_RESULT_FILLER
  /\ whisper_context gf' <> None
  /\ (detect_regex gf' = None \/ detect_regex gf' = Some EmptyString)
  /\ classification gf' [] (WhisperReturns 0 "Um... damn  ")
     = DETECTION_RESULT_BEEP
  /\ forall asr, classification gf' [] asr <> DETECTION_RESULT_FILLER.
Proof.
  intros gf gf'.
  assert (whisper_context gf <> None) as Hctx by discriminate.
  assert (whisper_context gf' <> None) as Hctx' by discriminate.
  assert (detect_regex gf' = None \/ detect_regex gf' = Some EmptyString)
    as Hd by (right; reflexivity).
  destruct (classifier_decides_in_order gf [] "Um... damn  " Hctx)
    as [Horder _].
  destruct (classifier_decides_in_order gf' [] "Um... damn  " Hctx')
    as [Horder' Hnever].
  conjuncts;
    [exact Hctx
    | rewrite Horder; vm_compute; reflexivity
    | exact Hctx' | exact Hd
    | rewrite Horder'; vm_compute; reflexivity | now apply Hnever].
Defined.

Lemma regex_failure_classifies_as_speech_witness :
  let gf := gated_window_queued (Some "("%string) (Some "damn"%string) in
  let env := heard swearing_env in
  whisper_context gf <> None
  /\ asr env = WhisperReturns 0 "Damn it "
  /\ is_empty (rtrim (lowercase "Damn it ")) = false
  /\ pattern_malformed (detect_regex gf)
  /\ window_ready gf
  /\ gate_in_bounds env gf
  /\ run_whisper_inference gf [] (asr env)
     = (gf, DETECTION_RESULT_SPEECH, [EvWhisperFull []; EvError "Regex error"])
  /\ exists gf' events,
       process_audio_from_buffer env gf = Some (gf', events)
       /\ published_as_staged gf gf'.
Proof.
  intros gf env.
  assert (whisper_context gf <> None) as Hctx by (vm_compute; discriminate).
  assert (asr env = WhisperReturns 0 "Damn it ") as Hasr
    by reflexivity.
  assert (is_empty (rtrim (lowercase "Damn it ")) = false) as He
    by reflexivity.
  assert (pattern_malformed (detect_regex gf)) as Hbad
    by (exists "("%string; split; vm_compute; reflexivity).
  assert (window_ready gf) as Hready
    by (apply window_readyb_sound; vm_compute; reflexivity).
  assert (gate_in_bounds env gf) as Hgate by gate_reads.
  destruct (regex_failure_classifies_as_speech env gf "Damn it "
              Hctx Hasr He (or_introl Hbad)) as [Hrun Hpub].
  destruct (Hpub Hready Hgate) as (gf' & events & Hp & Hout).
  conjuncts;
    [exact Hctx | exact Hasr | exact He | exact Hbad | exact Hready
    | exact Hgate | apply Hrun | exists gf', events; split; assumption].
Defined.

Lemma asr_failure_publishes_unmodified_witness :
  let gf := gated_window_queued None None in
  let env := heard failing_env in
  window_ready gf
  /\ whisper_context gf <> None
  /\ asr env = WhisperReturns 1 ""
  /\ 1 <> 0
  /\ gate_in_bounds env gf
  /\ exists gf' events,
       process_audio_from_buffer env gf = Some (gf', events)
       /\ published_as_staged gf gf'.
Proof.
  intros gf env.
  assert (window_ready gf) as Hready
    by (apply window_readyb_sound; vm_compute; reflexivity).
  assert (whisper_context gf <> None) as Hctx by (vm_compute; discriminate).
  assert (asr env = WhisperReturns 1 "") as Hasr by reflexivity.
  assert (1 <> 0) as Hcode by lia.
  assert (gate_in_bounds env gf) as Hgate by gate_reads.
  destruct (asr_failure_publishes_unmodified env gf 1 ""
              Hready Hctx Hasr Hcode) as (_ & Hpub).
  destruct (Hpub Hgate) as (gf' & events & Hp & Hout & _).
  conjuncts;
    [exact Hready | exact Hctx | exact Hasr | exact Hcode | exact Hgate
    | exists gf', events; conjuncts; assumption].
Defined.

Lemma null_context_returns_unknown_witness :
  let gf := set_whisper_context (gated_window_queued None None) None in
  let env := heard silence_env in
  window_ready gf
  /\ whisper_context gf = None
  /\ gate_in_bounds env gf
  /\ exists gf',
       process_audio_from_buffer env gf
       = Some (gf', [EvWarn "whisper context is null"])
       /\ published_as_staged gf gf'.
Proof.
  intros gf env.
  assert (window_ready gf) as Hready
    by (apply window_readyb_sound; vm_compute; reflexivity).
  assert (whisper_context gf = None) as Hctx by reflexivity.
  assert (gate_in_bounds env gf) as Hgate by gate_reads.
  destruct (null_context_returns_unknown env gf Hready Hctx)
    as (_ & Hpub).
  destruct (Hpub Hgate) as (gf' & Hp & Hout).
  conjuncts;
    [exact Hready | exact Hctx | exact Hgate
    | exists gf'; split; assumption].
Defined.

Lemma straddling_packet_is_pushed_back_witness :
  let gf := state_after (example_filter None None) straddling_stream in
  let p := {| frames := 20; timestamp := 1000000000 |} in
  window_ready gf
  /\ info_buffer gf = hundred_descriptors ++ [p]
  /\ Forall (fun i => 0 <= frames i) hundred_descriptors
  /\ 0 <= frames p
  /\ sum_frames hundred_descriptors <= how_many_frames_needed gf
  /\ how_many_frames_needed gf < sum_frames hundred_descriptors + frames p
       < 2 ^ 32
  /\ drain_info_buffer (how_many_frames_needed gf) (info_buffer gf) 0 0
     = (sum_frames hundred_descriptors,
        latch_timestamp 0 (hundred_descriptors ++ [p]), [p]).
Proof.
  intros gf p.
  assert (window_ready gf) as Hready
    by (apply window_readyb_sound; vm_compute; reflexivity).
  assert (info_buffer gf = hundred_descriptors ++ [p]) as Hbuf
    by (vm_compute; reflexivity).
  assert (Forall (fun i => 0 <= frames i) hundred_descriptors) as Hpre.
  { apply Forall_forall. intros i Hi.
    apply in_map_iff in Hi as (k & <- & _). cbn. lia. }
  assert (0 <= frames p) as Hp by (cbn; lia).
  assert (sum_frames hundred_descriptors <= how_many_frames_needed gf) as Hfit
    by (apply Z.leb_le; vm_compute; reflexivity).
  assert (how_many_frames_needed gf
          < sum_frames hundred_descriptors + frames p < 2 ^ 32) as Hover
    by (split; apply Z.ltb_lt; vm_compute; reflexivity).
  destruct (straddling_packet_is_pushed_back gf hundred_descriptors p []
              Hready Hbuf Hpre Hp Hfit Hover) as (Hdrain & _).
  conjuncts;
    [exact Hready | exact Hbuf | exact Hpre | exact Hp | exact Hfit
    | apply Hover | apply Hover | exact Hdrain].
Defined.

Lemma detection_overwrites_leading_frames_example :
  let gf := state_after (example_filter (Some "um"%string) None)
              until_second_window in
  window_ready gf
  /\ do_silence gf = true
  /\ gate_in_bounds filler_env gf
  /\ snd (gate_outcome filler_env gf) = false
  /\ classified_as gf (asr filler_env) DETECTION_RESULT_FILLER
  /\ exists gf' events,
       process_audio_from_buffer filler_env gf = Some (gf', events)
       /\ forall copy input output,
            nth_error (copy_buffers gf) 0 = Some copy ->
            nth_error (input_buffers gf) 0 = Some input ->
            nth_error (output_buffers gf) 0 = Some output ->
            nth_error (output_buffers gf') 0
            = Some (output
                      ++ map (fun i => replacement_sample gf
                                         DETECTION_RESULT_FILLER (Z.of_nat i))
                           (seq 0 (Z.to_nat (window_new_frames gf)))).
Proof.
  intros gf.
  assert (window_ready gf) as Hready
    by (apply window_readyb_sound; vm_compute; reflexivity).
  assert (do_silence gf = true) as Hs by (vm_compute; reflexivity).
  assert (gate_in_bounds filler_env gf) as Hgate by gate_reads.
  assert (snd (gate_outcome filler_env gf) = false) as Hvad
    by (vm_compute; reflexivity).
  assert (classified_as gf (asr filler_env) DETECTION_RESULT_FILLER) as Hcls.
  { intros staged pcm H1 H2 H3. unfold run_whisper_inference.
    rewrite H1, H2, H3. vm_compute. reflexivity. }
  destruct (detection_overwrites_leading_frames filler_env gf
              DETECTION_RESULT_FILLER Hready Hs Hgate Hvad (or_introl eq_refl)
              Hcls)
    as (gf' & events & Hproc & Hframes).
  conjuncts;
    [exact Hready | exact Hs | exact Hgate | exact Hvad | exact Hcls
    | exists gf', events; split;
      [exact Hproc
      | intros copy input output Hc Hi Ho;
        apply (Hframes 0%nat copy input output Hc Hi Ho)]].
Defined.

Lemma overlap_stays_above_minimum_witness :
  let gf := example_filter None None in
  let ws := [ {| timing_num_new := 670; timing_skipped := false;
                 timing_duration := 1500 |};
              {| timing_num_new := 670; timing_skipped := false;
                 timing_duration := 100 |};
              {| timing_num_new := 670; timing_skipped := true;
                 timing_duration := 100 |} ] in
  overlap_ms gf = OVERLAP_SIZE_MSEC
  /\ Forall (fun w => raises_overlap gf w = true ->
                      134 <= window_new_ms gf w < 65536) ws
  /\ 100 <= overlap_ms (adapt_overlap_over gf ws) < 65536.
Proof.
  intros gf ws.
  assert (overlap_ms gf = OVERLAP_SIZE_MSEC) as H0 by reflexivity.
  assert (Forall (fun w => raises_overlap gf w = true ->
                           134 <= window_new_ms gf w < 65536) ws) as Hws.
  { constructor; [|constructor; [|constructor; [|constructor]]];
      intros _; split; first [apply Z.leb_le | apply Z.ltb_lt];
      vm_compute; reflexivity. }
  destruct (overlap_stays_above_minimum gf ws H0 Hws) as (Hrange & _).
  conjuncts;
    [exact H0 | exact Hws | apply Hrange | apply Hrange].
Defined.

End Witnesses.

(** * The rest of the pipeline *)

(** ** The high-pass filter, empty buffer or not *)

Lemma high_pass_in_place_length (alpha : float32) (xs : list float32) :
  forall y prev, length (high_pass_in_place_from alpha y prev xs) = length xs.
Proof.
  induction xs as [|x xs IH]; intros y prev; cbn; [reflexivity|].
  now rewrite IH.
Qed.

Lemma high_pass_in_place_step (alpha : float32) (xs : list float32) :
  forall y prev i,
    (S i < length xs)%nat ->
    rd (high_pass_in_place_from alpha y prev xs) (S i)
    = (alpha * (rd (high_pass_in_place_from alpha y prev xs) i
                + rd xs (S i)
                - rd (high_pass_in_place_from alpha y prev xs) i))%f32.
Proof.
  induction xs as [|x xs IH]; intros y prev i Hi; [cbn in Hi; lia|].
  cbn [high_pass_in_place_from].
  destruct i as [|i].
  - destruct xs as [|x' xs]; [cbn in Hi; lia|]. reflexivity.
  - change (rd (?a :: ?l) (S ?k)) with (rd l k).
    apply IH. cbn in Hi. lia.
Qed.

(** X1. What [high_pass_filter] does.  On an empty buffer it reads
    [pcmf32[0]] outside the buffer.  On every other buffer it returns:
    the output has the length of the input and keeps its first sample;
    the second sample is [alpha * (x[0] + x[1] - x[0])]; and from the
    third on each sample is [alpha * (y[i-1] + x[i] - y[i-1])], the
    neighbour subtracted being the output just stored at [i - 1]. *)
Theorem high_pass_filter_recurrence (x : list float32) (cutoff : float32)
    (sample_rate : Z) :
  let alpha := hp_alpha cutoff sample_rate in
  match high_pass_filter x cutoff sample_rate with
  | None => x = []
  | Some y =>
      x <> []
      /\ length y = length x
      /\ rd y 0 = rd x 0
      /\ ((1 < length x)%nat ->
          rd y 1 = (alpha * (rd x 0 + rd x 1 - rd x 0))%f32)
      /\ forall i, (2 <= i < length x)%nat ->
           rd y i = (alpha * (rd y (i - 1) + rd x i - rd y (i - 1)))%f32
  end.
Proof.
  destruct x as [|x0 xs]; [reflexivity|].
  cbv zeta. rewrite high_pass_filter_in_place.
  set (alpha := hp_alpha cutoff sample_rate).
  split; [discriminate|].
  split; [cbn; now rewrite high_pass_in_place_length|].
  split; [reflexivity|].
  split.
  - destruct xs as [|x1 xs]; [cbn; lia|]. reflexivity.
  - intros i Hi. destruct i as [|[|i]]; try lia.
    change (rd (x0 :: ?l) (S ?k)) with (rd l k).
    replace (S (S i) - 1)%nat with (S i) by lia.
    change (rd (x0 :: ?l) (S ?k)) with (rd l k).
    apply high_pass_in_place_step. cbn in Hi. lia.
Qed.

(** ** What the gate cannot judge, and digital silence *)

Lemma holds_from_sound (p : Z -> bool) (k : nat) :
  forall n, holds_from p k n = true ->
  forall m, n <= m < n + Z.of_nat k -> p m = true.
Proof.
  induction k as [|k IH]; intros n H m Hm; [lia|].
  cbn in H. apply andb_true_iff in H as [H0 H].
  destruct (Z.eq_dec m n) as [->|Hne]; [exact H0|].
  apply (IH (n + 1) H). lia.
Qed.

(** ** NaN *)

Lemma add_nan_r (x : float32) : (x + S754_nan)%f32 = S754_nan.
Proof. now destruct x. Qed.

Lemma sub_nan_l (x : float32) : (S754_nan - x)%f32 = S754_nan.
Proof. reflexivity. Qed.

Lemma mul_nan_r (x : float32) : (x * S754_nan)%f32 = S754_nan.
Proof. now destruct x. Qed.

Lemma is_nan_eq (x : float32) : is_nan x = true -> x = S754_nan.
Proof. now destruct x. Qed.

Lemma high_pass_in_place_nan (alpha : float32) (xs : list float32) :
  forall y prev,
    existsb is_nan xs = true ->
    existsb is_nan (high_pass_in_place_from alpha y prev xs) = true.
Proof.
  induction xs as [|x xs IH]; intros y prev H; [discriminate|].
  cbn in H |- *. apply orb_true_iff in H as [H|H].
  - apply is_nan_eq in H. subst x.
    now rewrite add_nan_r, sub_nan_l, mul_nan_r.
  - rewrite IH by exact H. apply orb_true_r.
Qed.

Lemma high_pass_filter_nan (pcmf32 : list float32) (cutoff : float32)
    (sample_rate : Z) :
  existsb is_nan pcmf32 = true ->
  exists filtered,
    high_pass_filter pcmf32 cutoff sample_rate = Some filtered
    /\ existsb is_nan filtered = true.
Proof.
  destruct pcmf32 as [|x0 xs]; [discriminate|].
  rewrite high_pass_filter_in_place. intros H.
  eexists. split; [reflexivity|]. cbn in H |- *.
  apply orb_true_iff in H as [H|H]; [now rewrite H|].
  rewrite high_pass_in_place_nan by exact H. apply orb_true_r.
Qed.

Lemma energy_nan_start (l : list float32) :
  fold_left (fun e x => (e + F32.abs x)%f32) l S754_nan = S754_nan.
Proof. induction l as [|x l IH]; cbn; [reflexivity | exact IH]. Qed.

Lemma energy_nan (l : list float32) :
  forall e, existsb is_nan l = true ->
  fold_left (fun e x => (e + F32.abs x)%f32) l e = S754_nan.
Proof.
  induction l as [|x l IH]; intros e H; [discriminate|].
  cbn in H |- *. apply orb_true_iff in H as [H|H].
  - apply is_nan_eq in H. subst x. cbn [F32.abs SFabs].
    rewrite add_nan_r. apply energy_nan_start.
  - now apply IH.
Qed.

(** X2. A buffer that holds a NaN sample is never gated out:
    [vad_simple] returns, the NaN survives the high-pass filter, the mean
    energy is NaN, the comparison [energy_all < vad_thold] is false and
    [vad_simple] reports speech, whatever the rate and the thresholds. *)
Theorem vad_simple_never_gates_nan (pcmf32 : list float32)
    (sample_rate : Z) (vad_thold freq_thold : float32) :
  existsb is_nan pcmf32 = true ->
  exists filtered,
    vad_simple pcmf32 sample_rate vad_thold freq_thold = Some (filtered, true)
    /\ existsb is_nan filtered = true.
Proof.
  intros H. unfold vad_simple.
  assert (exists filtered,
            (if F32.ltb F32.zero freq_thold
             then high_pass_filter pcmf32 freq_thold sample_rate
             else Some pcmf32) = Some filtered
            /\ existsb is_nan filtered = true) as (filtered & -> & Hn).
  { destruct (F32.ltb F32.zero freq_thold); [|eauto].
    now apply high_pass_filter_nan. }
  exists filtered. split; [|exact Hn].
  rewrite energy_nan by exact Hn. reflexivity.
Qed.

(** ** Digital silence *)

Lemma high_pass_in_place_zeros (k : nat) :
  high_pass_in_place_from (hp_alpha FREQ_THOLD WHISPER_SAMPLE_RATE)
    F32.zero F32.zero (repeat F32.zero k)
  = repeat F32.zero k.
Proof.
  induction k as [|k IH]; [reflexivity|].
  cbn [repeat high_pass_in_place_from].
  replace (hp_alpha FREQ_THOLD WHISPER_SAMPLE_RATE
           * (F32.zero + F32.zero - F32.zero))%f32
    with F32.zero by (vm_compute; reflexivity).
  now rewrite IH.
Qed.

Lemma energy_zeros (k : nat) :
  fold_left (fun e x => (e + F32.abs x)%f32) (repeat F32.zero k) F32.zero
  = F32.zero.
Proof. induction k as [|k IH]; [reflexivity | exact IH]. Qed.

Lemma zero_mean_below_threshold (n : Z) :
  0 < n < 65536 ->
  F32.ltb (F32.zero / F32.of_Z n)%f32 VAD_THOLD = true.
Proof.
  intros Hn.
  apply (holds_from_sound
           (fun n => F32.ltb (F32.zero / F32.of_Z n)%f32 VAD_THOLD)
           (Z.to_nat 65535) 1);
    [vm_compute; reflexivity | lia].
Qed.

Lemma vad_simple_zeros (k : nat) :
  0 < Z.of_nat k < 65536 ->
  vad_simple (repeat F32.zero k) WHISPER_SAMPLE_RATE VAD_THOLD FREQ_THOLD
  = Some (repeat F32.zero k, false).
Proof.
  intros Hk. unfold vad_simple.
  replace (F32.ltb F32.zero FREQ_THOLD) with true by (vm_compute; reflexivity).
  assert (high_pass_filter (repeat F32.zero k) FREQ_THOLD WHISPER_SAMPLE_RATE
          = Some (repeat F32.zero k)) as ->.
  { destruct k as [|k]; [lia|]. cbn [repeat].
    rewrite high_pass_filter_in_place. now rewrite high_pass_in_place_zeros. }
  rewrite energy_zeros, repeat_length, zero_mean_below_threshold by lia.
  reflexivity.
Qed.

Section Gate.
Context {R : StdRegex} {M : Libm}.

(** A window the gate skips is published as staged, whatever the ASR
    engine would have done. *)
Lemma process_audio_skipped (env : window_env) (gf : cleanstream_data)
    (pcm : list float32) :
  vad_gate env gf = Some (pcm, true) ->
  process_audio_from_buffer env gf
  = option_map (fun g => (g, []))
      (publish_untransformed true (duration env) gf).
Proof.
  intros Hskip. unfold process_audio_from_buffer, publish_untransformed.
  destruct (assemble_window gf) as [[[n ts] staged]|] eqn:Ha; [|reflexivity].
  destruct (assemble_window_shape _ _ _ _ Ha) as (i & c & inp & l & ->).
  rewrite vad_gate_staged, Hskip.
  destruct (sample_rate _ =? 0); [reflexivity|].
  destruct (snapshot_copy_buffers _) as [snapshot|]; [|reflexivity].
  now destruct (publish_window _ _ _ _).
Qed.

(** X3. Digital silence is gated out.  With the gate on and a resampled
    buffer of 1 to 65535 zero samples, [vad_simple] reports no speech and
    leaves the buffer as it is; the window is then published as staged
    with no call of the ASR engine (no event, the context untouched even
    where the engine would throw).  The overlap is left alone, or set to
    the larger of [overlap_ms - 10] (in [uint64_t]) and 100 when the
    window was slow; from 100 ms up it is therefore never raised. *)
Theorem vad_gate_skips_digital_silence (env : window_env)
    (gf : cleanstream_data) (k : nat) :
  vad_enabled gf = true ->
  resampled env = repeat F32.zero k ->
  0 < Z.of_nat k < 65536 ->
  vad_gate env gf = Some (repeat F32.zero k, true)
  /\ (window_ready gf ->
      exists gf',
        process_audio_from_buffer env gf = Some (gf', [])
        /\ published_as_staged gf gf'
        /\ whisper_context gf' = whisper_context gf
        /\ (overlap_ms gf' = overlap_ms gf
            \/ overlap_ms gf' = Z.max (wrap64 (overlap_ms gf - 10)) 100)
        /\ (100 <= overlap_ms gf -> overlap_ms gf' <= overlap_ms gf)).
Proof.
  intros Hvad Hres Hk.
  assert (vad_gate env gf = Some (repeat F32.zero k, true)) as Hgate.
  { unfold vad_gate. rewrite Hvad, Hres, vad_simple_zeros by exact Hk.
    reflexivity. }
  split; [exact Hgate|]. intros Hready.
  rewrite (process_audio_skipped env gf _ Hgate).
  destruct (publish_untransformed_as_staged true (duration env) gf Hready)
    as (gf' & Hp & Hs).
  exists gf'. rewrite Hp. split; [reflexivity|]. split; [exact Hs|].
  cut (whisper_context gf' = whisper_context gf
       /\ (overlap_ms gf' = overlap_ms gf
           \/ overlap_ms gf' = Z.max (wrap64 (overlap_ms gf - 10)) 100)).
  { intros (Hc & Ho). split; [exact Hc|]. split; [exact Ho|].
    intros Hmin. destruct Ho as [-> | ->]; [lia|].
    assert (wrap64 (overlap_ms gf - 10) <= overlap_ms gf - 10)
      by (apply Z.mod_le; lia).
    lia. }
  unfold publish_untransformed in Hp.
  destruct (assemble_window gf) as [[[n ts] staged]|] eqn:Ha; [|discriminate].
  destruct (assemble_window_shape _ _ _ _ Ha) as (i & c & inp & l & ->).
  destruct (sample_rate _ =? 0); [discriminate|].
  destruct (snapshot_copy_buffers _) as [snapshot|]; [|discriminate].
  unfold publish_window in Hp.
  destruct (for_channels2 _ _ _ _) as [[arrays output]|]; [|discriminate].
  injection Hp as <-.
  match goal with
  | |- context [adapt_overlap ?g0 ?n0 ?s0 ?d0] =>
      destruct (adapt_overlap_buffers g0 n0 s0 d0)
        as (_ & _ & _ & _ & _ & _ & _ & ->);
      unfold adapt_overlap;
      destruct (d0 >? new_frames_ms g0 n0)
  end; cbn; auto.
Qed.

End Gate.


(** ** Timestamps *)

Lemma printf_two_digits (n : Z) :
  0 <= n < 100 ->
  printf_0d 2 n = two_digits n
  /\ printf_0d 3 n = String "0" (two_digits n).
Proof.
  intros Hn.
  pose proof (holds_from_sound
                (fun n => String.eqb (printf_0d 2 n) (two_digits n)
                          && String.eqb (printf_0d 3 n)
                               (String "0" (two_digits n)))
                100 0) as Hall.
  specialize (Hall eq_refl n). cbv beta in Hall.
  apply andb_true_iff in Hall as [H2 H3]; [|lia].
  now apply String.eqb_eq in H2, H3.
Qed.

Lemma to_int_small (x : Z) : - 2 ^ 31 <= x < 2 ^ 31 -> to_int x = x.
Proof.
  intros H. unfold to_int. rewrite Z.mod_small by lia. lia.
Qed.

(** X5. The fields of [to_timestamp] recompose to [t] as
    [(min * 60 + sec) * 100 + msec], with [sec] within 59 and [msec]
    within 99 in absolute value: the field printed with three digits
    counts hundredths of a second.  For [0 <= t < 600000] the string is
    [MM:SS.0CC], the digit after the point being always 0. *)
Theorem to_timestamp_counts_hundredths (t : Z) :
  let '(min, sec, msec) := timestamp_fields t in
  t = (min * 60 + sec) * 100 + msec
  /\ Z.abs sec < 60
  /\ Z.abs msec < 100
  /\ (0 <= t < 600000 ->
      min = t / 6000 /\ sec = t / 100 mod 60 /\ msec = t mod 100
      /\ to_timestamp t
         = (two_digits min ++ ":" ++ two_digits sec ++ ".0"
              ++ two_digits msec)%string).
Proof.
  unfold to_timestamp, timestamp_fields.
  set (s := Z.quot t 100). set (m := Z.quot s 60).
  pose proof (Z.quot_rem' t 100) as E1. fold s in E1.
  pose proof (Z.quot_rem' s 60) as E2. fold m in E2.
  pose proof (Z.rem_bound_abs t 100) as B1.
  pose proof (Z.rem_bound_abs s 60) as B2.
  assert (t - s * 100 = Z.rem t 100) as Hms by lia.
  assert (s - m * 60 = Z.rem s 60) as Hs by lia.
  split; [lia|]. split; [rewrite Hs; lia|]. split; [rewrite Hms; lia|].
  intros Ht.
  assert (s = t / 100) as Hs' by (unfold s; apply Z.quot_div_nonneg; lia).
  assert (0 <= s < 6000).
  { rewrite Hs'. split; [apply Z.div_pos; lia|].
    apply Z.div_lt_upper_bound; lia. }
  assert (m = s / 60) as Hm' by (unfold m; apply Z.quot_div_nonneg; lia).
  assert (0 <= m < 100).
  { rewrite Hm'. split; [apply Z.div_pos; lia|].
    apply Z.div_lt_upper_bound; lia. }
  assert (m = t / 6000) as Hm''.
  { rewrite Hm', Hs', Z.div_div by lia. reflexivity. }
  assert (s - m * 60 = t / 100 mod 60) as Hsec.
  { rewrite Hm', <- Hs'. rewrite Z.mod_eq by lia. lia. }
  assert (t - s * 100 = t mod 100) as Hmsec.
  { rewrite Hs'. rewrite Z.mod_eq by lia. lia. }
  assert (0 <= s - m * 60 < 60)
    by (rewrite Hsec; apply Z.mod_pos_bound; lia).
  assert (0 <= t - s * 100 < 100)
    by (rewrite Hmsec; apply Z.mod_pos_bound; lia).
  split; [exact Hm''|]. split; [exact Hsec|]. split; [exact Hmsec|].
  rewrite !to_int_small by lia.
  destruct (printf_two_digits m) as [-> _]; [lia|].
  destruct (printf_two_digits (s - m * 60)) as [-> _]; [lia|].
  destruct (printf_two_digits (t - s * 100)) as [_ ->]; [lia|].
  reflexivity.
Qed.

(** ** Word boundaries *)

Lemma read_window_defined (pcmf32 : list float32) (from n : Z) :
  0 <= from -> 0 <= n -> from + n <= Z.of_nat (length pcmf32) ->
  exists w, read_window pcmf32 from n = Some w.
Proof.
  intros Hf Hn Hfit. unfold read_window.
  destruct (n =? 0); [eauto|].
  destruct (read_at_defined pcmf32 from n) as (w & Hw & _); eauto.
Qed.

(** X4. [word_boundary_simple] stays inside its buffer exactly when the
    buffer holds at least one window of 50 ms ([sample_rate * 50 / 1000]
    samples); in verbose mode its logging loop also needs a window of at
    least one sample, or an empty buffer, to end.  When it returns, it
    returns 0 or the length of that window. *)
Theorem word_boundary_simple_bounds (pcmf32 : list float32)
    (sample_rate : Z) (thold : float32) (verbose : bool) :
  0 <= sample_rate * 50 < 2 ^ 32 ->
  Z.of_nat (length pcmf32) < 2 ^ 64 ->
  let n_samples_window := sample_rate * 50 / 1000 in
  (word_boundary_simple pcmf32 sample_rate thold verbose = None
   <-> Z.of_nat (length pcmf32) < n_samples_window
       \/ (verbose = true /\ n_samples_window = 0 /\ pcmf32 <> []))
  /\ forall boundary,
       word_boundary_simple pcmf32 sample_rate thold verbose = Some boundary ->
       boundary = 0 \/ boundary = n_samples_window.
Proof.
  intros Hrate Hsize n. unfold word_boundary_simple.
  rewrite wrap32_small by exact Hrate. fold n.
  assert (0 <= n) as Hn by (apply Z.div_pos; lia).
  set (size := Z.of_nat (length pcmf32)) in *.
  destruct (Z_lt_ge_dec size n) as [Hshort|Hlong].
  - assert (avg_energy_in_window pcmf32 0 n = None) as ->.
    { unfold avg_energy_in_window, read_window, read_at.
      replace (n =? 0) with false by (symmetry; apply Z.eqb_neq; lia).
      replace (0 + n <=? Z.of_nat (length pcmf32)) with false
        by (symmetry; apply Z.leb_gt; fold size; lia).
      now rewrite andb_false_r. }
    split; [tauto | discriminate].
  - rewrite (wrap64_small (size - n)) by lia.
    unfold avg_energy_in_window, max_energy_in_window.
    destruct (read_window_defined pcmf32 0 n) as (w1 & ->); try (fold size; lia).
    destruct (read_window_defined pcmf32 (size - n) n) as (w2 & ->);
      try (fold size; lia).
    destruct (read_window_defined pcmf32 n (size - n)) as (w3 & ->);
      try (fold size; lia).
    assert ((0 <? size) = true <-> pcmf32 <> []) as Hne.
    { unfold size. destruct pcmf32; cbn; split; congruence. }
    destruct verbose; cbn [andb].
    + destruct (Z.eqb_spec n 0) as [E|E]; cbn [andb].
      * destruct (0 <? size) eqn:Hpos.
        -- split; [|discriminate]. split; [|reflexivity].
           intros _. right. repeat split; trivial. now apply Hne.
        -- split.
           ++ split; [now destruct (_ && _)|].
              intros [?|(_ & _ & Hx)]; [lia|]. apply Hne in Hx. discriminate.
           ++ intros b. destruct (_ && _); intros [= <-]; auto.
      * split.
        -- split; [now destruct (_ && _)|]. intros [?|(_ & ? & _)]; lia.
        -- intros b. destruct (_ && _); intros [= <-]; auto.
    + split.
      * split; [now destruct (_ && _)|].
        intros [?|(? & _)]; [lia | discriminate].
      * intros b. destruct (_ && _); intros [= <-]; auto.
Qed.

(** ** The normalised transcript *)

Lemma tolower_idempotent (c : ascii) : tolower (tolower c) = tolower c.
Proof.
  destruct c as [[] [] [] [] [] [] [] []]; vm_compute; reflexivity.
Qed.

Lemma isspace_tolower (c : ascii) : isspace (tolower c) = isspace c.
Proof.
  destruct c as [[] [] [] [] [] [] [] []]; vm_compute; reflexivity.
Qed.

Lemma lowercase_idempotent (s : string) : lowercase (lowercase s) = lowercase s.
Proof.
  induction s as [|c s IH]; cbn; [reflexivity|].
  now rewrite tolower_idempotent, IH.
Qed.

Lemma lowercase_app (s t : string) :
  lowercase (s ++ t) = (lowercase s ++ lowercase t)%string.
Proof.
  induction s as [|c s IH]; cbn; [reflexivity|]. now rewrite IH.
Qed.

Lemma all_space_lowercase (s : string) : all_space (lowercase s) = all_space s.
Proof.
  induction s as [|c s IH]; cbn; [reflexivity|].
  now rewrite isspace_tolower, IH.
Qed.

Lemma rtrim_empty_iff (s : string) : rtrim s = EmptyString <-> all_space s = true.
Proof.
  induction s as [|c s IH]; cbn; [tauto|].
  destruct (rtrim s) eqn:Hr.
  - destruct (isspace c); cbn.
    + split; intros _; [now apply IH|reflexivity].
    + split; [discriminate|discriminate].
  - split; [discriminate|].
    intros H. apply andb_true_iff in H as [_ H]. apply IH in H. discriminate.
Qed.

Lemma rtrim_app_space (s ws : string) :
  all_space ws = true -> rtrim (s ++ ws) = rtrim s.
Proof.
  intros Hws. induction s as [|c s IH]; cbn.
  - now apply rtrim_empty_iff.
  - now rewrite IH.
Qed.

Lemma rtrim_decompose (s : string) :
  exists ws, s = (rtrim s ++ ws)%string /\ all_space ws = true.
Proof.
  induction s as [|c s (ws & Hs & Hws)]; cbn.
  - now exists EmptyString.
  - destruct (rtrim s) eqn:Hr.
    + destruct (isspace c) eqn:Hc.
      * exists (String c s). split; [reflexivity|]. cbn. rewrite Hc. cbn.
        now apply rtrim_empty_iff.
      * exists s. split; [reflexivity|]. now apply rtrim_empty_iff.
    + exists ws. split; [|exact Hws]. rewrite Hs at 1. reflexivity.
Qed.

Lemma rtrim_last_char (s : string) (c : ascii) :
  last_char (rtrim s) = Some c -> isspace c = false.
Proof.
  revert c. induction s as [|a s IH]; intros c; cbn; [discriminate|].
  destruct (rtrim s) eqn:Hr.
  - destruct (isspace a) eqn:Ha; cbn; [discriminate|]. now intros [= <-].
  - intros H. apply IH. exact H.
Qed.

Lemma rtrim_idempotent (s : string) : rtrim (rtrim s) = rtrim s.
Proof.
  induction s as [|a s IH]; cbn; [reflexivity|].
  destruct (rtrim s) eqn:Hr.
  - destruct (isspace a) eqn:Ha; cbn; [reflexivity|]. now rewrite Ha.
  - cbn. cbn in IH. now rewrite IH.
Qed.

Lemma lowercase_rtrim (s : string) : lowercase (rtrim s) = rtrim (lowercase s).
Proof.
  induction s as [|a s IH]; cbn; [reflexivity|].
  rewrite <- IH. destruct (rtrim s) eqn:Hr; cbn.
  - rewrite isspace_tolower. now destruct (isspace a).
  - reflexivity.
Qed.

(** X6. The text the patterns are searched in is the lower-cased
    transcript with its trailing whitespace cut off, and nothing else is
    cut; it does not end in whitespace, normalising it again changes
    nothing, and it is empty exactly when the transcript is all
    whitespace. *)
Theorem normalised_text_is_trimmed (text : string) :
  let t := rtrim (lowercase text) in
  (exists ws, lowercase text = (t ++ ws)%string /\ all_space ws = true)
  /\ (forall c, last_char t = Some c -> isspace c = false)
  /\ rtrim (lowercase t) = t
  /\ (t = EmptyString <-> all_space text = true).
Proof.
  cbn. split; [apply rtrim_decompose|]. split; [apply rtrim_last_char|].
  split.
  - now rewrite lowercase_rtrim, lowercase_idempotent, rtrim_idempotent.
  - rewrite rtrim_empty_iff. now rewrite all_space_lowercase.
Qed.


Section TranscriptProperties.
Context {R : StdRegex}.

Lemma regex_detect_range (detect beep : option string) (text : string) (r : DetectionResult) :
  regex_detect detect beep text = Some r ->
  r = DETECTION_RESULT_FILLER \/ r = DETECTION_RESULT_BEEP
  \/ r = DETECTION_RESULT_SPEECH.
Proof.
  unfold regex_detect.
  destruct (nonempty_pattern detect) as [pat|].
  - destruct (regex_compile pat) as [re|]; [|discriminate].
    destruct (regex_search text re); [intros [= <-]; auto|].
    destruct (nonempty_pattern beep) as [pb|]; [|intros [= <-]; auto].
    destruct (regex_compile pb) as [rb|]; [|discriminate].
    destruct (regex_search text rb); intros [= <-]; auto.
  - destruct (nonempty_pattern beep) as [pb|]; [|intros [= <-]; auto].
    destruct (regex_compile pb) as [rb|]; [|discriminate].
    destruct (regex_search text rb); intros [= <-]; auto.
Qed.

(** X9. UNKNOWN is the classification of exactly three situations: a
    null context, an ASR call that throws, an ASR call that returns a
    non-zero code.  The call changes the state only when the engine
    throws with a context in place, and then it nulls the context. *)
Theorem unknown_iff_asr_unavailable (gf : cleanstream_data)
    (pcm : list float32) (asr : whisper_full_outcome) :
  (classification gf pcm asr = DETECTION_RESULT_UNKNOWN
   <-> whisper_context gf = None
       \/ asr = WhisperThrows
       \/ exists code text, asr = WhisperReturns code text /\ code <> 0)
  /\ (fst (fst (run_whisper_inference gf pcm asr))
      = if match whisper_context gf, asr with
           | Some _, WhisperThrows => true
           | _, _ => false
           end
        then set_whisper_context gf None else gf).
Proof.
  unfold classification, run_whisper_inference.
  destruct (whisper_context gf) as [ctx|] eqn:Hctx.
  2:{ split; [|reflexivity]. cbn. split; auto. }
  destruct asr as [|code text].
  { split; [|reflexivity]. cbn. split; auto. }
  destruct (Z.eqb_spec code 0) as [->|Hcode]; cbn [negb].
  - split.
    2:{ destruct (is_empty _); [reflexivity|].
        now destruct (regex_detect _ _ _). }
    split.
    + destruct (is_empty _); [discriminate|].
      destruct (regex_detect _ _ _) as [r|] eqn:Hr; cbn; [|discriminate].
      intros ->. apply regex_detect_range in Hr.
      destruct Hr as [Hr|[Hr|Hr]]; discriminate.
    + intros [H|[H|(c & t & [= <- <-] & H)]]; congruence.
  - split; [|reflexivity]. cbn. split; [|reflexivity].
    intros _. right. right. eauto.
Qed.

(** X8. With a context in place and an ASR call that returns 0, the
    window is SILENCE exactly when the transcript is empty or all
    whitespace, whatever the patterns. *)
Theorem whitespace_transcript_is_silence (gf : cleanstream_data)
    (pcm : list float32) (text : string) :
  whisper_context gf <> None ->
  (classification gf pcm (WhisperReturns 0 text) = DETECTION_RESULT_SILENCE
   <-> all_space text = true).
Proof.
  intros Hctx. unfold classification, run_whisper_inference.
  destruct (whisper_context gf) as [ctx|]; [|congruence]. cbn [Z.eqb negb].
  rewrite <- all_space_lowercase, <- rtrim_empty_iff.
  destruct (rtrim (lowercase text)) as [|c t] eqn:Ht; cbn [is_empty].
  - cbn. tauto.
  - split; [|discriminate].
    destruct (regex_detect _ _ _) as [r|] eqn:Hr; cbn; [|discriminate].
    intros ->. apply regex_detect_range in Hr.
    destruct Hr as [Hr|[Hr|Hr]]; discriminate.
Qed.

(** X7. The classifier sees neither whitespace at the end of the
    transcript nor the case of its letters: state, classification and
    events are the same for [text], for [text] followed by whitespace and
    for [text] in lower case. *)
Theorem classification_ignores_case_and_trailing_space
    (gf : cleanstream_data) (pcm : list float32) (code : Z)
    (text ws : string) :
  all_space ws = true ->
  run_whisper_inference gf pcm (WhisperReturns code (text ++ ws))
  = run_whisper_inference gf pcm (WhisperReturns code text)
  /\ run_whisper_inference gf pcm (WhisperReturns code (lowercase text))
     = run_whisper_inference gf pcm (WhisperReturns code text).
Proof.
  intros Hws. unfold run_whisper_inference.
  rewrite lowercase_app, lowercase_idempotent, rtrim_app_space;
    [split; reflexivity|].
  now rewrite all_space_lowercase.
Qed.

End TranscriptProperties.

(** ** One window, whatever the ASR engine and the clock do *)

Lemma sum_frames_app (a b : list cleanstream_audio_info) :
  sum_frames (a ++ b) = sum_frames a + sum_frames b.
Proof.
  unfold sum_frames. induction a as [|i a IH]; cbn; [reflexivity|].
  fold (sum_frames (a ++ b)) in *. fold (sum_frames a) in *. 
  rewrite IH. lia.
Qed.

Lemma sum_frames_nonneg (a : list cleanstream_audio_info) :
  Forall (fun i => 0 <= frames i) a -> 0 <= sum_frames a.
Proof.
  unfold sum_frames. induction 1; cbn; [lia|].
  fold (sum_frames l) in *. lia.
Qed.

Lemma push_channels (k : Z) :
  forall (n : nat) (planes rings : list (list float32)),
    length planes = n -> length rings = n -> 0 <= k ->
    Forall (fun plane => k <= Z.of_nat (length plane)) planes ->
    for_channels2 n
      (fun samples cb =>
         pushed <- read_at samples 0 k ;;
         Some (samples, circlebuf_push_back cb pushed))
      planes rings
    = Some (planes,
            map (fun rp => fst rp ++ firstn (Z.to_nat k) (snd rp))
              (combine rings planes)).
Proof.
  induction n as [|n IH]; intros planes rings Hp Hr Hk Hfit.
  - destruct planes, rings; try discriminate. reflexivity.
  - destruct planes as [|p planes], rings as [|r rings]; try discriminate.
    inversion Hfit as [|? ? Hp0 Hrest]; subst.
    cbn [for_channels2]. unfold read_at at 1.
    replace ((0 <=? 0) && (0 <=? k) && (0 + k <=? Z.of_nat (length p)))
      with true by (symmetry; rewrite !andb_true_iff, !Z.leb_le; lia).
    rewrite IH; auto.
Qed.

Lemma pull_channels (k : Z) :
  forall (n : nat) (rings : list (list float32)),
    length rings = n -> 0 <= k ->
    Forall (fun b => k <= Z.of_nat (length b)) rings ->
    for_channels2 n
      (fun (_ : list float32) cb =>
         '(samples, cb) <- circlebuf_pop_front cb k ;;
         Some (samples, cb))
      (repeat [] n) rings
    = Some (map (firstn (Z.to_nat k)) rings, map (skipn (Z.to_nat k)) rings).
Proof.
  induction n as [|n IH]; intros rings Hr Hk Hfit.
  - destruct rings; try discriminate. reflexivity.
  - destruct rings as [|r rings]; try discriminate.
    inversion Hfit as [|? ? Hp0 Hrest]; subst.
    cbn [for_channels2 repeat].
    destruct (circlebuf_pop_front_defined r k) as (-> & _); [lia|].
    rewrite IH; auto.
Qed.

Lemma Forall_combine_length (k : Z) (s : Z) :
  forall (rings planes : list (list float32)),
    length rings = length planes ->
    0 <= k ->
    Forall (fun b => Z.of_nat (length b) = s) rings ->
    Forall (fun plane => k <= Z.of_nat (length plane)) planes ->
    Forall (fun b => Z.of_nat (length b) = s + k)
      (map (fun rp => fst rp ++ firstn (Z.to_nat k) (snd rp))
         (combine rings planes)).
Proof.
  induction rings as [|r rings IH]; intros planes Hl Hk Hr Hp;
    destruct planes as [|p planes]; try discriminate; cbn; constructor.
  - inversion Hr; inversion Hp; subst.
    rewrite length_app, length_firstn. lia.
  - inversion Hr; inversion Hp; subst. apply IH; auto.
Qed.

Section GeneralWindow.
Context {R : StdRegex} {M : Libm}.

Lemma publish_window_frames (g : cleanstream_data) (n ts : Z)
    (s : list (list float32)) :
  length s = channels g ->
  length (output_buffers g) = channels g ->
  0 <= n ->
  Forall (fun b => n <= Z.of_nat (length b)) s ->
  publish_window g n ts s
  = Some (set_output g s
            (info_out_buffer g ++ [{| frames := n; timestamp := ts |}])
            (map (fun os => fst os ++ firstn (Z.to_nat n) (snd os))
               (combine (output_buffers g) s))).
Proof.
  intros Hs Ho Hn Hr. unfold publish_window.
  now rewrite (push_channels n (channels g)).
Qed.

Lemma run_whisper_inference_state (gf : cleanstream_data)
    (pcm : list float32) (asr : whisper_full_outcome) :
  fst (fst (run_whisper_inference gf pcm asr)) = gf
  \/ (whisper_context gf <> None /\ asr = WhisperThrows
      /\ run_whisper_inference gf pcm asr
         = (set_whisper_context gf None, DETECTION_RESULT_UNKNOWN,
            [EvWhisperFull pcm;
             EvError "Whisper exception. Filter restart is required";
             EvWhisperFree])).
Proof.
  unfold run_whisper_inference.
  destruct (whisper_context gf) as [ctx|]; [|now left].
  destruct asr as [|code text].
  - right. repeat split. discriminate.
  - left. destruct (negb (code =? 0)); [reflexivity|].
    destruct (is_empty _); [reflexivity|].
    now destruct (regex_detect _ _ _).
Qed.

Lemma adapt_overlap_constants (g : cleanstream_data) (n : Z) (s : bool) (d : Z) :
  let g' := adapt_overlap g n s d in
  channels g' = channels g
  /\ sample_rate g' = sample_rate g
  /\ window_frames g' = window_frames g
  /\ do_silence g' = do_silence g
  /\ vad_enabled g' = vad_enabled g
  /\ detect_regex g' = detect_regex g
  /\ beep_regex g' = beep_regex g
  /\ active g' = active g.
Proof.
  unfold adapt_overlap.
  destruct (d >? new_frames_ms g n); [cbn; tauto|].
  destruct (negb s); cbn; tauto.
Qed.

Lemma adapt_overlap_same (g1 g2 : cleanstream_data) (n : Z) (s : bool) (d : Z) :
  overlap_ms g1 = overlap_ms g2 ->
  overlap_frames g1 = overlap_frames g2 ->
  sample_rate g1 = sample_rate g2 ->
  overlap_ms (adapt_overlap g1 n s d) = overlap_ms (adapt_overlap g2 n s d)
  /\ overlap_frames (adapt_overlap g1 n s d)
     = overlap_frames (adapt_overlap g2 n s d).
Proof.
  intros Hms Hf Hr. unfold adapt_overlap, new_frames_ms. rewrite Hr.
  destruct (d >? _); [cbn; rewrite Hms, Hr; tauto|].
  destruct (negb s); cbn; rewrite ?Hms, ?Hr; tauto.
Qed.

(** The end of an invocation, from the publication on, in a state [g]
    that holds the staged window. *)
Lemma publish_and_adapt (gf g : cleanstream_data) (s : list (list float32))
    (skipped : bool) (d : Z) (events : list event) :
  window_ready gf ->
  channels g = channels gf ->
  sample_rate g = sample_rate gf ->
  window_frames g = window_frames gf ->
  overlap_ms g = overlap_ms gf ->
  overlap_frames g = overlap_frames gf ->
  info_buffer g = window_remaining_infos gf ->
  input_buffers g
  = map (skipn (Z.to_nat (window_new_frames gf))) (input_buffers gf) ->
  info_out_buffer g = info_out_buffer gf ->
  output_buffers g = output_buffers gf ->
  last_num_frames g = committed_frames gf ->
  length (copy_buffers g) = channels gf ->
  Forall (fun b => Z.of_nat (length b) = window_frames gf) (copy_buffers g) ->
  length s = channels gf ->
  Forall (fun b => Z.of_nat (length b) = committed_frames gf) s ->
  exists gf',
    (g' <- publish_window g (window_new_frames gf)
             (window_start_timestamp gf) s ;;
     Some (adapt_overlap g' (window_new_frames gf) skipped d, events))
    = Some (gf', events)
    /\ window_taken gf gf'
    /\ overlap_ms gf'
       = overlap_ms (adapt_overlap gf (window_new_frames gf) skipped d)
    /\ overlap_frames gf'
       = overlap_frames (adapt_overlap gf (window_new_frames gf) skipped d)
    /\ whisper_context gf' = whisper_context g
    /\ copy_buffers gf' = copy_buffers g
    /\ copy_output_buffers gf' = s
    /\ do_silence gf' = do_silence g
    /\ vad_enabled gf' = vad_enabled g
    /\ detect_regex gf' = detect_regex g
    /\ beep_regex gf' = beep_regex g
    /\ active gf' = active g.
Proof.
  intros H Hch Hrate Hwf Hms Hof Hinfo Hin Hio Hout Hlast Hcl Hcr Hsl Hsr.
  pose proof (committed_frames_range gf H) as Hc.
  pose proof (window_new_frames_range gf H) as Hn.
  rewrite (publish_window_frames g (window_new_frames gf)
             (window_start_timestamp gf) s).
  2:{ congruence. }
  2:{ rewrite Hout, Hch. apply (ready_output gf H). }
  2:{ lia. }
  2:{ eapply Forall_impl; [|exact Hsr]. cbn. intros b Hb. lia. }
  eexists. split; [reflexivity|].
  match goal with
  | |- context [adapt_overlap ?g0 ?n0 ?s0 ?d0] =>
      pose proof (adapt_overlap_buffers g0 n0 s0 d0) as Hb;
      pose proof (adapt_overlap_constants g0 n0 s0 d0) as Hk;
      pose proof (adapt_overlap_same g0 gf n0 s0 d0 Hms Hof Hrate) as Hs;
      cbv zeta in Hb, Hk;
      set (gf' := adapt_overlap g0 n0 s0 d0) in *
  end.
  destruct Hb as (B1 & B2 & B3 & B4 & B5 & B6 & B7 & B8).
  destruct Hk as (K1 & K2 & K3 & K4 & K5 & K6 & K7 & K8).
  destruct Hs as (S1 & S2).
  cbn in B1, B2, B3, B4, B5, B6, B7, B8, K1, K2, K3, K4, K5, K6, K7, K8.
  unfold window_taken.
  rewrite B1, B2, B3, B4, B5, B6, B7, B8, K1, K2, K3, K4, K5, K6, K7, K8.
  rewrite Hch, Hrate, Hwf, Hinfo, Hin, Hio, Hlast, Hcl, Hsl, Hout.
  repeat split; trivial.
Qed.

Lemma assemble_window_staged (gf staged : cleanstream_data) (n ts : Z) :
  window_ready gf ->
  assemble_window gf = Some (n, ts, staged) ->
  forall c copy input,
    nth_error (copy_buffers gf) c = Some copy ->
    nth_error (input_buffers gf) c = Some input ->
    nth_error (copy_buffers staged) c
    = Some (staged_region gf (window_new_frames gf) copy input).
Proof.
  intros H Ha c copy input Hc Hi.
  unfold assemble_window in Ha. rewrite drain_info_buffer_window in Ha.
  destruct (for_channels2 _ _ _ _) as [[copy' input']|] eqn:Hf; [|discriminate].
  injection Ha as <- <- <-. cbn [copy_buffers set_window].
  assert (c < channels gf)%nat as Hlt.
  { rewrite <- (ready_copy gf H). apply nth_error_Some. congruence. }
  destruct (for_channels2_nth _ _ _ _ _ _ Hf c copy input Hlt Hc Hi)
    as (x' & y' & Hpop & Hx' & _).
  rewrite pop_input_channel_staged in Hpop; trivial.
  - injection Hpop as <- _. exact Hx'.
  - pose proof (ready_regions gf H) as Hr. rewrite Forall_forall in Hr.
    apply Hr. eapply nth_error_In; eauto.
  - pose proof (ready_queued gf H) as Hq. rewrite Forall_forall in Hq.
    apply Hq. eapply nth_error_In; eauto.
Qed.

Lemma snapshot_channels (k : Z) :
  forall (n : nat) (copies outs : list (list float32)),
    length copies = n -> length outs = n -> 0 <= k ->
    Forall (fun b => k <= Z.of_nat (length b)) copies ->
    for_channels2 n
      (fun copy (_ : list float32) =>
         out <- da_copy_array copy k ;; Some (copy, out))
      copies outs
    = Some (copies, map (firstn (Z.to_nat k)) copies).
Proof.
  induction n as [|n IH]; intros copies outs Hc Ho Hk Hfit.
  - destruct copies, outs; try discriminate. reflexivity.
  - destruct copies as [|c copies], outs as [|o outs]; try discriminate.
    inversion Hfit as [|? ? Hc0 Hrest]; subst.
    cbn [for_channels2]. unfold da_copy_array at 1, read_at at 1.
    replace ((0 <=? 0) && (0 <=? k) && (0 + k <=? Z.of_nat (length c)))
      with true by (symmetry; rewrite !andb_true_iff, !Z.leb_le; lia).
    rewrite IH; auto.
Qed.

Lemma snapshot_copy_buffers_eq (g : cleanstream_data) :
  length (copy_buffers g) = channels g ->
  length (copy_output_buffers g) = channels g ->
  0 <= last_num_frames g ->
  Forall (fun b => last_num_frames g <= Z.of_nat (length b)) (copy_buffers g) ->
  snapshot_copy_buffers g
  = Some (map (firstn (Z.to_nat (last_num_frames g))) (copy_buffers g)).
Proof.
  intros Hc Ho Hk Hfit. unfold snapshot_copy_buffers.
  now rewrite (snapshot_channels (last_num_frames g) (channels g)).
Qed.

Lemma classification_staged (g gf : cleanstream_data) (pcm : list float32)
    (asr : whisper_full_outcome) :
  whisper_context g = whisper_context gf ->
  detect_regex g = detect_regex gf ->
  beep_regex g = beep_regex gf ->
  snd (fst (run_whisper_inference g pcm asr)) = classification gf pcm asr
  /\ snd (run_whisper_inference g pcm asr)
     = snd (run_whisper_inference gf pcm asr).
Proof.
  intros H1 H2 H3. unfold classification, run_whisper_inference.
  rewrite H1, H2, H3.
  destruct (whisper_context gf); [|auto].
  destruct asr as [|code text]; [auto|].
  destruct (negb (code =? 0)); [auto|].
  destruct (is_empty _); [auto|].
  destruct (regex_detect _ _ _); auto.
Qed.

Lemma apply_detection_eq (g gf : cleanstream_data) (r : DetectionResult)
    (snapshot : list (list float32)) :
  sample_rate g = sample_rate gf ->
  do_silence g = do_silence gf ->
  channels g = channels gf ->
  length snapshot = channels gf ->
  0 <= window_new_frames gf ->
  Forall (fun a => window_new_frames gf <= Z.of_nat (length a)) snapshot ->
  apply_detection g r (window_new_frames gf) snapshot
  = Some (map (fun a => if replaces_audio gf false r
                        then overwritten gf r (window_new_frames gf) a
                        else a) snapshot).
Proof.
  intros Hrate Hsil Hch Hl Hn Hfit. unfold replaces_audio. cbn [negb andb].
  assert (forall r', r' = DETECTION_RESULT_FILLER \/ r' = DETECTION_RESULT_BEEP ->
          do_silence gf = true ->
          apply_detection g r' (window_new_frames gf) snapshot
          = Some (map (overwritten gf r' (window_new_frames gf)) snapshot))
    as Hover.
  { intros r' Hr' Hs.
    rewrite (apply_detection_overwrites g r' _ snapshot); auto; try congruence.
    f_equal. apply map_ext. intros a. unfold overwritten, replacement_sample.
    now rewrite Hrate. }
  assert (map (fun a : list float32 => a) snapshot = snapshot) as Hid
    by apply map_id.
  destruct (do_silence gf) eqn:Hs; cbn [andb].
  - destruct r; rewrite ?Hid; try reflexivity.
    + exact (Hover DETECTION_RESULT_FILLER (or_introl eq_refl) eq_refl).
    + exact (Hover DETECTION_RESULT_BEEP (or_intror eq_refl) eq_refl).
  - rewrite Hid. destruct r; cbn [apply_detection]; rewrite ?Hsil, ?Hs;
      reflexivity.
Qed.

Lemma process_audio_defined (env : window_env) (gf : cleanstream_data) :
  window_ready gf ->
  gate_in_bounds env gf ->
  exists gf' events,
    process_audio_from_buffer env gf = Some (gf', events)
    /\ window_taken gf gf'
    /\ overlap_ms gf'
       = overlap_ms (adapt_overlap gf (window_new_frames gf)
                       (snd (gate_outcome env gf)) (duration env))
    /\ overlap_frames gf'
       = overlap_frames (adapt_overlap gf (window_new_frames gf)
                           (snd (gate_outcome env gf)) (duration env))
    /\ whisper_context gf'
       = (if snd (gate_outcome env gf) then whisper_context gf
          else whisper_context
                 (fst (fst (run_whisper_inference gf (fst (gate_outcome env gf))
                              (asr env)))))
    /\ do_silence gf' = do_silence gf
    /\ vad_enabled gf' = vad_enabled gf
    /\ detect_regex gf' = detect_regex gf
    /\ beep_regex gf' = beep_regex gf
    /\ active gf' = active gf
    /\ events
       = (if snd (gate_outcome env gf) then []
          else snd (run_whisper_inference gf (fst (gate_outcome env gf)) (asr env)))
    /\ (forall c copy input,
          nth_error (copy_buffers gf) c = Some copy ->
          nth_error (input_buffers gf) c = Some input ->
          nth_error (copy_buffers gf') c
          = Some (staged_region gf (window_new_frames gf) copy input))
    /\ copy_output_buffers gf'
       = map (window_snapshot gf (snd (gate_outcome env gf))
                (window_classification env gf))
           (copy_buffers gf').
Proof.
  intros H Hgate. unfold process_audio_from_buffer.
  destruct (assemble_window_defined gf H) as (copy & Hasm & Hlen & Hreg).
  pose proof (assemble_window_staged gf _ _ _ H Hasm) as Hstaged.
  cbn [copy_buffers set_window] in Hstaged.
  rewrite Hasm. clear Hasm.
  pose proof (committed_frames_range gf H) as Hc.
  pose proof (window_new_frames_range gf H) as Hn.
  rewrite vad_gate_staged, (vad_gate_in_bounds env gf Hgate).
  set (staged := set_window gf _ _ _ _).
  replace (sample_rate staged =? 0) with false
    by (symmetry; apply Z.eqb_neq, (ready_rate gf H)).
  unfold window_classification, window_snapshot.
  destruct (gate_outcome env gf) as [pcm skipped]. cbn [fst snd].
  rewrite (snapshot_copy_buffers_eq staged); trivial.
  2:{ apply (ready_snapshot gf H). }
  2:{ cbn. lia. }
  2:{ eapply Forall_impl; [|exact Hreg]. cbn. intros b Hb. lia. }
  cbn [last_num_frames copy_buffers staged set_window].
  set (snapshot := map (firstn (Z.to_nat (committed_frames gf))) copy).
  assert (length snapshot = channels gf) as Hsl
    by (unfold snapshot; now rewrite length_map).
  assert (Forall (fun b => Z.of_nat (length b) = committed_frames gf) snapshot)
    as Hsr.
  { unfold snapshot. apply Forall_map. eapply Forall_impl; [|exact Hreg].
    cbn. intros b Hb. rewrite length_firstn. lia. }
  destruct skipped.
  - destruct (publish_and_adapt gf staged snapshot true (duration env) [])
      as (gf' & Hp & Ht & Hms & Hof & Hctx & Hcopy & Hsnap
          & K1 & K2 & K3 & K4 & K5);
      trivial.
    exists gf', []. rewrite Hp.
    split; [reflexivity|]. split; [exact Ht|].
    split; [exact Hms|]. split; [exact Hof|].
    split; [exact Hctx|].
    rewrite K1, K2, K3, K4, K5, Hcopy, Hsnap.
    repeat split. exact Hstaged.
  - destruct (run_whisper_inference staged pcm (asr env)) as [[g r] ev] eqn:Hrun.
    destruct (classification_staged staged gf pcm (asr env)) as [Hcls Hev];
      try reflexivity.
    rewrite Hrun in Hcls, Hev. cbn [fst snd] in Hcls, Hev. subst r ev.
    assert (g = staged
            \/ (g = set_whisper_context staged None
                /\ asr env = WhisperThrows)) as Hg.
    { destruct (run_whisper_inference_state staged pcm (asr env))
        as [Hs | (_ & Ha & Hs)]; rewrite Hrun in Hs.
      - left. exact Hs.
      - right. split; [congruence | exact Ha]. }
    assert (whisper_context g
            = whisper_context (fst (fst (run_whisper_inference gf pcm (asr env)))))
      as Hgctx.
    { assert (fst (fst (run_whisper_inference staged pcm (asr env))) = g) as E
        by (now rewrite Hrun).
      rewrite <- E. clear. unfold run_whisper_inference.
      change (whisper_context staged) with (whisper_context gf).
      destruct (whisper_context gf) eqn:Hc; [|cbn; now rewrite Hc].
      destruct (asr env) as [|code text]; [reflexivity|].
      change (detect_regex staged) with (detect_regex gf).
      change (beep_regex staged) with (beep_regex gf).
      destruct (negb (code =? 0)); [cbn; now rewrite Hc|].
      destruct (is_empty _); [cbn; now rewrite Hc|].
      destruct (regex_detect _ _ _); cbn; now rewrite Hc. }
    rewrite (apply_detection_eq g gf _ snapshot);
      try (destruct Hg as [-> | [-> _]]; reflexivity); trivial; try lia.
    2:{ eapply Forall_impl; [|exact Hsr]. cbn. intros b Hb. lia. }
    set (s' := map _ snapshot).
    assert (length s' = channels gf) as Hsl'
      by (unfold s'; now rewrite length_map).
    assert (Forall (fun b => Z.of_nat (length b) = committed_frames gf) s')
      as Hsr'.
    { unfold s'. apply Forall_map. eapply Forall_impl; [|exact Hsr].
      cbn. intros b Hb. destruct (replaces_audio _ _ _); [|exact Hb].
      rewrite overwritten_length; lia. }
    destruct (publish_and_adapt gf g s' false (duration env)
                (snd (run_whisper_inference gf pcm (asr env))))
      as (gf' & Hp & Ht & Hms & Hof & Hctx & Hcopy & Hsnap
          & K1 & K2 & K3 & K4 & K5);
      trivial; try (destruct Hg as [-> | [-> _]]; reflexivity).
    + destruct Hg as [-> | [-> _]]; exact Hlen.
    + destruct Hg as [-> | [-> _]]; exact Hreg.
    + exists gf', (snd (run_whisper_inference gf pcm (asr env))). rewrite Hp.
      split; [reflexivity|]. split; [exact Ht|].
      split; [exact Hms|]. split; [exact Hof|].
      split; [now rewrite Hctx|].
      rewrite K1, K2, K3, K4, K5, Hcopy, Hsnap.
      assert (copy_buffers g = copy) as ->
        by (destruct Hg as [-> | [-> _]]; reflexivity).
      unfold s', snapshot. rewrite map_map.
      destruct Hg as [-> | [-> _]]; repeat split; try reflexivity;
        exact Hstaged.
Qed.

End GeneralWindow.

(** ** The descriptor ring *)

(** The drain takes the longest prefix of whole descriptors that fits. *)
Lemma drain_info_buffer_prefix (needed : Z) (buf : list cleanstream_audio_info) :
  Forall (fun i => 0 <= frames i /\ needed + frames i < 2 ^ 32) buf ->
  forall acc ts,
    0 <= acc <= needed ->
    exists pre rest,
      buf = pre ++ rest
      /\ drain_info_buffer needed buf acc ts
         = (acc + sum_frames pre, latch_timestamp ts (pre ++ firstn 1 rest), rest)
      /\ acc + sum_frames pre <= needed
      /\ (forall p rest', rest = p :: rest' ->
            needed < acc + sum_frames pre + frames p).
Proof.
  induction 1 as [|i buf [Hi Hw] Hbuf IH]; intros acc ts Hacc.
  - exists [], []. cbn. split; [reflexivity|]. split; [now rewrite Z.add_0_r|].
    split; [lia|]. intros p rest' Hr. discriminate Hr.
  - cbn [drain_info_buffer].
    rewrite (wrap32_small (acc + frames i)) by lia.
    destruct (Z.gtb_spec (acc + frames i) needed) as [Hover|Hfit].
    + exists [], (i :: buf). cbn [app sum_frames fold_right firstn].
      replace (acc + frames i - frames i) with acc by lia.
      rewrite wrap32_small by lia.
      split; [reflexivity|]. split.
      * unfold circlebuf_push_front. cbn. now rewrite Z.add_0_r.
      * split; [lia|]. intros p rest' [= <- <-]. lia.
    + destruct (IH (acc + frames i) (if ts =? 0 then timestamp i else ts))
        as (pre & rest & -> & Hd & Hle & Hnext); [lia|].
      exists (i :: pre), rest.
      split; [reflexivity|]. rewrite Hd.
      change (sum_frames (i :: pre)) with (frames i + sum_frames pre).
      split; [|split].
      * rewrite Z.add_assoc. reflexivity.
      * lia.
      * intros p rest' Hr. specialize (Hnext p rest' Hr). lia.
Qed.

(** ** The host's call *)

Lemma filter_audio_defined (gf : cleanstream_data) (audio : obs_audio_data) :
  active gf = true ->
  whisper_context gf <> None ->
  rings_consistent gf ->
  packet_fits (channels gf) audio ->
  exists gf' res,
    cleanstream_filter_audio gf audio = Some (gf', res)
    /\ rings_consistent gf'
    /\ info_buffer gf'
       = info_buffer gf
           ++ [{| frames := audio_frames audio;
                  timestamp := audio_timestamp audio |}]
    /\ input_buffers gf'
       = map (fun rp => fst rp ++ firstn (Z.to_nat (audio_frames audio)) (snd rp))
           (combine (input_buffers gf) (data audio))
    /\ match info_out_buffer gf with
       | [] =>
           res = NoOutput
           /\ info_out_buffer gf' = []
           /\ output_buffers gf' = output_buffers gf
       | info_out :: rest =>
           res = Output
                   {| data := map (firstn (Z.to_nat (frames info_out)))
                                (output_buffers gf);
                      audio_frames := frames info_out;
                      audio_timestamp := timestamp info_out |}
           /\ info_out_buffer gf' = rest
           /\ output_buffers gf'
              = map (skipn (Z.to_nat (frames info_out))) (output_buffers gf)
       end.
Proof.
  intros Ha Hctx (Hil & Hol & Hif & Hof & Hin & Hout) (Hk & Hdl & Hfit).
  unfold cleanstream_filter_audio. rewrite Ha. cbn [negb].
  destruct (whisper_context gf) as [ctx|]; [|congruence].
  rewrite (push_channels (audio_frames audio) (channels gf)); auto.
  set (info := {| frames := audio_frames audio;
                  timestamp := audio_timestamp audio |}).
  set (input' := map _ (combine _ _)).
  assert (Forall (fun b => Z.of_nat (length b)
                           = sum_frames (info_buffer gf ++ [info])) input')
    as Hin'.
  { rewrite sum_frames_app.
    change (sum_frames [info]) with (audio_frames audio + 0).
    rewrite Z.add_0_r. apply Forall_combine_length; auto. congruence. }
  assert (length input' = channels gf) as Hil'.
  { unfold input'. rewrite length_map, length_combine. lia. }
  assert (Forall (fun i => 0 <= frames i) (info_buffer gf ++ [info])) as Hif'.
  { apply Forall_app. split; [exact Hif|]. constructor; [exact Hk|constructor]. }
  cbn [info_out_buffer set_input set_window].
  destruct (info_out_buffer gf) as [|info_out rest] eqn:Hio.
  - eexists _, _. split; [reflexivity|]. cbn.
    split; [|auto].
    unfold rings_consistent. cbn. rewrite Hio. auto 10.
  - inversion Hof as [|? ? Hf0 Hfrest]; subst.
    pose proof (sum_frames_nonneg rest Hfrest) as Hrest.
    change (sum_frames (info_out :: rest))
      with (frames info_out + sum_frames rest) in Hout.
    cbn [channels output_buffers].
    rewrite (pull_channels (frames info_out) (channels gf)); auto.
    2:{ eapply Forall_impl; [|exact Hout]. cbn. intros b Hb. lia. }
    eexists _, _. split; [reflexivity|]. cbn.
    split; [|auto].
    unfold rings_consistent. cbn.
    split; [exact Hil'|]. split; [now rewrite length_map|].
    split; [exact Hif'|]. split; [exact Hfrest|]. split; [exact Hin'|].
    apply Forall_map. eapply Forall_impl; [|exact Hout].
    cbn. intros b Hb. rewrite length_skipn. unfold sum_frames in *. lia.
Qed.

(** The host's call in a consistent state, as an equation. *)
Lemma filter_audio_eq (gf : cleanstream_data) (audio : obs_audio_data) :
  active gf = true ->
  whisper_context gf <> None ->
  rings_consistent gf ->
  packet_fits (channels gf) audio ->
  let queued :=
    set_input gf
      (info_buffer gf
         ++ [{| frames := audio_frames audio;
                timestamp := audio_timestamp audio |}])
      (map (fun rp => fst rp ++ firstn (Z.to_nat (audio_frames audio)) (snd rp))
         (combine (input_buffers gf) (data audio))) in
  cleanstream_filter_audio gf audio
  = Some match info_out_buffer gf with
         | [] => (queued, NoOutput)
         | info_out :: rest =>
             (set_output queued (copy_output_buffers gf) rest
                (map (skipn (Z.to_nat (frames info_out))) (output_buffers gf)),
              Output
                {| data := map (firstn (Z.to_nat (frames info_out)))
                             (output_buffers gf);
                   audio_frames := frames info_out;
                   audio_timestamp := timestamp info_out |})
         end.
Proof.
  intros Ha Hctx (Hil & Hol & Hif & Hof & Hin & Hout) (Hk & Hdl & Hfit).
  unfold cleanstream_filter_audio. rewrite Ha. cbn [negb].
  destruct (whisper_context gf) as [ctx|]; [|congruence].
  rewrite (push_channels (audio_frames audio) (channels gf)); auto.
  cbn [info_out_buffer set_input set_window].
  destruct (info_out_buffer gf) as [|info_out rest] eqn:Hio; [reflexivity|].
  inversion Hof as [|? ? Hf0 Hfrest]; subst.
  pose proof (sum_frames_nonneg rest Hfrest) as Hrest.
  change (sum_frames (info_out :: rest))
    with (frames info_out + sum_frames rest) in Hout.
  cbn [channels output_buffers].
  rewrite (pull_channels (frames info_out) (channels gf)); auto.
  eapply Forall_impl; [|exact Hout]. cbn. intros b Hb.
  unfold sum_frames in *. lia.
Qed.

(** ** Windows published as staged, and windows that take nothing *)

Lemma nth_error_map_combine {A B C : Type} (f : A * B -> C) :
  forall (xs : list A) (ys : list B) (c : nat) (x : A) (y : B),
    nth_error xs c = Some x -> nth_error ys c = Some y ->
    nth_error (map f (combine xs ys)) c = Some (f (x, y)).
Proof.
  induction xs as [|x0 xs IH]; intros ys c x y Hx Hy.
  - destruct c; discriminate.
  - destruct ys as [|y0 ys]; [destruct c; discriminate|].
    destruct c as [|c]; cbn in *.
    + now injection Hx as <-; injection Hy as <-.
    + now apply IH.
Qed.

Lemma map_combine_app_nil (xs ys : list (list float32)) :
  length xs = length ys ->
  map (fun os => fst os ++ firstn (Z.to_nat 0) (snd os)) (combine xs ys) = xs.
Proof.
  revert ys. induction xs as [|x xs IH]; intros [|y ys] H; try discriminate;
    cbn; [reflexivity|].
  rewrite app_nil_r. f_equal. apply IH. now injection H.
Qed.

Section WindowsInEveryEnvironment.
Context {R : StdRegex} {M : Libm}.

(** A window whose audio is not replaced is published as staged. *)
Lemma process_audio_unmodified (env : window_env) (gf : cleanstream_data) :
  window_ready gf ->
  gate_in_bounds env gf ->
  replaces_audio gf (snd (gate_outcome env gf)) (window_classification env gf)
  = false ->
  exists gf' events,
    process_audio_from_buffer env gf = Some (gf', events)
    /\ published_as_staged gf gf'
    /\ whisper_context gf'
       = (if snd (gate_outcome env gf) then whisper_context gf
          else whisper_context
                 (fst (fst (run_whisper_inference gf (fst (gate_outcome env gf))
                              (asr env)))))
    /\ events
       = (if snd (gate_outcome env gf) then []
          else snd (run_whisper_inference gf (fst (gate_outcome env gf)) (asr env)))
    /\ active gf' = active gf.
Proof.
  intros H Hgate Hrep.
  destruct (process_audio_defined env gf H Hgate)
    as (gf' & events & Hp & Ht & _ & _ & Hctx & _ & _ & _ & _ & Hact & Hev
        & Hstaged & Hsnap).
  exists gf', events. split; [exact Hp|].
  split; [|auto].
  destruct Ht as (_ & _ & _ & _ & _ & T6 & T7 & _ & T9 & _ & T11 & _).
  pose proof (committed_frames_range gf H) as Hc.
  pose proof (window_new_frames_range gf H) as Hn.
  split; [exact T6|].
  intros c copy input output Hcopy Hin Hout staged.
  specialize (Hstaged c copy input Hcopy Hin). fold staged in Hstaged.
  assert (nth_error (copy_output_buffers gf') c
          = Some (firstn (Z.to_nat (committed_frames gf)) staged)) as Hs.
  { rewrite Hsnap. rewrite nth_error_map, Hstaged. cbn [option_map].
    unfold window_snapshot. now rewrite Hrep. }
  split; [exact Hs|].
  rewrite T7.
  rewrite (nth_error_map_combine _ _ _ c output _ Hout Hs). cbn [fst snd].
  rewrite firstn_firstn. do 3 f_equal. lia.
Qed.

(** X13. With [do_silence] off no classification changes the audio:
    every ready window is published as staged, in every environment in
    which the gate reads inside the resampled buffer. *)
Theorem silence_off_publishes_as_staged (env : window_env)
    (gf : cleanstream_data) :
  window_ready gf ->
  gate_in_bounds env gf ->
  do_silence gf = false ->
  exists gf' events,
    process_audio_from_buffer env gf = Some (gf', events)
    /\ published_as_staged gf gf'.
Proof.
  intros H Hgate Hs.
  destruct (process_audio_unmodified env gf H Hgate)
    as (gf' & events & Hp & Hpub & _).
  - unfold replaces_audio. rewrite Hs. now destruct (negb _).
  - eauto.
Qed.

Lemma pushes_pass_through (gf : cleanstream_data)
    (packets : list obs_audio_data) :
  active gf = false \/ whisper_context gf = None ->
  run_trace gf (map Push packets) = Some (gf, packets).
Proof.
  intros H. induction packets as [|p ps IH]; [reflexivity|].
  cbn [map run_trace].
  assert (cleanstream_filter_audio gf p = Some (gf, PassThrough p)) as ->.
  { unfold cleanstream_filter_audio.
    destruct H as [-> | H]; [reflexivity|].
    rewrite H. now destruct (negb (active gf)). }
  now rewrite IH.
Qed.

(** X17. A deactivated filter hands every packet back as it is, in
    order, and queues nothing; what was queued when it was deactivated is
    still there when it is activated again. *)
Theorem deactivated_filter_passes_through (gf : cleanstream_data)
    (packets : list obs_audio_data) :
  run_trace (cleanstream_deactivate gf) (map Push packets)
  = Some (cleanstream_deactivate gf, packets)
  /\ (active gf = true -> cleanstream_activate (cleanstream_deactivate gf) = gf).
Proof.
  split.
  - apply pushes_pass_through. now left.
  - destruct gf. cbn. now intros ->.
Qed.

(** X10. An exception of the ASR engine turns the filter off.  When
    the gate reads inside the resampled buffer and lets the window
    through, the window in progress is still published, as staged, and the
    context is freed; from then on every packet the host pushes comes back as it is
    and nothing is queued or pulled, so the window just published and the
    audio still queued stay in the rings. *)
Theorem asr_exception_disables_filter (env : window_env)
    (gf : cleanstream_data) :
  window_ready gf ->
  whisper_context gf <> None ->
  gate_in_bounds env gf ->
  snd (gate_outcome env gf) = false ->
  asr env = WhisperThrows ->
  exists gf',
    process_audio_from_buffer env gf
    = Some (gf', [EvWhisperFull (fst (gate_outcome env gf));
                  EvError "Whisper exception. Filter restart is required";
                  EvWhisperFree])
    /\ published_as_staged gf gf'
    /\ whisper_context gf' = None
    /\ forall packets,
         run_trace gf' (map Push packets) = Some (gf', packets).
Proof.
  intros H Hctx Hgate Hskip Hasr.
  assert (run_whisper_inference gf (fst (gate_outcome env gf)) (asr env)
          = (set_whisper_context gf None, DETECTION_RESULT_UNKNOWN,
             [EvWhisperFull (fst (gate_outcome env gf));
              EvError "Whisper exception. Filter restart is required";
              EvWhisperFree])) as Hrun.
  { unfold run_whisper_inference. rewrite Hasr.
    destruct (whisper_context gf); [reflexivity | congruence]. }
  destruct (process_audio_unmodified env gf H Hgate)
    as (gf' & events & Hp & Hpub & Hc & Hev & _).
  { unfold replaces_audio, window_classification, classification.
    rewrite Hrun. cbn. now rewrite andb_false_r. }
  rewrite Hskip, Hrun in Hc, Hev. cbn in Hc, Hev. subst events.
  exists gf'. split; [exact Hp|]. split; [exact Hpub|]. split; [exact Hc|].
  intros packets. apply pushes_pass_through. now right.
Qed.

(** A packet longer than the window, at the head of the queue before the
    first window. *)
Lemma stalled_window (gf : cleanstream_data) (p : cleanstream_audio_info)
    (rest : list cleanstream_audio_info) :
  window_ready gf ->
  last_num_frames gf = 0 ->
  info_buffer gf = p :: rest ->
  window_frames gf < frames p < 2 ^ 32 ->
  window_new_frames gf = 0
  /\ window_start_timestamp gf = timestamp p
  /\ window_remaining_infos gf = p :: rest.
Proof.
  intros H Hlast Hinfo Hbig.
  pose proof (ready_window gf H) as HW.
  unfold window_new_frames, window_start_timestamp, window_remaining_infos,
    how_many_frames_needed.
  rewrite Hlast, Hinfo. cbn [Z.eqb drain_info_buffer].
  rewrite (wrap32_small (0 + frames p)) by lia.
  replace (0 + frames p >? window_frames gf) with true
    by (symmetry; apply Z.gtb_lt; lia).
  cbn [fst snd]. replace (0 + frames p - frames p) with 0 by lia.
  repeat split.
Qed.

Lemma stalled_process (env : window_env) (gf : cleanstream_data)
    (p : cleanstream_audio_info) (rest : list cleanstream_audio_info) :
  window_ready gf ->
  last_num_frames gf = 0 ->
  info_buffer gf = p :: rest ->
  window_frames gf < frames p < 2 ^ 32 ->
  gate_in_bounds env gf ->
  exists gf' events,
    process_audio_from_buffer env gf = Some (gf', events)
    /\ window_ready gf'
    /\ vad_enabled gf' = vad_enabled gf
    /\ last_num_frames gf' = 0
    /\ window_frames gf' = window_frames gf
    /\ info_buffer gf' = info_buffer gf
    /\ input_buffers gf' = input_buffers gf
    /\ output_buffers gf' = output_buffers gf
    /\ info_out_buffer gf'
       = info_out_buffer gf ++ [{| frames := 0; timestamp := timestamp p |}].
Proof.
  intros H Hlast Hinfo Hbig Hgate.
  destruct (stalled_window gf p rest H Hlast Hinfo Hbig) as (Hn & Hts & Hrem).
  destruct (process_audio_defined env gf H Hgate)
    as (gf' & events & Hp & Ht & _ & _ & _ & _ & Hvad & _).
  destruct Ht as (T1 & T2 & T3 & T4 & T5 & T6 & T7 & T8 & T9 & T10 & T11 & T12).
  assert (committed_frames gf = 0) as Hc.
  { unfold committed_frames. rewrite Hlast, Hn. reflexivity. }
  rewrite Hn in T5, T6, T7. rewrite Hts in T6. rewrite Hrem, <- Hinfo in T4.
  rewrite Hc in T8.
  assert (input_buffers gf' = input_buffers gf) as Hin.
  { rewrite T5. cbn [Z.to_nat skipn]. apply map_id. }
  assert (output_buffers gf' = output_buffers gf) as Hout.
  { rewrite T7. apply map_combine_app_nil.
    rewrite T11. apply (ready_output gf H). }
  exists gf', events. split; [exact Hp|].
  split; [|auto 10].
  assert (window_new_frames gf' = 0) as Hn'.
  { unfold window_new_frames, how_many_frames_needed in Hn |- *.
    rewrite T8, T4, T3. rewrite Hlast in Hn. exact Hn. }
  constructor.
  - rewrite T2. apply (ready_rate gf H).
  - now rewrite T1.
  - now rewrite T1.
  - rewrite Hin, T1. apply (ready_input gf H).
  - rewrite Hout, T1. apply (ready_output gf H).
  - now rewrite T3.
  - rewrite Hn'. apply Forall_forall. intros b _. lia.
  - rewrite T3. apply (ready_window gf H).
  - lia.
  - lia.
Qed.

Lemma stalled_passes (envs : list window_env) :
  forall (gf : cleanstream_data) (p : cleanstream_audio_info)
         (rest : list cleanstream_audio_info),
    window_ready gf ->
    last_num_frames gf = 0 ->
    info_buffer gf = p :: rest ->
    window_frames gf < frames p < 2 ^ 32 ->
    window_frames gf <= Z.of_nat (length (nth 0 (input_buffers gf) [])) ->
    Forall (fun env => gate_in_bounds env gf) envs ->
    exists gf',
      run_trace gf (map Poll envs) = Some (gf', [])
      /\ info_buffer gf' = info_buffer gf
      /\ input_buffers gf' = input_buffers gf
      /\ output_buffers gf' = output_buffers gf
      /\ last_num_frames gf' = 0
      /\ info_out_buffer gf'
         = info_out_buffer gf
             ++ repeat {| frames := 0; timestamp := timestamp p |}
                  (length envs).
Proof.
  induction envs as [|env envs IH];
    intros gf p rest H Hlast Hinfo Hbig Hfull Hgates.
  - exists gf. cbn. now rewrite app_nil_r.
  - cbn [map run_trace]. unfold whisper_loop_poll.
    pose proof (ready_window gf H) as HW.
    replace (4 * Z.of_nat (length (nth 0 (input_buffers gf) []))
             >=? wrap64 (window_frames gf * 4)) with true.
    2:{ symmetry. apply Z.geb_le.
        assert (wrap64 (window_frames gf * 4) <= window_frames gf * 4)
          by (apply Z.mod_le; lia).
        lia. }
    inversion Hgates as [|e es Hgate Hrest]; subst e es.
    destruct (stalled_process env gf p rest H Hlast Hinfo Hbig Hgate)
      as (g & events & -> & Hg & Hv & Hl & Hw & Hi & Hin & Hout & Hio).
    destruct (IH g p rest) as (gf' & -> & E1 & E2 & E3 & E4 & E5); trivial;
      try congruence.
    { eapply Forall_impl; [|exact Hrest]. intros e.
      now apply gate_in_bounds_same. }
    exists gf'. split; [reflexivity|].
    rewrite E1, E2, E3, E5, Hio, <- app_assoc.
    repeat split; trivial.
Qed.

(** X14. A packet longer than the window stalls the worker.  With such
    a packet at the head of the queue before the first window, every pass
    of the worker's loop finds the input ring full and takes no frame, so
    the resampler is handed an empty window.  If the gate is off, or the
    resampler returns samples all the same, the pass pushes the descriptor
    back and publishes a descriptor of 0 frames: after any number of
    passes the input side is what it was, and the output metadata ring
    has grown by one empty descriptor per pass.  If the gate is on and
    the resampler returns an empty buffer, the first pass reads
    [pcmf32[0]] outside that buffer. *)
Theorem oversized_packet_stalls_worker (envs : list window_env)
    (gf : cleanstream_data) (p : cleanstream_audio_info)
    (rest : list cleanstream_audio_info) :
  window_ready gf ->
  last_num_frames gf = 0 ->
  info_buffer gf = p :: rest ->
  window_frames gf < frames p < 2 ^ 32 ->
  window_frames gf <= Z.of_nat (length (nth 0 (input_buffers gf) [])) ->
  (Forall (fun env => gate_in_bounds env gf) envs ->
   exists gf',
     run_trace gf (map Poll envs) = Some (gf', [])
     /\ info_buffer gf' = info_buffer gf
     /\ input_buffers gf' = input_buffers gf
     /\ output_buffers gf' = output_buffers gf
     /\ last_num_frames gf' = 0
     /\ info_out_buffer gf'
        = info_out_buffer gf
            ++ repeat {| frames := 0; timestamp := timestamp p |}
                 (length envs))
  /\ (forall env,
        vad_enabled gf = true -> resampled env = [] ->
        run_trace gf (Poll env :: map Poll envs) = None).
Proof.
  intros H Hlast Hinfo Hbig Hfull. split.
  - now apply (stalled_passes envs gf p rest).
  - intros env Hvad Hres. cbn [run_trace]. unfold whisper_loop_poll.
    pose proof (ready_window gf H) as HW.
    replace (4 * Z.of_nat (length (nth 0 (input_buffers gf) []))
             >=? wrap64 (window_frames gf * 4)) with true.
    2:{ symmetry. apply Z.geb_le.
        assert (wrap64 (window_frames gf * 4) <= window_frames gf * 4)
          by (apply Z.mod_le; lia).
        lia. }
    unfold process_audio_from_buffer.
    destruct (assemble_window_defined gf H) as (copy & -> & _).
    rewrite vad_gate_staged, vad_gate_out_of_bounds.
    + now destruct (sample_rate _ =? 0).
    + intros Hgate. now apply (Hgate Hvad).
Qed.

End WindowsInEveryEnvironment.

(** ** The steady pipeline *)

(** The arithmetic of one overlap update in a steady state. *)
Lemma steady_overlap_arith (r W ov ovf n needed last' : Z) :
  1000 <= r <= 192000 ->
  W = r * 1010 / 1000 ->
  100 <= ov <= 440 ->
  ovf = ov * r / 1000 ->
  (needed = W /\ last' = n /\ ov <= 430)
  \/ (needed = W - ovf /\ last' = n + ovf) ->
  needed - r / 10 < n <= needed ->
  let new_ms := n * 1000 / r in
  468 <= new_ms <= 1010
  /\ 0 <= ovf <= W
  /\ 0 < n <= 193920
  /\ 0 < last' <= W
  /\ 100 <= Z.min (ov + 10) (3 * new_ms / 4) <= 440
  /\ forall ov', 100 <= ov' <= 440 -> 0 <= 2 * (ov' * r / 1000) <= last'.
Proof.
  intros Hr HW Hov Hovf Hcase Hn new_ms.
  assert (1000 * W <= r * 1010 < 1000 * W + 1000) as HWb.
  { subst W. pose proof (Z.mul_div_le (r * 1010) 1000).
    pose proof (Z.mod_pos_bound (r * 1010) 1000).
    pose proof (Z.div_mod (r * 1010) 1000). lia. }
  assert (10 * (r / 10) <= r) as Hq by (apply Z.mul_div_le; lia).
  assert (ov * r <= 440 * r) as Hp1 by (apply Z.mul_le_mono_nonneg_r; lia).
  assert (100 * r <= ov * r) as Hp2 by (apply Z.mul_le_mono_nonneg_r; lia).
  assert (1000 * ovf <= ov * r < 1000 * ovf + 1000) as Hob.
  { subst ovf. pose proof (Z.mul_div_le (ov * r) 1000).
    pose proof (Z.mod_pos_bound (ov * r) 1000).
    pose proof (Z.div_mod (ov * r) 1000). lia. }
  assert (469 * r < 1000 * n) as Hlow by (destruct Hcase as [(-> & _)|(-> & _)]; lia).
  assert (1000 * n <= 1010 * r) as Hhigh by (destruct Hcase as [(-> & _)|(-> & _)]; lia).
  assert (468 <= new_ms) as Hms1
    by (apply Z.div_le_lower_bound; lia).
  assert (new_ms <= 1010) as Hms2
    by (apply Z.div_le_upper_bound; lia).
  split; [lia|]. split; [lia|]. split; [lia|].
  split; [destruct Hcase as [(-> & -> & _)|(-> & ->)]; lia|].
  split.
  - assert (351 <= 3 * new_ms / 4) by (apply Z.div_le_lower_bound; lia).
    split; [lia|].
    destruct (Z_le_gt_dec ov 430) as [Hs|Hl]; [lia|].
    destruct Hcase as [(_ & _ & ?)|(-> & _)]; [lia|].
    assert (431 * r <= ov * r) by (apply Z.mul_le_mono_nonneg_r; lia).
    assert (new_ms <= 580) by (apply Z.div_le_upper_bound; lia).
    assert (3 * new_ms / 4 <= 435) by (apply Z.div_le_upper_bound; lia).
    lia.
  - intros ov' Hov'.
    assert (ov' * r <= 440 * r) by (apply Z.mul_le_mono_nonneg_r; lia).
    assert (0 <= ov' * r) by (apply Z.mul_nonneg_nonneg; lia).
    assert (0 <= ov' * r / 1000) by (apply Z.div_pos; lia).
    assert (1000 * (ov' * r / 1000) <= ov' * r)
      by (apply Z.mul_div_le; lia).
    destruct Hcase as [(-> & -> & _)|(-> & ->)]; lia.
Qed.

Section Steady.
Context {R : StdRegex} {M : Libm}.

Lemma steady_frames (gf : cleanstream_data) :
  pipeline_steady gf ->
  1010 <= window_frames gf <= 193920
  /\ 100 <= sample_rate gf / 10 <= 19200
  /\ 0 <= overlap_frames gf
  /\ 2 * overlap_frames gf <= window_frames gf
  /\ 0 <= last_num_frames gf
  /\ how_many_frames_needed gf
     = (if last_num_frames gf =? 0 then window_frames gf
        else window_frames gf - overlap_frames gf).
Proof.
  intros H.
  pose proof (steady_rate gf H) as Hr.
  pose proof (steady_overlap_ms gf H) as Hov.
  pose proof (steady_window gf H) as HW.
  pose proof (steady_overlap_frames gf H) as Hof.
  unfold BUFFER_SIZE_MSEC in HW.
  assert (1010 <= window_frames gf) as HW1
    by (rewrite HW; apply Z.div_le_lower_bound; lia).
  assert (window_frames gf <= 193920) as HW2
    by (rewrite HW; apply Z.div_le_upper_bound; lia).
  assert (100 <= sample_rate gf / 10) by (apply Z.div_le_lower_bound; lia).
  assert (sample_rate gf / 10 <= 19200) by (apply Z.div_le_upper_bound; lia).
  assert (0 <= overlap_frames gf) as Ho1.
  { rewrite Hof. apply Z.div_pos; [|lia]. apply Z.mul_nonneg_nonneg; lia. }
  assert (2 * overlap_frames gf <= window_frames gf) as Ho2.
  { assert (overlap_ms gf * sample_rate gf <= 440 * sample_rate gf)
      by (apply Z.mul_le_mono_nonneg_r; lia).
    assert (1000 * overlap_frames gf <= overlap_ms gf * sample_rate gf)
      by (rewrite Hof; apply Z.mul_div_le; lia).
    assert (sample_rate gf * 1010 < 1000 * window_frames gf + 1000).
    { rewrite HW. pose proof (Z.mod_pos_bound (sample_rate gf * 1010) 1000).
      pose proof (Z.div_mod (sample_rate gf * 1010) 1000). lia. }
    lia. }
  assert (0 <= last_num_frames gf) as Hl
    by (destruct (steady_last gf H); lia).
  repeat split; try lia.
  unfold how_many_frames_needed.
  destruct (last_num_frames gf =? 0); [reflexivity|].
  apply wrap64_small. lia.
Qed.

Lemma steady_drain (gf : cleanstream_data) :
  pipeline_steady gf ->
  exists pre rest,
    info_buffer gf = pre ++ rest
    /\ window_new_frames gf = sum_frames pre
    /\ window_remaining_infos gf = rest
    /\ 0 <= sum_frames pre <= how_many_frames_needed gf
    /\ 0 <= sum_frames rest
    /\ (forall p rest', rest = p :: rest' ->
          how_many_frames_needed gf < sum_frames pre + frames p).
Proof.
  intros H.
  destruct (steady_frames gf H) as (HW & Hq & Ho1 & Ho2 & Hl & Hneed).
  destruct (steady_rings gf H) as (_ & _ & Hif & _).
  pose proof (steady_packets gf H) as Hp.
  assert (0 <= how_many_frames_needed gf <= 193920) as Hn
    by (rewrite Hneed; destruct (last_num_frames gf =? 0); lia).
  destruct (drain_info_buffer_prefix (how_many_frames_needed gf) (info_buffer gf))
    with (acc := 0) (ts := 0)
    as (pre & rest & Hsplit & Hd & Hle & Hnext).
  { apply Forall_forall. intros i Hi.
    rewrite Forall_forall in Hif, Hp.
    specialize (Hif i Hi). specialize (Hp i Hi). cbn in Hif, Hp. lia. }
  { lia. }
  exists pre, rest. rewrite Hsplit in Hif.
  apply Forall_app in Hif as [Hpre Hrest].
  pose proof (sum_frames_nonneg pre Hpre).
  pose proof (sum_frames_nonneg rest Hrest).
  unfold window_new_frames, window_remaining_infos. rewrite Hd. cbn [fst snd].
  repeat split; trivial; try lia.
Qed.

Lemma steady_window_ready (gf : cleanstream_data) :
  pipeline_steady gf -> window_ready gf.
Proof.
  intros H.
  destruct (steady_frames gf H) as (HW & Hq & Ho1 & Ho2 & Hl & Hneed).
  destruct (steady_drain gf H) as (pre & rest & Hsplit & Hn & _ & Hle & Hrest & _).
  destruct (steady_rings gf H) as (Hil & Hol & _ & _ & Hin & _).
  constructor.
  - pose proof (steady_rate gf H). lia.
  - apply (steady_copy gf H).
  - apply (steady_snapshot gf H).
  - exact Hil.
  - exact Hol.
  - apply (steady_regions gf H).
  - eapply Forall_impl; [|exact Hin]. cbn. intros b Hb.
    rewrite Hb, Hn, Hsplit, sum_frames_app. lia.
  - lia.
  - exact Hl.
  - intros Hpos. destruct (steady_last gf H); lia.
Qed.

Lemma steady_new_frames (gf : cleanstream_data) :
  pipeline_steady gf ->
  window_frames gf <= sum_frames (info_buffer gf) ->
  how_many_frames_needed gf - sample_rate gf / 10 < window_new_frames gf
  /\ window_new_frames gf <= how_many_frames_needed gf.
Proof.
  intros H Hfull.
  destruct (steady_frames gf H) as (HW & Hq & Ho1 & Ho2 & Hl & Hneed).
  destruct (steady_drain gf H)
    as (pre & rest & Hsplit & Hn & _ & Hle & Hrest & Hnext).
  pose proof (steady_packets gf H) as Hp.
  rewrite Hn. split; [|lia].
  destruct rest as [|p rest'].
  - rewrite Hsplit, app_nil_r in Hfull.
    assert (how_many_frames_needed gf <= window_frames gf)
      by (rewrite Hneed; destruct (last_num_frames gf =? 0); lia).
    lia.
  - specialize (Hnext p rest' eq_refl).
    rewrite Hsplit in Hp. apply Forall_app in Hp as [_ Hp].
    inversion Hp; subst. cbn in *. lia.
Qed.

Lemma steady_adapt_overlap (gf : cleanstream_data) (skipped : bool) (d : Z) :
  pipeline_steady gf ->
  window_frames gf <= sum_frames (info_buffer gf) ->
  let g := adapt_overlap gf (window_new_frames gf) skipped d in
  100 <= overlap_ms g <= 440
  /\ overlap_frames g = overlap_ms g * sample_rate gf / 1000
  /\ 0 <= 2 * overlap_frames g <= committed_frames gf
  /\ 0 < committed_frames gf <= window_frames gf.
Proof.
  intros H Hfull g.
  destruct (steady_frames gf H) as (HW & Hq & Ho1 & Ho2 & Hl & Hneed).
  destruct (steady_new_frames gf H Hfull) as (Hn1 & Hn2).
  pose proof (steady_rate gf H) as Hr.
  pose proof (steady_overlap_ms gf H) as Hov.
  pose proof (steady_overlap_frames gf H) as Hof.
  pose proof (steady_window gf H) as HWd. unfold BUFFER_SIZE_MSEC in HWd.
  set (n := window_new_frames gf) in *.
  assert ((how_many_frames_needed gf = window_frames gf
           /\ committed_frames gf = n /\ overlap_ms gf <= 430)
          \/ (how_many_frames_needed gf = window_frames gf - overlap_frames gf
              /\ committed_frames gf = n + overlap_frames gf)) as Hcase.
  { rewrite Hneed. unfold committed_frames. fold n.
    destruct (Z.eqb_spec (last_num_frames gf) 0) as [E|E].
    - left. rewrite E. cbn. pose proof (steady_first gf H E). auto.
    - right. destruct (Z.gtb_spec (last_num_frames gf) 0); [auto | lia]. }
  destruct (steady_overlap_arith (sample_rate gf) (window_frames gf)
              (overlap_ms gf) (overlap_frames gf) n
              (how_many_frames_needed gf) (committed_frames gf)
              Hr HWd Hov Hof Hcase (conj Hn1 Hn2))
    as (Hms & _ & Hn0 & Hlast & Hraise & Hfit).
  assert (new_frames_ms gf n = n * 1000 / sample_rate gf) as Hnew.
  { unfold new_frames_ms. rewrite wrap32_small; [reflexivity|]. lia. }
  assert (forall ms, 100 <= ms <= 440 ->
            let g' := set_overlap gf ms in
            100 <= overlap_ms g' <= 440
            /\ overlap_frames g' = overlap_ms g' * sample_rate gf / 1000
            /\ 0 <= 2 * overlap_frames g' <= committed_frames gf
            /\ 0 < committed_frames gf <= window_frames gf) as Hset.
  { intros ms Hmsr. cbn [overlap_ms overlap_frames set_overlap sample_rate].
    rewrite wrap64_small
      by (split; [apply Z.mul_nonneg_nonneg; lia|];
          apply Z.le_lt_trans with (440 * 192000); [|reflexivity];
          apply Z.mul_le_mono_nonneg; lia).
    specialize (Hfit ms Hmsr). repeat split; lia. }
  unfold g, adapt_overlap. rewrite Hnew.
  destruct (d >? n * 1000 / sample_rate gf).
  - apply Hset. rewrite wrap64_small by lia. lia.
  - destruct skipped; cbn [negb].
    + specialize (Hfit (overlap_ms gf) Hov). rewrite <- Hof in Hfit.
      repeat split; lia.
    + apply Hset. rewrite wrap64_small by lia.
      rewrite three_quarters_of_exact by lia. exact Hraise.
Qed.

Lemma steady_process (env : window_env) (gf : cleanstream_data) :
  pipeline_steady gf ->
  window_frames gf <= sum_frames (info_buffer gf) ->
  gate_in_bounds env gf ->
  exists gf' events,
    process_audio_from_buffer env gf = Some (gf', events)
    /\ frames_in_flight gf' = frames_in_flight gf
    /\ pipeline_steady gf'.
Proof.
  intros H Hfull Hgate.
  pose proof (steady_window_ready gf H) as Hready.
  destruct (process_audio_defined env gf Hready Hgate)
    as (gf' & events & Hp & Ht & Hms & Hof & _).
  exists gf', events. split; [exact Hp|].
  assert (frames_in_flight gf' = frames_in_flight gf) as Hflight.
  { destruct Ht as (_ & _ & _ & T4 & _ & T6 & _).
    destruct (steady_drain gf H) as (pre & rest & Hsplit & Hn & Hrem & _).
    unfold frames_in_flight.
    rewrite T4, T6, Hrem, Hsplit, !sum_frames_app, Hn.
    change (sum_frames [_]) with (sum_frames pre + 0). lia. }
  split; [exact Hflight|].
  destruct Ht as (T1 & T2 & T3 & T4 & T5 & T6 & T7 & T8 & T9 & T10 & T11 & T12).
  destruct (steady_adapt_overlap gf (snd (gate_outcome env gf)) (duration env)
              H Hfull) as (A1 & A2 & A3 & A4).
  rewrite <- Hms in A1, A2. rewrite <- Hof in A2, A3.
  destruct (steady_drain gf H)
    as (pre & rest & Hsplit & Hn & Hrem & Hle & Hrest & Hnext).
  destruct (steady_rings gf H) as (Hil & Hol & Hif & Hio & Hin & Hout).
  pose proof (steady_packets gf H) as Hpk.
  rewrite Hsplit in Hif, Hpk.
  apply Forall_app in Hif as [Hif1 Hif2].
  apply Forall_app in Hpk as [_ Hpk2].
  constructor.
  - rewrite T2. apply (steady_rate gf H).
  - rewrite T1. apply (steady_channels gf H).
  - rewrite T2, T3. apply (steady_window gf H).
  - unfold rings_consistent. rewrite T1, T4, T5, T6, Hrem.
    split; [now rewrite length_map|].
    split; [rewrite T7, length_map, length_combine; lia|].
    split; [exact Hif2|].
    split.
    { apply Forall_app. split; [exact Hio|].
      constructor; [cbn; lia | constructor]. }
    split.
    { apply Forall_map. eapply Forall_impl; [|exact Hin].
      cbn. intros b Hb. rewrite length_skipn.
      rewrite Hsplit, sum_frames_app in Hb. lia. }
    rewrite sum_frames_app.
    change (sum_frames [_]) with (window_new_frames gf + 0).
    rewrite Z.add_0_r, T7.
    apply Forall_combine_length; trivial; [lia | lia |].
    eapply Forall_impl; [|exact T12]. cbn. intros b Hb.
    pose proof (committed_frames_range gf Hready). lia.
  - rewrite T1. exact T9.
  - rewrite T1. exact T11.
  - rewrite T3. exact T10.
  - rewrite T2, T4, Hrem. exact Hpk2.
  - exact A1.
  - rewrite T2. exact A2.
  - rewrite T8. lia.
  - right. rewrite T8, T3. lia.
Qed.

Lemma steady_push (gf : cleanstream_data) (audio : obs_audio_data) :
  pipeline_steady gf ->
  packet_fits (channels gf) audio ->
  audio_frames audio <= sample_rate gf / 10 ->
  exists gf' res,
    cleanstream_filter_audio gf audio = Some (gf', res)
    /\ channels gf' = channels gf
    /\ sample_rate gf' = sample_rate gf
    /\ vad_enabled gf' = vad_enabled gf
    /\ audio_frames audio + frames_in_flight gf
       = returned_frames match res with
                         | Output o | PassThrough o => [o]
                         | NoOutput => []
                         end
         + frames_in_flight gf'
    /\ match res with
       | Output o | PassThrough o => packet_fits (channels gf) o
       | NoOutput => True
       end
    /\ pipeline_steady gf'.
Proof.
  intros H Hfit Hsmall.
  destruct (active gf) eqn:Ha.
  2:{ exists gf, (PassThrough audio). unfold cleanstream_filter_audio.
      rewrite Ha. cbn [returned_frames fold_right].
      split; [reflexivity|]. split; [reflexivity|]. split; [reflexivity|].
      split; [reflexivity|].
      split; [lia|]. split; [exact Hfit | exact H]. }
  destruct (whisper_context gf) as [ctx|] eqn:Hctx.
  2:{ exists gf, (PassThrough audio). unfold cleanstream_filter_audio.
      rewrite Ha, Hctx. cbn [returned_frames fold_right].
      split; [reflexivity|]. split; [reflexivity|]. split; [reflexivity|].
      split; [reflexivity|].
      split; [lia|]. split; [exact Hfit | exact H]. }
  assert (whisper_context gf <> None) as Hc by congruence.
  destruct (filter_audio_defined gf audio Ha Hc (steady_rings gf H) Hfit)
    as (gf' & res & Hf & Hrings & Hinfo & _ & Hres).
  exists gf', res. split; [exact Hf|].
  rewrite (filter_audio_eq gf audio Ha Hc (steady_rings gf H) Hfit) in Hf.
  assert (Forall (fun i => frames i <= sample_rate gf / 10) (info_buffer gf'))
    as Hpk.
  { rewrite Hinfo. apply Forall_app. split; [apply (steady_packets gf H)|].
    constructor; [exact Hsmall | constructor]. }
  assert (channels gf' = channels gf /\ sample_rate gf' = sample_rate gf
          /\ vad_enabled gf' = vad_enabled gf)
    as (Hch & Hrate & Hvad)
    by (destruct (info_out_buffer gf); injection Hf as <- _; auto).
  split; [exact Hch|]. split; [exact Hrate|]. split; [exact Hvad|].
  destruct (steady_rings gf H) as (_ & Hol & _ & Hio & _ & Hout).
  unfold frames_in_flight. rewrite Hinfo, sum_frames_app.
  change (sum_frames [_]) with (audio_frames audio + 0).
  destruct H as [H1 H2 H3 H4 H5 H6 H7 H8 H9 H10 H11 H12].
  destruct (info_out_buffer gf) as [|info_out rest] eqn:Hq.
  - destruct Hres as (-> & -> & _). injection Hf as <-.
    cbn. split; [lia|]. split; [trivial|]. constructor; trivial.
  - destruct Hres as (-> & -> & _). injection Hf as <-.
    inversion Hio as [|? ? Hf0 Hfrest]; subst.
    pose proof (sum_frames_nonneg rest Hfrest) as Hrest.
    change (sum_frames (info_out :: rest))
      with (frames info_out + sum_frames rest) in *.
    cbn [returned_frames fold_right audio_frames].
    split; [lia|]. split; [|constructor; trivial].
    unfold packet_fits. cbn [audio_frames data].
    split; [exact Hf0|]. split; [now rewrite length_map|].
    apply Forall_map. eapply Forall_impl; [|exact Hout].
    cbn beta. intros b Hb. rewrite length_firstn. lia.
Qed.

(** A steady pipeline stays steady, no push and no poll fails, and
    frames are neither lost nor made up. *)
Lemma steady_run_trace (tr : list action) :
  forall gf,
    pipeline_steady gf ->
    Forall (in_bounds_action gf) tr ->
    exists gf' outs,
      run_trace gf tr = Some (gf', outs)
      /\ pipeline_steady gf'
      /\ channels gf' = channels gf
      /\ sample_rate gf' = sample_rate gf
      /\ vad_enabled gf' = vad_enabled gf
      /\ pushed_frames tr + frames_in_flight gf
         = returned_frames outs + frames_in_flight gf'
      /\ Forall (packet_fits (channels gf)) outs.
Proof.
  induction tr as [|a tr IH]; intros gf H Hall.
  - exists gf, []. cbn.
    split; [reflexivity|]. split; [exact H|]. split; [reflexivity|].
    split; [reflexivity|]. split; [reflexivity|]. split; [lia | constructor].
  - inversion Hall as [|? ? Ha Htr]; subst.
    destruct a as [audio|env]; cbn [run_trace pushed_frames fold_right].
    + destruct Ha as [Hfit Hsmall].
      destruct (steady_push gf audio H Hfit Hsmall)
        as (g & res & Hf & Hch & Hrate & Hvad & Hcons & Hres & Hg).
      rewrite Hf.
      destruct (IH g Hg)
        as (gf' & outs & -> & Hs & Hc & Hr & Hv & Hsum & Houts).
      { eapply Forall_impl; [|exact Htr].
        intros [a'|e]; cbn; [now rewrite Hch, Hrate|].
        now apply gate_in_bounds_same. }
      fold (pushed_frames tr). rewrite Hch in Houts.
      eexists _, _. split; [reflexivity|].
      split; [exact Hs|]. split; [congruence|]. split; [congruence|].
      split; [congruence|].
      destruct res as [o| |o];
        change (returned_frames [o]) with (audio_frames o + 0) in Hcons
        || change (returned_frames []) with 0 in Hcons;
        try change (returned_frames (o :: outs))
              with (audio_frames o + returned_frames outs);
        (split; [lia|]); try constructor; trivial.
    + fold (pushed_frames tr). unfold whisper_loop_poll.
      destruct (Z.geb_spec
                  (4 * Z.of_nat (length (nth 0 (input_buffers gf) [])))
                  (wrap64 (window_frames gf * 4))) as [Hfull|Hshort].
      * destruct (steady_frames gf H) as (HW & _).
        rewrite wrap64_small in Hfull by lia.
        assert (window_frames gf <= sum_frames (info_buffer gf)) as Hq.
        { destruct (steady_rings gf H) as (_ & _ & _ & _ & Hin & _).
          destruct (input_buffers gf) as [|b bs];
            [cbn [nth length] in Hfull; lia|].
          inversion Hin; subst. cbn [nth] in Hfull. lia. }
        cbn in Ha.
        destruct (steady_process env gf H Hq Ha)
          as (g & events & Hp & Hflight & Hg).
        rewrite Hp.
        destruct (process_audio_defined env gf (steady_window_ready gf H) Ha)
          as (g' & events' & Hp' & (Hch & Hrate & _) & _ & _ & _ & _ & Hvad
              & _).
        rewrite Hp in Hp'. injection Hp' as <- <-.
        destruct (IH g Hg)
          as (gf' & outs & -> & Hs & Hc & Hr & Hv & Hsum & Houts).
        { eapply Forall_impl; [|exact Htr].
          intros [a'|e]; cbn; [now rewrite Hch, Hrate|].
          now apply gate_in_bounds_same. }
        rewrite Hch in Houts.
        eexists _, _. split; [reflexivity|].
        split; [exact Hs|]. split; [congruence|]. split; [congruence|].
        split; [congruence|].
        split; [lia | exact Houts].
      * destruct (IH gf H Htr)
          as (gf' & outs & -> & Hs & Hc & Hr & Hv & Hsum & Houts).
        eexists _, _. split; [reflexivity|]. auto 7.
Qed.

End Steady.

(** ** Construction, and a window on its way to the host *)

Lemma standard_rate_frames :
  Forall (fun rate =>
            1000 <= rate <= 192000
            /\ F32.to_Z (F32.of_Z rate
                         / (F32.of_Z 1000 / F32.of_Z BUFFER_SIZE_MSEC))%f32
               = rate * BUFFER_SIZE_MSEC / 1000
            /\ F32.to_Z (F32.of_Z rate
                         / (F32.of_Z 1000 / F32.of_Z OVERLAP_SIZE_MSEC))%f32
               = OVERLAP_SIZE_MSEC * rate / 1000)
    standard_rates.
Proof.
  repeat constructor; try (apply Z.leb_le; vm_compute; reflexivity);
    vm_compute; reflexivity.
Qed.

Lemma cleanstream_create_steady (n : nat) (rate : Z) (silence vad : bool)
    (detect beep : option string) :
  (n <= MAX_PREPROC_CHANNELS)%nat ->
  In rate standard_rates ->
  pipeline_steady (cleanstream_create n rate silence vad detect beep).
Proof.
  intros Hn Hrate.
  pose proof standard_rate_frames as Hall. rewrite Forall_forall in Hall.
  destruct (Hall rate Hrate) as (Hr & HW & Ho).
  assert (0 <= rate * BUFFER_SIZE_MSEC / 1000)
    by (apply Z.div_pos; unfold BUFFER_SIZE_MSEC; lia).
  constructor; cbn [cleanstream_create sample_rate channels window_frames
                    copy_buffers copy_output_buffers info_buffer
                    overlap_ms overlap_frames last_num_frames].
  - exact Hr.
  - exact Hn.
  - exact HW.
  - unfold rings_consistent. cbn. rewrite !repeat_length.
    repeat split; trivial; try constructor;
      apply Forall_forall; intros b Hb; apply repeat_spec in Hb; now subst.
  - apply repeat_length.
  - apply repeat_length.
  - apply Forall_forall. intros b Hb. apply repeat_spec in Hb. subst b.
    rewrite repeat_length, HW. lia.
  - constructor.
  - unfold OVERLAP_SIZE_MSEC. lia.
  - exact Ho.
  - unfold OVERLAP_SIZE_MSEC. lia.
  - now left.
Qed.

Lemma firstn_published (k : nat) :
  forall (outs snaps : list (list float32)),
    length outs = length snaps ->
    Forall (fun b => length b = 0%nat) outs ->
    map (firstn k) (map (fun os => fst os ++ firstn k (snd os))
                      (combine outs snaps))
    = map (firstn k) snaps.
Proof.
  induction outs as [|o outs IH]; intros [|s snaps] Hl He; try discriminate;
    cbn; [reflexivity|].
  inversion He as [|? ? H0 Hrest]; subst.
  apply length_zero_iff_nil in H0. subst o. cbn [app].
  rewrite firstn_firstn, Nat.min_id. f_equal. apply IH; auto.
Qed.

Section RoundTrip.
Context {R : StdRegex} {M : Libm}.

(** X16. A window published into empty output rings, in an environment
    in which the gate reads inside the resampled buffer, is the packet the
    next call of the host returns: it carries the window's frame count
    and start timestamp and, per channel, the first frames of the
    snapshot, and it leaves the output rings empty again. *)
Theorem published_window_reaches_host (env : window_env)
    (gf : cleanstream_data) (audio : obs_audio_data) :
  pipeline_steady gf ->
  window_frames gf <= sum_frames (info_buffer gf) ->
  info_out_buffer gf = [] ->
  active gf = true ->
  whisper_context gf <> None ->
  gate_in_bounds env gf ->
  asr env <> WhisperThrows ->
  packet_fits (channels gf) audio ->
  exists gf1 events gf2 o,
    process_audio_from_buffer env gf = Some (gf1, events)
    /\ cleanstream_filter_audio gf1 audio = Some (gf2, Output o)
    /\ audio_frames o = window_new_frames gf
    /\ audio_timestamp o = window_start_timestamp gf
    /\ data o
       = map (firstn (Z.to_nat (window_new_frames gf)))
           (copy_output_buffers gf1)
    /\ info_out_buffer gf2 = []
    /\ Forall (fun ring => ring = []) (output_buffers gf2).
Proof.
  intros H Hfull Hempty Hact Hctx Hgate Hasr Hfit.
  pose proof (steady_window_ready gf H) as Hready.
  destruct (steady_process env gf H Hfull Hgate)
    as (gf1 & events & Hp & _ & H1).
  destruct (process_audio_defined env gf Hready Hgate)
    as (g & ev & Hp' & Ht & _ & _ & Hc & _ & _ & _ & _ & Ha & _).
  rewrite Hp in Hp'. injection Hp' as <- <-.
  destruct Ht as (T1 & _ & _ & _ & _ & T6 & T7 & _ & _ & _ & T11 & T12).
  assert (whisper_context gf1 <> None) as Hctx1.
  { rewrite Hc. destruct (snd (gate_outcome env gf)); [exact Hctx|].
    destruct (run_whisper_inference_state gf (fst (gate_outcome env gf)) (asr env))
      as [-> | (_ & E & _)]; [exact Hctx | congruence]. }
  rewrite Hempty in T6. cbn [app] in T6.
  assert (active gf1 = true) as Hact1 by congruence.
  assert (packet_fits (channels gf1) audio) as Hfit1 by (now rewrite T1).
  destruct (filter_audio_defined gf1 audio Hact1 Hctx1 (steady_rings gf1 H1)
              Hfit1)
    as (gf2 & res & Hf & Hrings & _ & _ & Hres).
  rewrite T6 in Hres. destruct Hres as (-> & Hio & Hout).
  eexists gf1, events, gf2, _. split; [exact Hp|]. split; [exact Hf|].
  cbn [audio_frames audio_timestamp data frames timestamp].
  split; [reflexivity|]. split; [reflexivity|].
  destruct (steady_rings gf H) as (_ & Hol & _ & _ & _ & Hlen).
  rewrite Hempty in Hlen. cbn in Hlen.
  assert (Forall (fun b : list float32 => length b = 0%nat) (output_buffers gf))
    as Hnil.
  { eapply Forall_impl; [|exact Hlen]. cbn. intros b Hb. lia. }
  assert (map (firstn (Z.to_nat (window_new_frames gf))) (output_buffers gf1)
          = map (firstn (Z.to_nat (window_new_frames gf)))
              (copy_output_buffers gf1)) as Hdata.
  { rewrite T7. apply firstn_published; [congruence | exact Hnil]. }
  split; [exact Hdata|]. split; [exact Hio|].
  destruct Hrings as (_ & _ & _ & _ & _ & Hout2).
  rewrite Hio in Hout2. cbn in Hout2.
  eapply Forall_impl; [|exact Hout2]. cbn. intros b Hb.
  apply length_zero_iff_nil. lia.
Qed.

End RoundTrip.

(** ** Before the first window *)

Section Latency.
Context {R : StdRegex} {M : Libm}.

Lemma pushed_frames_nonneg (gf : cleanstream_data) (tr : list action) :
  Forall (steady_action gf) tr -> 0 <= pushed_frames tr.
Proof.
  induction 1 as [|a tr Ha Htr IH]; cbn; [lia|].
  fold (pushed_frames tr). destruct a as [audio|env]; [|exact IH].
  destruct Ha as [(Hk & _) _]. lia.
Qed.

(** X18. The host gets no packet back before a whole window was pushed:
    as long as the frames queued and pushed stay below [window_frames],
    every call returns no packet, the worker's polls do nothing, and all
    the frames pushed are queued. *)
Theorem no_output_before_first_window (tr : list action) :
  forall gf,
    pipeline_steady gf ->
    active gf = true ->
    whisper_context gf <> None ->
    info_out_buffer gf = [] ->
    Forall (steady_action gf) tr ->
    sum_frames (info_buffer gf) + pushed_frames tr < window_frames gf ->
    exists gf',
      run_trace gf tr = Some (gf', [])
      /\ info_out_buffer gf' = []
      /\ output_buffers gf' = output_buffers gf
      /\ last_num_frames gf' = last_num_frames gf
      /\ sum_frames (info_buffer gf')
         = sum_frames (info_buffer gf) + pushed_frames tr.
Proof.
  induction tr as [|a tr IH]; intros gf H Hact Hctx Hout Hall Hshort.
  - exists gf. cbn. repeat split; trivial. lia.
  - inversion Hall as [|? ? Ha Htr]; subst.
    pose proof (pushed_frames_nonneg gf tr Htr) as Hpos.
    destruct a as [audio|env];
      cbn [run_trace pushed_frames fold_right] in *; fold (pushed_frames tr) in *.
    + destruct Ha as [Hfit Hsmall].
      destruct (steady_push gf audio H Hfit Hsmall)
        as (g & res & Hf & Hch & Hrate & _ & _ & _ & Hg).
      destruct (filter_audio_defined gf audio Hact Hctx (steady_rings gf H) Hfit)
        as (g' & res' & Hf' & _ & Hinfo & _ & Hres).
      rewrite Hf in Hf'. injection Hf' as <- <-.
      rewrite Hout in Hres. destruct Hres as (-> & Hio & Hob).
      rewrite (filter_audio_eq gf audio Hact Hctx (steady_rings gf H) Hfit),
        Hout in Hf.
      assert (active g = true /\ whisper_context g = whisper_context gf
              /\ window_frames g = window_frames gf
              /\ last_num_frames g = last_num_frames gf) as (A1 & A2 & A3 & A4)
        by (injection Hf as <-; cbn; auto).
      rewrite (filter_audio_eq gf audio Hact Hctx (steady_rings gf H) Hfit),
        Hout.
      injection Hf as Hg'. rewrite Hg'.
      destruct (IH g Hg) as (gf' & -> & E1 & E2 & E3 & E4); trivial;
        try congruence.
      { eapply Forall_impl; [|exact Htr].
        intros [a'|e]; cbn; [|trivial]. now rewrite Hch, Hrate. }
      { rewrite Hinfo, sum_frames_app, A3.
        change (sum_frames [_]) with (audio_frames audio + 0). lia. }
      exists gf'. split; [reflexivity|]. split; [exact E1|].
      split; [congruence|]. split; [congruence|].
      rewrite E4, Hinfo, sum_frames_app.
      change (sum_frames [_]) with (audio_frames audio + 0). lia.
    + unfold whisper_loop_poll.
      destruct (steady_frames gf H) as (HW & _).
      replace (4 * Z.of_nat (length (nth 0 (input_buffers gf) []))
               >=? wrap64 (window_frames gf * 4)) with false.
      2:{ symmetry. rewrite Z.geb_leb. apply Z.leb_gt.
          rewrite wrap64_small by lia.
          destruct (steady_rings gf H) as (_ & _ & _ & _ & Hin & _).
          destruct (input_buffers gf) as [|b bs];
            [cbn [nth length]; lia|].
          inversion Hin; subst. cbn [nth]. lia. }
      destruct (IH gf H) as (gf' & -> & E1 & E2 & E3 & E4); trivial.
      exists gf'. auto.
Qed.

End Latency.

(** ** The pipeline as a whole *)

Lemma packet_fitsb_sound (n : nat) (audio : obs_audio_data) :
  packet_fitsb n audio = true -> packet_fits n audio.
Proof.
  unfold packet_fitsb, packet_fits. rewrite !andb_true_iff.
  intros [[H1 H2] H3]. split; [now apply Z.leb_le|].
  split; [now apply Nat.eqb_eq|].
  apply Forall_forall. intros plane Hp.
  rewrite forallb_forall in H3. now apply Z.leb_le, H3.
Qed.

Section PipelineProperties.
Context {R : StdRegex} {M : Libm}.

Lemma steady_state_after (gf : cleanstream_data) (tr : list action) :
  pipeline_steady gf ->
  Forall (in_bounds_action gf) tr ->
  pipeline_steady (state_after gf tr).
Proof.
  intros H Htr. unfold state_after.
  destruct (steady_run_trace tr gf H Htr) as (gf' & outs & -> & Hs & _).
  exact Hs.
Qed.

(** X11. The loop over the descriptor ring takes the longest prefix of
    whole descriptors whose frames fit in [needed]: it counts the frames
    of that prefix, leaves the rest in the ring in order, and the first
    descriptor left, if any, would not have fitted.  The start timestamp
    is latched over the prefix and that first descriptor left, so a
    descriptor that is pushed back can still give the window its
    timestamp; on the empty ring the window has no frames and timestamp
    0. *)
Theorem drain_takes_longest_prefix (needed : Z)
    (buf : list cleanstream_audio_info) :
  0 <= needed ->
  Forall (fun i => 0 <= frames i /\ needed + frames i < 2 ^ 32) buf ->
  exists pre rest,
    buf = pre ++ rest
    /\ drain_info_buffer needed buf 0 0
       = (sum_frames pre, latch_timestamp 0 (pre ++ firstn 1 rest), rest)
    /\ sum_frames pre <= needed
    /\ forall p rest', rest = p :: rest' -> needed < sum_frames pre + frames p.
Proof.
  intros Hn Hbuf.
  destruct (drain_info_buffer_prefix needed buf Hbuf 0 0)
    as (pre & rest & Hsplit & Hd & Hle & Hnext); [lia|].
  exists pre, rest. rewrite Hd. repeat split; trivial.
Qed.

(** X12. In a ready state one invocation of the segment processor
    returns, whatever the ASR engine, the patterns and the clock do and
    whatever the resampler returns, provided the gate reads inside that
    buffer (the gate is off, or the buffer is not empty).  It takes the
    drained frames from every input ring, stages them behind the overlap,
    snapshots the staged frames, replaces the first [num_new] frames of
    the snapshot if and only if the window was not skipped, [do_silence]
    is on and the classification is FILLER or BEEP, and appends one
    descriptor and [num_new] frames per channel to the output side; the
    overlap is updated from the frame count, the gate and the clock
    alone. *)
Theorem window_is_processed_in_every_environment (env : window_env)
    (gf : cleanstream_data) :
  window_ready gf ->
  gate_in_bounds env gf ->
  exists gf' events,
    process_audio_from_buffer env gf = Some (gf', events)
    /\ window_taken gf gf'
    /\ (forall c copy input,
          nth_error (copy_buffers gf) c = Some copy ->
          nth_error (input_buffers gf) c = Some input ->
          nth_error (copy_buffers gf') c
          = Some (staged_region gf (window_new_frames gf) copy input))
    /\ copy_output_buffers gf'
       = map (window_snapshot gf (snd (gate_outcome env gf))
                (window_classification env gf))
           (copy_buffers gf')
    /\ overlap_ms gf'
       = overlap_ms (adapt_overlap gf (window_new_frames gf)
                       (snd (gate_outcome env gf)) (duration env))
    /\ overlap_frames gf'
       = overlap_frames (adapt_overlap gf (window_new_frames gf)
                           (snd (gate_outcome env gf)) (duration env))
    /\ (snd (gate_outcome env gf) = true ->
        events = [] /\ whisper_context gf' = whisper_context gf).
Proof.
  intros H Hgate.
  destruct (process_audio_defined env gf H Hgate)
    as (gf' & events & Hp & Ht & Hms & Hof & Hctx & _ & _ & _ & _ & _ & Hev
        & Hstaged & Hsnap).
  exists gf', events.
  split; [exact Hp|]. split; [exact Ht|]. split; [exact Hstaged|].
  split; [exact Hsnap|]. split; [exact Hms|]. split; [exact Hof|].
  intros Hskip. rewrite Hskip in Hctx, Hev. auto.
Qed.


(** X19. Fed with packets of at most 100 ms, the pipeline never leaves
    its buffers: from a steady state every push and every poll is defined
    (no read or write outside a staging region, no [memcpy] between
    overlapping regions, no pop of frames that are not there), whatever
    the ASR engine and the clock do in each window, as long as the gate
    reads inside the buffer the resampler returns (the gate is off, or
    that buffer is never empty); and the state stays steady: in
    particular [overlap_ms] stays between 100 and 440. *)
Theorem steady_pipeline_never_fails (gf : cleanstream_data)
    (tr : list action) :
  pipeline_steady gf ->
  Forall (in_bounds_action gf) tr ->
  exists gf' outs,
    run_trace gf tr = Some (gf', outs)
    /\ pipeline_steady gf'.
Proof.
  intros H Htr.
  destruct (steady_run_trace tr gf H Htr) as (gf' & outs & Hrun & Hs & _).
  eauto.
Qed.

(** X20. Along such a run frames are neither lost nor made up: the
    frames pushed plus those announced by the descriptors queued at the
    start are the frames of the packets handed back plus those announced
    by the descriptors queued at the end, and every packet handed back
    has one plane per channel with the frames it announces. *)
Theorem steady_pipeline_conserves_frames (gf : cleanstream_data)
    (tr : list action) :
  pipeline_steady gf ->
  Forall (in_bounds_action gf) tr ->
  exists gf' outs,
    run_trace gf tr = Some (gf', outs)
    /\ pushed_frames tr + frames_in_flight gf
       = returned_frames outs + frames_in_flight gf'
    /\ Forall (packet_fits (channels gf)) outs.
Proof.
  intros H Htr.
  destruct (steady_run_trace tr gf H Htr)
    as (gf' & outs & Hrun & _ & _ & _ & _ & Hsum & Houts).
  eauto.
Qed.

(** X21. At the standard sample rates the binary32 computations of
    [cleanstream_create] lose no frame: [frames] is [rate * 1010 / 1000]
    and [overlap_frames] is [340 * rate / 1000], the value the integer
    formula of the overlap update gives; with at most two channels the
    filter starts in a steady state with nothing queued. *)
Theorem created_filter_is_steady (n : nat) (rate : Z) (silence vad : bool)
    (detect beep : option string) :
  (n <= MAX_PREPROC_CHANNELS)%nat ->
  In rate standard_rates ->
  let gf := cleanstream_create n rate silence vad detect beep in
  pipeline_steady gf
  /\ window_frames gf = rate * BUFFER_SIZE_MSEC / 1000
  /\ overlap_frames gf = OVERLAP_SIZE_MSEC * rate / 1000
  /\ frames_in_flight gf = 0.
Proof.
  intros Hn Hrate gf.
  pose proof (cleanstream_create_steady n rate silence vad detect beep Hn Hrate)
    as H.
  split; [exact H|]. split; [apply (steady_window _ H)|].
  split; [apply (steady_overlap_frames _ H) | reflexivity].
Qed.

End PipelineProperties.

(** ** What a window hands to the host *)

Section PublishedFrames.
Context {R : StdRegex} {M : Libm}.

(** What one invocation does to the rings of one channel, with the
    snapshot it publishes from. *)
Lemma process_audio_channel (env : window_env) (gf : cleanstream_data) :
  window_ready gf ->
  gate_in_bounds env gf ->
  exists gf' events,
    process_audio_from_buffer env gf = Some (gf', events)
    /\ forall c input output,
         nth_error (input_buffers gf) c = Some input ->
         nth_error (output_buffers gf) c = Some output ->
         exists copy,
           nth_error (copy_buffers gf) c = Some copy
           /\ nth_error (input_buffers gf') c
              = Some (skipn (Z.to_nat (window_new_frames gf)) input)
           /\ nth_error (output_buffers gf') c
              = Some (output
                        ++ firstn (Z.to_nat (window_new_frames gf))
                             (window_snapshot gf (snd (gate_outcome env gf))
                                (window_classification env gf)
                                (staged_region gf (window_new_frames gf)
                                   copy input))).
Proof.
  intros H Hgate.
  destruct (process_audio_defined env gf H Hgate)
    as (gf' & events & Hp & Ht & _ & _ & _ & _ & _ & _ & _ & _ & _
        & Hstaged & Hsnap).
  exists gf', events. split; [exact Hp|].
  intros c input output Hin Hout.
  destruct Ht as (_ & _ & _ & _ & T5 & _ & T7 & _).
  destruct (nth_error (copy_buffers gf) c) as [copy|] eqn:Hcopy.
  2: { apply nth_error_None in Hcopy. rewrite (ready_copy gf H) in Hcopy.
       assert (c < length (input_buffers gf))%nat as Hc
         by (apply nth_error_Some; congruence).
       rewrite (ready_input gf H) in Hc. lia. }
  exists copy. split; [reflexivity|]. split.
  - rewrite T5, nth_error_map, Hin. reflexivity.
  - specialize (Hstaged c copy input Hcopy Hin).
    assert (nth_error (copy_output_buffers gf') c
            = Some (window_snapshot gf (snd (gate_outcome env gf))
                      (window_classification env gf)
                      (staged_region gf (window_new_frames gf) copy input)))
      as Hs by (rewrite Hsnap, nth_error_map, Hstaged; reflexivity).
    rewrite T7.
    now rewrite (nth_error_map_combine _ _ _ c output _ Hout Hs).
Qed.

(** The first frames of a snapshot that is not replaced. *)
Lemma window_snapshot_kept (gf : cleanstream_data) (skipped : bool)
    (r : DetectionResult) (staged : list float32) :
  window_ready gf ->
  replaces_audio gf skipped r = false ->
  firstn (Z.to_nat (window_new_frames gf)) (window_snapshot gf skipped r staged)
  = firstn (Z.to_nat (window_new_frames gf)) staged.
Proof.
  intros H Hrep. unfold window_snapshot. rewrite Hrep.
  pose proof (committed_frames_range gf H) as Hc.
  pose proof (window_new_frames_range gf H) as Hn.
  rewrite firstn_firstn. f_equal. lia.
Qed.

(** The first frames of a snapshot that is replaced. *)
Lemma window_snapshot_replaced (gf : cleanstream_data) (skipped : bool)
    (r : DetectionResult) (staged : list float32) :
  replaces_audio gf skipped r = true ->
  firstn (Z.to_nat (window_new_frames gf)) (window_snapshot gf skipped r staged)
  = map (fun i => replacement_sample gf r (Z.of_nat i))
      (seq 0 (Z.to_nat (window_new_frames gf))).
Proof.
  intros Hrep. unfold window_snapshot. rewrite Hrep. unfold overwritten.
  rewrite firstn_app, length_map, length_seq, Nat.sub_diag, firstn_O, app_nil_r.
  apply firstn_all2. rewrite length_map, length_seq. lia.
Qed.

(** X22. The first window, when the gate reads inside the resampled
    buffer and the audio is not replaced, hands on exactly what it takes: in every channel the frames removed from the
    front of the input ring are the frames appended to the output
    ring. *)
Theorem first_window_publishes_consumed_frames (env : window_env)
    (gf : cleanstream_data) :
  window_ready gf ->
  gate_in_bounds env gf ->
  last_num_frames gf = 0 ->
  replaces_audio gf (snd (gate_outcome env gf)) (window_classification env gf)
  = false ->
  exists gf' events,
    process_audio_from_buffer env gf = Some (gf', events)
    /\ forall c input output,
         nth_error (input_buffers gf) c = Some input ->
         nth_error (output_buffers gf) c = Some output ->
         nth_error (input_buffers gf') c
         = Some (skipn (Z.to_nat (window_new_frames gf)) input)
         /\ nth_error (output_buffers gf') c
            = Some (output ++ firstn (Z.to_nat (window_new_frames gf)) input).
Proof.
  intros H Hgate Hfirst Hrep.
  destruct (process_audio_channel env gf H Hgate)
    as (gf' & events & Hp & Hch).
  exists gf', events. split; [exact Hp|].
  intros c input output Hin Hout.
  destruct (Hch c input output Hin Hout) as (copy & _ & Hin' & Hout').
  split; [exact Hin'|].
  rewrite Hout', (window_snapshot_kept _ _ _ _ H Hrep).
  unfold staged_region. rewrite Hfirst. cbn [Z.gtb Z.compare].
  pose proof (ready_queued gf H) as Hq. rewrite Forall_forall in Hq.
  pose proof (Hq input (nth_error_In _ _ Hin)).
  pose proof (window_new_frames_range gf H) as Hn.
  rewrite firstn_app, length_firstn.
  replace (Z.to_nat (window_new_frames gf)
           - Nat.min (Z.to_nat (window_new_frames gf)) (length input))%nat
    with 0%nat by lia.
  rewrite firstn_O, app_nil_r, firstn_firstn.
  now rewrite Nat.min_id.
Qed.

(** X23. Every later window that takes at least [overlap_frames] new
    frames and is not replaced, in an environment in which the gate reads
    inside the resampled buffer, removes [num_new] frames from the input
    ring and appends [num_new] frames to the output ring, but not the same
    ones: first the last [overlap_frames] frames of the previous window's
    staging region again, then the new frames without their last
    [overlap_frames]. *)
Theorem later_window_lags_by_the_overlap (env : window_env)
    (gf : cleanstream_data) :
  window_ready gf ->
  gate_in_bounds env gf ->
  0 < last_num_frames gf ->
  overlap_frames gf <= window_new_frames gf ->
  replaces_audio gf (snd (gate_outcome env gf)) (window_classification env gf)
  = false ->
  exists gf' events,
    process_audio_from_buffer env gf = Some (gf', events)
    /\ forall c input output,
         nth_error (input_buffers gf) c = Some input ->
         nth_error (output_buffers gf) c = Some output ->
         exists copy,
           nth_error (copy_buffers gf) c = Some copy
           /\ nth_error (input_buffers gf') c
              = Some (skipn (Z.to_nat (window_new_frames gf)) input)
           /\ nth_error (output_buffers gf') c
              = Some (output
                        ++ firstn (Z.to_nat (overlap_frames gf))
                             (skipn (Z.to_nat (last_num_frames gf
                                               - overlap_frames gf)) copy)
                        ++ firstn (Z.to_nat (window_new_frames gf
                                             - overlap_frames gf)) input).
Proof.
  intros H Hgate Hlater Hov Hrep.
  destruct (process_audio_channel env gf H Hgate)
    as (gf' & events & Hp & Hch).
  exists gf', events. split; [exact Hp|].
  intros c input output Hin Hout.
  destruct (Hch c input output Hin Hout) as (copy & Hcopy & Hin' & Hout').
  exists copy. split; [exact Hcopy|]. split; [exact Hin'|].
  rewrite Hout', (window_snapshot_kept _ _ _ _ H Hrep).
  unfold staged_region.
  destruct (Z.gtb_spec (last_num_frames gf) 0); [|lia].
  destruct (ready_overlap gf H Hlater) as (Ho & Ho2 & Hw).
  pose proof (ready_regions gf H) as Hr. rewrite Forall_forall in Hr.
  pose proof (Hr copy (nth_error_In _ _ Hcopy)) as Hlen.
  set (tail := firstn (Z.to_nat (overlap_frames gf))
                 (skipn (Z.to_nat (last_num_frames gf - overlap_frames gf))
                    copy)).
  assert (length tail = Z.to_nat (overlap_frames gf)) as Ht.
  { unfold tail. rewrite length_firstn, length_skipn. lia. }
  do 2 f_equal.
  rewrite firstn_app, Ht, (firstn_all2 tail) by lia. f_equal.
  rewrite firstn_app, firstn_firstn.
  replace (Nat.min (Z.to_nat (window_new_frames gf)
                    - Z.to_nat (overlap_frames gf))
             (Z.to_nat (window_new_frames gf)))
    with (Z.to_nat (window_new_frames gf - overlap_frames gf)) by lia.
  rewrite length_firstn.
  pose proof (ready_queued gf H) as Hq. rewrite Forall_forall in Hq.
  pose proof (Hq input (nth_error_In _ _ Hin)).
  replace (Z.to_nat (window_new_frames gf) - Z.to_nat (overlap_frames gf)
           - Nat.min (Z.to_nat (window_new_frames gf)) (length input))%nat
    with 0%nat by lia.
  now rewrite firstn_O, app_nil_r.
Qed.

(** X24. A window whose audio is replaced (the gate reads inside the
    resampled buffer and does not skip the window, [do_silence] is on,
    the classification is FILLER or BEEP) takes its [num_new] frames from the input
    ring and appends [num_new] frames to the output ring that do not
    depend on the audio: zeros for FILLER, the 440 Hz tone from index 0
    for BEEP. *)
Theorem replaced_window_hides_its_audio (env : window_env)
    (gf : cleanstream_data) :
  window_ready gf ->
  gate_in_bounds env gf ->
  replaces_audio gf (snd (gate_outcome env gf)) (window_classification env gf)
  = true ->
  exists gf' events,
    process_audio_from_buffer env gf = Some (gf', events)
    /\ forall c input output,
         nth_error (input_buffers gf) c = Some input ->
         nth_error (output_buffers gf) c = Some output ->
         nth_error (input_buffers gf') c
         = Some (skipn (Z.to_nat (window_new_frames gf)) input)
         /\ nth_error (output_buffers gf') c
            = Some (output
                      ++ map (fun i =>
                                match window_classification env gf with
                                | DETECTION_RESULT_BEEP =>
                                    beep_sample (sample_rate gf) (Z.of_nat i)
                                | _ => F32.zero
                                end)
                           (seq 0 (Z.to_nat (window_new_frames gf)))).
Proof.
  intros H Hgate Hrep.
  destruct (process_audio_channel env gf H Hgate)
    as (gf' & events & Hp & Hch).
  exists gf', events. split; [exact Hp|].
  intros c input output Hin Hout.
  destruct (Hch c input output Hin Hout) as (copy & _ & Hin' & Hout').
  split; [exact Hin'|].
  rewrite Hout', (window_snapshot_replaced _ _ _ _ Hrep).
  reflexivity.
Qed.

End PublishedFrames.

(** ** The further theorems at work on the example runs *)

Section MoreWitnesses.
#[local] Existing Instance literal_regex.
#[local] Existing Instance no_tone.

Ltac conjuncts := repeat match goal with |- _ /\ _ => split end.

Ltac gate_reads :=
  let Hv := fresh in
  let Hnil := fresh in
  intros Hv;
  first [ vm_compute in Hv; discriminate Hv
        | intros Hnil; vm_compute in Hnil; discriminate Hnil ].

Lemma gated_telephone_filter_steady : pipeline_steady gated_telephone_filter.
Proof.
  apply cleanstream_create_steady; [unfold MAX_PREPROC_CHANNELS; lia|].
  cbn. tauto.
Qed.

Lemma gated_telephone_stream_in_bounds (from count : nat)
    (envs : list window_env) :
  Forall (in_bounds_action gated_telephone_filter)
    (telephone_packets from count ++ map (fun e => Poll (heard e)) envs).
Proof.
  apply Forall_app. split.
  - apply Forall_forall. intros a Ha. unfold telephone_packets in Ha.
    apply in_map_iff in Ha as (k & <- & _).
    split; [|apply Z.leb_le; vm_compute; reflexivity].
    unfold packet_fits, telephone_packet, example_packet. cbn [audio_frames data].
    split; [lia|]. split; [reflexivity|].
    constructor; [|constructor].
    unfold ramp. rewrite length_map, length_seq. lia.
  - apply Forall_forall. intros a Ha.
    apply in_map_iff in Ha as (e & <- & _). intros _ Hnil. discriminate Hnil.
Qed.

Lemma telephone_filter_steady : pipeline_steady telephone_filter.
Proof.
  apply cleanstream_create_steady; [unfold MAX_PREPROC_CHANNELS; lia|].
  cbn. tauto.
Qed.

Lemma telephone_stream_steady (from count : nat) (envs : list window_env) :
  Forall (steady_action telephone_filter)
    (telephone_packets from count ++ map Poll envs).
Proof.
  apply Forall_app. split.
  - apply Forall_forall. intros a Ha. unfold telephone_packets in Ha.
    apply in_map_iff in Ha as (k & <- & _).
    split; [|apply Z.leb_le; vm_compute; reflexivity].
    unfold packet_fits, telephone_packet, example_packet. cbn [audio_frames data].
    split; [lia|]. split; [reflexivity|].
    constructor; [|constructor].
    unfold ramp. rewrite length_map, length_seq. lia.
  - apply Forall_forall. intros a Ha.
    apply in_map_iff in Ha as (e & <- & _). exact I.
Qed.

Lemma vad_simple_never_gates_nan_witness :
  existsb is_nan [F32.of_Z 1; S754_nan] = true
  /\ exists filtered,
       vad_simple [F32.of_Z 1; S754_nan] WHISPER_SAMPLE_RATE VAD_THOLD
         FREQ_THOLD = Some (filtered, true)
       /\ existsb is_nan filtered = true.
Proof.
  split; [reflexivity|].
  apply (vad_simple_never_gates_nan [F32.of_Z 1; S754_nan]
           WHISPER_SAMPLE_RATE VAD_THOLD FREQ_THOLD).
  reflexivity.
Defined.

Lemma vad_gate_skips_digital_silence_witness :
  let gf := state_after gated_filter (small_packets 0 101) in
  vad_enabled gf = true
  /\ resampled silent_input_env = repeat F32.zero 16
  /\ 0 < Z.of_nat 16 < 65536
  /\ window_ready gf
  /\ 100 <= overlap_ms gf
  /\ exists gf',
       process_audio_from_buffer silent_input_env gf = Some (gf', [])
       /\ published_as_staged gf gf'
       /\ overlap_ms gf' <= overlap_ms gf.
Proof.
  intros gf.
  assert (vad_enabled gf = true) as H1 by (vm_compute; reflexivity).
  assert (0 < Z.of_nat 16 < 65536) as H3 by (cbn; lia).
  assert (window_ready gf) as H4
    by (apply window_readyb_sound; vm_compute; reflexivity).
  assert (100 <= overlap_ms gf) as H5
    by (apply Z.leb_le; vm_compute; reflexivity).
  destruct (vad_gate_skips_digital_silence silent_input_env gf 16 H1 eq_refl H3)
    as (_ & Hproc).
  destruct (Hproc H4) as (gf' & Hp & Hs & _ & _ & Hle).
  conjuncts; [exact H1 | reflexivity | apply H3 | apply H3 | exact H4
             | exact H5
             | exists gf'; conjuncts; [exact Hp | exact Hs | exact (Hle H5)]].
Defined.

Lemma classification_ignores_case_and_trailing_space_witness :
  let gf := example_filter (Some "um"%string) None in
  all_space " " = true
  /\ run_whisper_inference gf [] (WhisperReturns 0 ("Um" ++ " "))
     = run_whisper_inference gf [] (WhisperReturns 0 "Um")
  /\ run_whisper_inference gf [] (WhisperReturns 0 (lowercase "Um"))
     = run_whisper_inference gf [] (WhisperReturns 0 "Um").
Proof.
  intros gf. split; [reflexivity|].
  apply (classification_ignores_case_and_trailing_space gf [] 0 "Um" " ").
  reflexivity.
Defined.

Lemma whitespace_transcript_is_silence_witness :
  let gf := example_filter (Some "um"%string) None in
  whisper_context gf <> None
  /\ (classification gf [] (WhisperReturns 0 "  ") = DETECTION_RESULT_SILENCE
      <-> all_space "  " = true).
Proof.
  intros gf.
  assert (whisper_context gf <> None) as H by discriminate.
  split; [exact H|].
  apply (whitespace_transcript_is_silence gf [] "  " H).
Defined.

Lemma drain_takes_longest_prefix_witness :
  let buf := [{| frames := 10; timestamp := 0 |};
              {| frames := 1000; timestamp := 7 |};
              {| frames := 10; timestamp := 8 |}] in
  0 <= 1010
  /\ Forall (fun i => 0 <= frames i /\ 1010 + frames i < 2 ^ 32) buf
  /\ exists pre rest,
       buf = pre ++ rest
       /\ drain_info_buffer 1010 buf 0 0
          = (sum_frames pre, latch_timestamp 0 (pre ++ firstn 1 rest), rest).
Proof.
  intros buf.
  assert (0 <= 1010) as H1 by lia.
  assert (Forall (fun i => 0 <= frames i /\ 1010 + frames i < 2 ^ 32) buf)
    as H2 by (repeat constructor; cbn; lia).
  destruct (drain_takes_longest_prefix 1010 buf H1 H2)
    as (pre & rest & Hs & Hd & _).
  conjuncts; [exact H1 | exact H2 | exists pre, rest; split; [exact Hs | exact Hd]].
Defined.

Lemma oversized_packet_stalls_worker_witness :
  let gf := state_after (example_filter None None) oversized_stream in
  let p := {| frames := 2000; timestamp := 0 |} in
  window_ready gf
  /\ last_num_frames gf = 0
  /\ info_buffer gf = [p]
  /\ window_frames gf < frames p < 2 ^ 32
  /\ window_frames gf <= Z.of_nat (length (nth 0 (input_buffers gf) []))
  /\ Forall (fun env => gate_in_bounds env gf) [silence_env; filler_env]
  /\ exists gf',
       run_trace gf (map Poll [silence_env; filler_env]) = Some (gf', [])
       /\ input_buffers gf' = input_buffers gf
       /\ info_out_buffer gf'
          = info_out_buffer gf
              ++ repeat {| frames := 0; timestamp := timestamp p |} 2.
Proof.
  intros gf p.
  assert (window_ready gf) as H1
    by (apply window_readyb_sound; vm_compute; reflexivity).
  assert (last_num_frames gf = 0) as H2 by (vm_compute; reflexivity).
  assert (info_buffer gf = [p]) as H3 by (vm_compute; reflexivity).
  assert (window_frames gf < frames p < 2 ^ 32) as H4
    by (split; apply Z.ltb_lt; vm_compute; reflexivity).
  assert (window_frames gf <= Z.of_nat (length (nth 0 (input_buffers gf) [])))
    as H5 by (apply Z.leb_le; vm_compute; reflexivity).
  assert (Forall (fun env => gate_in_bounds env gf) [silence_env; filler_env])
    as H6 by (repeat constructor; gate_reads).
  destruct (oversized_packet_stalls_worker [silence_env; filler_env] gf p []
              H1 H2 H3 H4 H5) as (Hstall & _).
  destruct (Hstall H6) as (gf' & Hrun & _ & Hin & _ & _ & Hout).
  conjuncts;
    [exact H1 | exact H2 | exact H3 | apply H4 | apply H4 | exact H5 | exact H6
    | exists gf'; conjuncts; [exact Hrun | exact Hin | exact Hout]].
Defined.

Lemma window_is_processed_in_every_environment_witness :
  let gf := gated_window_queued (Some "um"%string) None in
  let env := heard filler_env in
  window_ready gf
  /\ gate_in_bounds env gf
  /\ exists gf' events,
       process_audio_from_buffer env gf = Some (gf', events)
       /\ window_taken gf gf'.
Proof.
  intros gf env.
  assert (window_ready gf) as H
    by (apply window_readyb_sound; vm_compute; reflexivity).
  assert (gate_in_bounds env gf) as Hgate by gate_reads.
  destruct (window_is_processed_in_every_environment env gf H Hgate)
    as (gf' & events & Hp & Ht & _).
  split; [exact H|]. split; [exact Hgate|].
  exists gf', events. split; [exact Hp | exact Ht].
Defined.


Lemma steady_pipeline_never_fails_witness :
  let gf := gated_telephone_filter in
  let tr := telephone_packets 0 11
              ++ map (fun e => Poll (heard e)) [filler_env] in
  pipeline_steady gf
  /\ Forall (in_bounds_action gf) tr
  /\ exists gf' outs,
       run_trace gf tr = Some (gf', outs)
       /\ pipeline_steady gf'.
Proof.
  intros gf tr.
  pose proof gated_telephone_filter_steady as H1.
  pose proof (gated_telephone_stream_in_bounds 0 11 [filler_env]) as H2.
  split; [exact H1|]. split; [exact H2|].
  exact (steady_pipeline_never_fails gf tr H1 H2).
Defined.

Lemma steady_pipeline_conserves_frames_witness :
  let gf := gated_telephone_filter in
  let tr := telephone_packets 0 11
              ++ map (fun e => Poll (heard e)) [filler_env] in
  pipeline_steady gf
  /\ Forall (in_bounds_action gf) tr
  /\ exists gf' outs,
       run_trace gf tr = Some (gf', outs)
       /\ pushed_frames tr + frames_in_flight gf
          = returned_frames outs + frames_in_flight gf'
       /\ Forall (packet_fits (channels gf)) outs.
Proof.
  intros gf tr.
  pose proof gated_telephone_filter_steady as H1.
  pose proof (gated_telephone_stream_in_bounds 0 11 [filler_env]) as H2.
  split; [exact H1|]. split; [exact H2|].
  exact (steady_pipeline_conserves_frames gf tr H1 H2).
Defined.

Lemma created_filter_is_steady_witness :
  (2 <= MAX_PREPROC_CHANNELS)%nat
  /\ In 48000 standard_rates
  /\ pipeline_steady (cleanstream_create 2 48000 true true None None)
  /\ window_frames (cleanstream_create 2 48000 true true None None) = 48480
  /\ overlap_frames (cleanstream_create 2 48000 true true None None) = 16320.
Proof.
  assert (2 <= MAX_PREPROC_CHANNELS)%nat as H1 by (unfold MAX_PREPROC_CHANNELS; lia).
  assert (In 48000 standard_rates) as H2 by (cbn; tauto).
  destruct (created_filter_is_steady 2 48000 true true None None H1 H2)
    as (Hs & Hw & Ho & _).
  conjuncts; [exact H1 | exact H2 | exact Hs | exact Hw | exact Ho].
Defined.

Lemma asr_exception_disables_filter_witness :
  let gf := gated_window_queued None None in
  let env := heard throwing_env in
  window_ready gf
  /\ whisper_context gf <> None
  /\ gate_in_bounds env gf
  /\ snd (gate_outcome env gf) = false
  /\ asr env = WhisperThrows
  /\ exists gf',
       published_as_staged gf gf'
       /\ whisper_context gf' = None
       /\ forall packets,
            run_trace gf' (map Push packets) = Some (gf', packets).
Proof.
  intros gf env.
  assert (window_ready gf) as H1
    by (apply window_readyb_sound; vm_compute; reflexivity).
  assert (whisper_context gf <> None) as H2
    by (vm_compute; discriminate).
  assert (gate_in_bounds env gf) as Hgate by gate_reads.
  assert (snd (gate_outcome env gf) = false) as H3
    by (vm_compute; reflexivity).
  destruct (asr_exception_disables_filter env gf H1 H2 Hgate H3 eq_refl)
    as (gf' & _ & Hs & Hc & Hpass).
  conjuncts; [exact H1 | exact H2 | exact Hgate | exact H3 | reflexivity
             | exists gf'; conjuncts; [exact Hs | exact Hc | exact Hpass]].
Defined.

Lemma silence_off_publishes_as_staged_witness :
  let gf := state_after unsilenced_filter (small_packets 0 101) in
  window_ready gf
  /\ gate_in_bounds filler_env gf
  /\ do_silence gf = false
  /\ classification gf [] (asr filler_env) = DETECTION_RESULT_FILLER
  /\ exists gf' events,
       process_audio_from_buffer filler_env gf = Some (gf', events)
       /\ published_as_staged gf gf'.
Proof.
  intros gf.
  assert (window_ready gf) as H1
    by (apply window_readyb_sound; vm_compute; reflexivity).
  assert (gate_in_bounds filler_env gf) as Hgate by gate_reads.
  assert (do_silence gf = false) as H2 by (vm_compute; reflexivity).
  split; [exact H1|]. split; [exact Hgate|]. split; [exact H2|].
  split; [vm_compute; reflexivity|].
  exact (silence_off_publishes_as_staged filler_env gf H1 Hgate H2).
Defined.

Lemma published_window_reaches_host_witness :
  let gf := state_after gated_telephone_filter (telephone_packets 0 11) in
  let env := heard filler_env in
  let audio := telephone_packet 11 in
  pipeline_steady gf
  /\ window_frames gf <= sum_frames (info_buffer gf)
  /\ info_out_buffer gf = []
  /\ active gf = true
  /\ whisper_context gf <> None
  /\ gate_in_bounds env gf
  /\ asr env <> WhisperThrows
  /\ packet_fits (channels gf) audio
  /\ exists gf1 events gf2 o,
       process_audio_from_buffer env gf = Some (gf1, events)
       /\ cleanstream_filter_audio gf1 audio = Some (gf2, Output o)
       /\ audio_frames o = window_new_frames gf
       /\ audio_timestamp o = window_start_timestamp gf.
Proof.
  intros gf env audio.
  assert (pipeline_steady gf) as H1.
  { apply steady_state_after; [exact gated_telephone_filter_steady|].
    pose proof (gated_telephone_stream_in_bounds 0 11 []) as H.
    cbn [map] in H. now rewrite app_nil_r in H. }
  assert (window_frames gf <= sum_frames (info_buffer gf)) as H2
    by (apply Z.leb_le; vm_compute; reflexivity).
  assert (info_out_buffer gf = []) as H3 by (vm_compute; reflexivity).
  assert (active gf = true) as H4 by (vm_compute; reflexivity).
  assert (whisper_context gf <> None) as H5 by (vm_compute; discriminate).
  assert (gate_in_bounds env gf) as Hgate by gate_reads.
  assert (asr env <> WhisperThrows) as H6 by discriminate.
  assert (packet_fits (channels gf) audio) as H7
    by (apply packet_fitsb_sound; vm_compute; reflexivity).
  destruct (published_window_reaches_host env gf audio
              H1 H2 H3 H4 H5 Hgate H6 H7)
    as (gf1 & events & gf2 & o & Hp & Hf & Hn & Hts & _).
  conjuncts; [exact H1 | exact H2 | exact H3 | exact H4 | exact H5
             | exact Hgate | exact H6 | exact H7
             | exists gf1, events, gf2, o; conjuncts;
               [exact Hp | exact Hf | exact Hn | exact Hts]].
Defined.

Lemma word_boundary_simple_bounds_witness :
  let pcmf32 := repeat F32.zero 10 in
  0 <= 100 * 50 < 2 ^ 32
  /\ Z.of_nat (length pcmf32) < 2 ^ 64
  /\ word_boundary_simple pcmf32 100 F32.half false = Some 0
  /\ (word_boundary_simple (firstn 4 pcmf32) 100 F32.half false = None
      <-> Z.of_nat (length (firstn 4 pcmf32)) < 100 * 50 / 1000
          \/ (false = true /\ 100 * 50 / 1000 = 0 /\ firstn 4 pcmf32 <> [])).
Proof.
  intros pcmf32.
  assert (0 <= 100 * 50 < 2 ^ 32) as H1 by lia.
  assert (Z.of_nat (length pcmf32) < 2 ^ 64) as H2 by (cbn; lia).
  assert (Z.of_nat (length (firstn 4 pcmf32)) < 2 ^ 64) as H3 by (cbn; lia).
  conjuncts; [apply H1 | apply H1 | exact H2 | vm_compute; reflexivity
             | apply (word_boundary_simple_bounds (firstn 4 pcmf32) 100
                        F32.half false H1 H3)].
Defined.

Lemma no_output_before_first_window_witness :
  let tr := telephone_packets 0 10 ++ map Poll [filler_env] in
  pipeline_steady telephone_filter
  /\ active telephone_filter = true
  /\ whisper_context telephone_filter <> None
  /\ info_out_buffer telephone_filter = []
  /\ Forall (steady_action telephone_filter) tr
  /\ sum_frames (info_buffer telephone_filter) + pushed_frames tr
     < window_frames telephone_filter
  /\ exists gf', run_trace telephone_filter tr = Some (gf', []).
Proof.
  intros tr.
  pose proof telephone_filter_steady as H1.
  assert (whisper_context telephone_filter <> None) as H3 by discriminate.
  pose proof (telephone_stream_steady 0 10 [filler_env]) as H5.
  assert (sum_frames (info_buffer telephone_filter) + pushed_frames tr
          < window_frames telephone_filter) as H6
    by (apply Z.ltb_lt; vm_compute; reflexivity).
  destruct (no_output_before_first_window tr telephone_filter
              H1 eq_refl H3 eq_refl H5 H6) as (gf' & Hrun & _).
  conjuncts; [exact H1 | reflexivity | exact H3 | reflexivity | exact H5
             | exact H6 | exists gf'; exact Hrun].
Defined.

Lemma first_window_publishes_consumed_frames_witness :
  let gf := gated_window_queued None None in
  let env := heard silence_env in
  window_ready gf
  /\ gate_in_bounds env gf
  /\ last_num_frames gf = 0
  /\ replaces_audio gf (snd (gate_outcome env gf))
       (window_classification env gf) = false
  /\ exists gf' events,
       process_audio_from_buffer env gf = Some (gf', events)
       /\ forall c input output,
            nth_error (input_buffers gf) c = Some input ->
            nth_error (output_buffers gf) c = Some output ->
            nth_error (input_buffers gf') c
            = Some (skipn (Z.to_nat (window_new_frames gf)) input)
            /\ nth_error (output_buffers gf') c
               = Some (output
                         ++ firstn (Z.to_nat (window_new_frames gf)) input).
Proof.
  intros gf env.
  assert (window_ready gf) as Hready
    by (apply window_readyb_sound; vm_compute; reflexivity).
  assert (gate_in_bounds env gf) as Hgate by gate_reads.
  assert (last_num_frames gf = 0) as Hfirst by (vm_compute; reflexivity).
  assert (replaces_audio gf (snd (gate_outcome env gf))
            (window_classification env gf) = false) as Hrep
    by (vm_compute; reflexivity).
  conjuncts;
    [exact Hready | exact Hgate | exact Hfirst | exact Hrep
    | exact (first_window_publishes_consumed_frames env gf Hready Hgate
               Hfirst Hrep)].
Defined.

Lemma later_window_lags_by_the_overlap_witness :
  let gf := state_after (example_filter None None) until_second_window in
  window_ready gf
  /\ gate_in_bounds silence_env gf
  /\ 0 < last_num_frames gf
  /\ overlap_frames gf <= window_new_frames gf
  /\ replaces_audio gf (snd (gate_outcome silence_env gf))
       (window_classification silence_env gf) = false
  /\ exists gf' events,
       process_audio_from_buffer silence_env gf = Some (gf', events)
       /\ forall c input output,
            nth_error (input_buffers gf) c = Some input ->
            nth_error (output_buffers gf) c = Some output ->
            exists copy,
              nth_error (copy_buffers gf) c = Some copy
              /\ nth_error (input_buffers gf') c
                 = Some (skipn (Z.to_nat (window_new_frames gf)) input)
              /\ nth_error (output_buffers gf') c
                 = Some (output
                           ++ firstn (Z.to_nat (overlap_frames gf))
                                (skipn (Z.to_nat (last_num_frames gf
                                                  - overlap_frames gf)) copy)
                           ++ firstn (Z.to_nat (window_new_frames gf
                                                - overlap_frames gf)) input).
Proof.
  intros gf.
  assert (window_ready gf) as Hready
    by (apply window_readyb_sound; vm_compute; reflexivity).
  assert (gate_in_bounds silence_env gf) as Hgate by gate_reads.
  assert (0 < last_num_frames gf) as Hlater by (vm_compute; reflexivity).
  assert (overlap_frames gf <= window_new_frames gf) as Hov
    by (apply Z.leb_le; vm_compute; reflexivity).
  assert (replaces_audio gf (snd (gate_outcome silence_env gf))
            (window_classification silence_env gf) = false) as Hrep
    by (vm_compute; reflexivity).
  conjuncts;
    [exact Hready | exact Hgate | exact Hlater | exact Hov | exact Hrep
    | exact (later_window_lags_by_the_overlap silence_env gf Hready Hgate
               Hlater Hov Hrep)].
Defined.

Lemma replaced_window_hides_its_audio_witness :
  let gf := state_after (example_filter (Some "um"%string) None)
              until_second_window in
  window_ready gf
  /\ gate_in_bounds filler_env gf
  /\ replaces_audio gf (snd (gate_outcome filler_env gf))
       (window_classification filler_env gf) = true
  /\ exists gf' events,
       process_audio_from_buffer filler_env gf = Some (gf', events)
       /\ forall c input output,
            nth_error (input_buffers gf) c = Some input ->
            nth_error (output_buffers gf) c = Some output ->
            nth_error (input_buffers gf') c
            = Some (skipn (Z.to_nat (window_new_frames gf)) input)
            /\ nth_error (output_buffers gf') c
               = Some (output
                         ++ map (fun i =>
                                   match window_classification filler_env gf with
                                   | DETECTION_RESULT_BEEP =>
                                       beep_sample (sample_rate gf) (Z.of_nat i)
                                   | _ => F32.zero
                                   end)
                              (seq 0 (Z.to_nat (window_new_frames gf)))).
Proof.
  intros gf.
  assert (window_ready gf) as Hready
    by (apply window_readyb_sound; vm_compute; reflexivity).
  assert (gate_in_bounds filler_env gf) as Hgate by gate_reads.
  assert (replaces_audio gf (snd (gate_outcome filler_env gf))
            (window_classification filler_env gf) = true) as Hrep
    by (vm_compute; reflexivity).
  conjuncts;
    [exact Hready | exact Hgate | exact Hrep
    | exact (replaced_window_hides_its_audio filler_env gf Hready Hgate
               Hrep)].
Defined.

End MoreWitnesses.
